(** * AC-websocket-server: relay registry, broadcast fan-out and best-lap store

    A shallow embedding of the TypeScript sources
    [connection-manager.ts], [best-lap-tracker.ts] and the producer message
    handler of [server.ts], with the properties of the written specification
    stated and settled against it.

    Conventions of the embedding.
    - A JavaScript [number] carrying milliseconds, a simulator number or a
      counter is a [Z].  Fractions, NaN and infinities are outside the model.
    - A JavaScript string is the Rocq [string] of the UTF-8 bytes of its
      text (a surrogate on its own as the three bytes of the same form).
      [toLowerCase] follows the Unicode case mapping: the ASCII letters, the
      two characters beyond ASCII whose lower case holds an ASCII letter, and
      for every other character a case table that is a parameter.
    - An ISO-8601 timestamp string is represented by the instant (epoch
      milliseconds) it renders: [toISOString] never maps two instants to one
      string.
    - A [Map] or an object used as a dictionary is a [gmap]; the
      [ConnectionManager]'s client [Map], which is iterated, is an
      insertion-ordered association list.  The [pilots] object of an event
      is looked up as JavaScript does it: its own properties first, then
      those of [Object.prototype].
    - A file of the data directory holds text that does not parse, the
      text of an event table, or the text of another JSON value, which the
      tracker caches and uses unchecked.
    - Module-level variables and instance fields are fields of an explicit
      state record; a function that reads or writes them is a computation in
      the state-and-exception monad [M].
    - A call runs to completion: an [async] function is the sequence of its
      steps, and calls that overlap while one of them awaits the disk are
      outside the model. Time passes and timers fire between calls. *)

From Stdlib Require Import ZArith Ascii String List Bool Lia.
From stdpp Require Import gmap strings list fin_maps sorting pretty.

Local Open Scope Z_scope.

(* ===================================================================== *)
(** * Filesystem-safe names: [sanitizeEventName]                          *)
(* ===================================================================== *)

Module Sanitize.

Definition code (c : ascii) : nat := nat_of_ascii c.

Definition between (lo hi : nat) (c : ascii) : bool :=
  (Nat.leb lo (code c)) && (Nat.leb (code c) hi).

Definition isUpper : ascii -> bool := between 65 90.
Definition isLower : ascii -> bool := between 97 122.
Definition isDigit : ascii -> bool := between 48 57.

(** The character class [[a-z0-9]] of the first regular expression. *)
Definition inClass (c : ascii) : bool := isLower c || isDigit c.

Definition dash : ascii := "-"%char.

Definition isDash (c : ascii) : bool := Ascii.eqb c dash.

Definition lowerChar (c : ascii) : ascii :=
  if isUpper c then ascii_of_nat (code c + 32) else c.

(** ** Text beyond ASCII *)

(** A byte of a character beyond ASCII. *)
Definition isForeign (c : ascii) : bool := Nat.leb 128 (code c).

Definition byte (n : nat) : ascii := ascii_of_nat n.

Definition isByte (n : nat) (c : ascii) : bool := Nat.eqb (code c) n.

(** COMBINING DOT ABOVE, U+0307. *)
Definition dotAbove : list ascii := [byte 204; byte 135].

(** One character beyond ASCII at least, and nothing else. *)
Definition foreignRun (s : list ascii) : bool :=
  match s with
  | [] => false
  | _ => forallb isForeign s
  end.

(** The case table of the runtime, which the sources do not hold.  Unicode
    lower-cases two characters beyond ASCII to text with an ASCII letter in
    it: KELVIN SIGN (U+212A, bytes 226 132 170) to [k], and LATIN CAPITAL
    LETTER I WITH DOT ABOVE (U+0130, bytes 196 176) to [i] followed by
    COMBINING DOT ABOVE.  [lowerOther s i] is the lower case of the maximal
    run of other characters beyond ASCII that starts at offset [i] of [s]:
    characters beyond ASCII again, one at least.  It may depend on all of
    [s], as the contextual rules of the table do. *)
Record CaseTable : Type := {
  lowerOther : list ascii -> nat -> list ascii;
  lowerOther_foreign : forall s i, foreignRun (lowerOther s i) = true
}.

(** A table, for the definitions that only need the derived name: under
    every table the derived name is the same. *)
Definition anyTable : CaseTable :=
  {| lowerOther := fun _ _ => dotAbove;
     lowerOther_foreign := fun _ _ => eq_refl |}.

(** The string starts with the Kelvin sign or with the dotted capital I. *)
Definition startsSpecial (s : list ascii) : bool :=
  match s with
  | a :: b :: rest =>
      (isByte 196 a && isByte 176 b)
      || match rest with
         | c :: _ => isByte 226 a && isByte 132 b && isByte 170 c
         | [] => false
         end
  | _ => false
  end.

Section Derivation.

Variable U : CaseTable.

(** [s.toLowerCase()], from offset [i] of the string [whole] on.  [inRun]
    says that the scan is inside a run of other characters beyond ASCII,
    whose lower case has been written already. *)
Fixpoint lowerFrom (whole : list ascii) (i : nat) (inRun : bool)
    (s : list ascii) : list ascii :=
  match s with
  | [] => []
  | a :: rest =>
      let single :=
        (if isForeign a
         then if inRun then [] else lowerOther U whole i
         else [lowerChar a])
        ++ lowerFrom whole (S i) (isForeign a) rest in
      match rest with
      | [] => single
      | b :: rest2 =>
          if isByte 196 a && isByte 176 b
          then "i"%char :: dotAbove ++ lowerFrom whole (S (S i)) false rest2
          else
            match rest2 with
            | [] => single
            | c :: rest3 =>
                if isByte 226 a && isByte 132 b && isByte 170 c
                then "k"%char :: lowerFrom whole (S (S (S i))) false rest3
                else single
            end
      end
  end.

Definition toLowerCase (s : list ascii) : list ascii := lowerFrom s 0 false s.

(** [s.replace(/[^a-z0-9]+/g, "-")]: scanning left to right, every
    greedy match (a maximal run of characters outside the class) is
    replaced by one dash.  [inRun] says that the scan is inside a match
    whose dash has been emitted already. *)
Fixpoint replaceRuns (inRun : bool) (s : list ascii) : list ascii :=
  match s with
  | [] => []
  | c :: rest =>
      if inClass c then c :: replaceRuns false rest
      else if inRun then replaceRuns true rest
           else dash :: replaceRuns true rest
  end.

(** First alternative of [/^-|-$/g]: a dash at index 0. *)
Definition stripLeading (s : list ascii) : list ascii :=
  match s with
  | c :: rest => if isDash c then rest else s
  | [] => []
  end.

(** Second alternative of [/^-|-$/g]: a dash at the last index, looked
    for in what the first match left. *)
Fixpoint stripTrailing (s : list ascii) : list ascii :=
  match s with
  | [] => []
  | [c] => if isDash c then [] else [c]
  | c :: rest => c :: stripTrailing rest
  end.

(** [s.replace(/^-|-$/g, "")] *)
Definition replaceEnds (s : list ascii) : list ascii :=
  stripTrailing (stripLeading s).

Definition sanitizeChars (s : list ascii) : list ascii :=
  replaceEnds (replaceRuns false (toLowerCase s)).

(** [sanitizeEventName], with the case table of the runtime as [U]. *)
Definition sanitizeEventNameWith (eventName : string) : string :=
  string_of_list_ascii (sanitizeChars (list_ascii_of_string eventName)).

End Derivation.

(** The derived name the tracker uses ([sanitizeEventNameWith] yields the
    same under every case table). *)
Definition sanitizeEventName (eventName : string) : string :=
  sanitizeEventNameWith anyTable eventName.

(** ** The derivation as the specification words it *)

(** The wording has its own alphabet, so that it says what a letter, a
    digit and a separator are without the help of the code. *)

(** The capitals and, in the same order, the small letters; the digits. *)
Definition capitals : string := "ABCDEFGHIJKLMNOPQRSTUVWXYZ".
Definition smalls : string := "abcdefghijklmnopqrstuvwxyz".
Definition digits : string := "0123456789".

Definition separator : ascii := "-"%char.

(** The character is one of those of the text. *)
Definition among (text : string) (c : ascii) : bool :=
  existsb (Ascii.eqb c) (list_ascii_of_string text).

Definition isSeparator (c : ascii) : bool := Ascii.eqb c separator.

(** The top bit of the byte is set: it is a byte of a character beyond
    ASCII. *)
Definition beyondAscii (c : ascii) : bool :=
  match c with
  | Ascii _ _ _ _ _ _ _ top => top
  end.

(** The letters of a text, one by one. *)
Definition letters (text : string) : list string :=
  map (fun c => String c EmptyString) (list_ascii_of_string text).

(** The letters with a lower case that holds an ASCII letter, each with
    its lower case: the twenty-six capitals, the Kelvin sign and the
    dotted capital I. *)
Definition lowerCases : list (string * string) :=
  zip (letters capitals) (letters smalls)
  ++ [("K", "k"); ("İ", "i̇")]%string.

Fixpoint startsWith (prefix s : list ascii) : bool :=
  match prefix, s with
  | [], _ => true
  | p :: prefix', c :: s' => Ascii.eqb p c && startsWith prefix' s'
  | _ :: _, [] => false
  end.

(** The entry of [lowerCases] whose letter [s] starts with. *)
Definition lowerCaseAt (s : list ascii) : option (string * string) :=
  List.find (fun entry => startsWith (list_ascii_of_string (fst entry)) s)
    lowerCases.

(** Letters and digits. *)
Definition alphanumeric (c : ascii) : bool :=
  among smalls c || among capitals c || among digits c.

(** The maximal runs of a string: consecutive characters that agree on
    [alphanumeric], in order. *)
Fixpoint runs (s : list ascii) : list (list ascii) :=
  match s with
  | [] => []
  | c :: rest =>
      match runs rest with
      | (d :: run) :: more =>
          if Bool.eqb (alphanumeric c) (alphanumeric d)
          then (c :: d :: run) :: more
          else [c] :: (d :: run) :: more
      | other => [c] :: other
      end
  end.

(** A run of non-alphanumeric characters collapses to one separator. *)
Definition collapseRun (run : list ascii) : list ascii :=
  match run with
  | c :: _ => if alphanumeric c then run else [separator]
  | [] => []
  end.

Fixpoint dropSeparators (s : list ascii) : list ascii :=
  match s with
  | c :: rest => if isSeparator c then dropSeparators rest else s
  | [] => []
  end.

Fixpoint dropTrailingSeparators (s : list ascii) : list ascii :=
  match s with
  | c :: rest =>
      match dropTrailingSeparators rest with
      | [] => if isSeparator c then [] else [c]
      | kept => c :: kept
      end
  | [] => []
  end.

(** Leading and trailing separators removed. *)
Definition trimSeparators (s : list ascii) : list ascii :=
  dropTrailingSeparators (dropSeparators s).

Definition collapseRuns (s : list ascii) : list ascii :=
  concat (map collapseRun (runs s)).

(** What [collapseRuns] yields for [s] once the separator of a run that
    started before [s] has been written. *)
Definition restOfRun (s : list ascii) : list ascii :=
  match s with
  | c :: _ => if alphanumeric c then collapseRuns s else tail (collapseRuns s)
  | [] => []
  end.

Section Wording.

Variable U : CaseTable.

(** The string lower-cased, letter by letter: a letter of [lowerCases]
    becomes its lower case ([skip] counts the bytes of it still to pass), a
    run of other characters beyond ASCII what the case table of the runtime
    says, and every other character stays. *)
Fixpoint spec_lowerFrom (whole : list ascii) (i skip : nat) (inRun : bool)
    (s : list ascii) : list ascii :=
  match s with
  | [] => []
  | c :: rest =>
      match skip with
      | S more => spec_lowerFrom whole (S i) more false rest
      | O =>
          match lowerCaseAt s with
          | Some (upper, lower) =>
              list_ascii_of_string lower
              ++ spec_lowerFrom whole (S i) (String.length upper - 1) false
                   rest
          | None =>
              if beyondAscii c
              then (if inRun then [] else lowerOther U whole i)
                   ++ spec_lowerFrom whole (S i) 0 true rest
              else c :: spec_lowerFrom whole (S i) 0 false rest
          end
      end
  end.

Definition spec_toLowerCase (s : list ascii) : list ascii :=
  spec_lowerFrom s 0 0 false s.

Definition spec_sanitizeChars (s : list ascii) : list ascii :=
  trimSeparators (collapseRuns (spec_toLowerCase s)).

Definition spec_sanitizeEventName (eventName : string) : string :=
  string_of_list_ascii (spec_sanitizeChars (list_ascii_of_string eventName)).

End Wording.

(** ** The shape of a derived name *)

(** No two separators in a row. *)
Fixpoint singleDashes (s : list ascii) : bool :=
  match s with
  | c :: (d :: _) as rest =>
      negb (isSeparator c && isSeparator d) && singleDashes rest
  | _ => true
  end.

Definition startsWithDash (s : list ascii) : bool :=
  match s with c :: _ => isSeparator c | [] => false end.

Fixpoint endsWithDash (s : list ascii) : bool :=
  match s with
  | [] => false
  | [c] => isSeparator c
  | _ :: rest => endsWithDash rest
  end.

(** A small letter, a digit or the separator. *)
Definition safeChar (c : ascii) : bool :=
  among smalls c || among digits c || isSeparator c.

(** Only lowercase letters, digits and single interior separators. *)
Definition safeChars (s : list ascii) : bool :=
  forallb safeChar s
  && singleDashes s
  && negb (startsWithDash s)
  && negb (endsWithDash s).

Definition safeName (s : string) : bool := safeChars (list_ascii_of_string s).

End Sanitize.


(* ===================================================================== *)
(** * Computations with state and exceptions                              *)
(* ===================================================================== *)

Module Effect.

(** A thrown value, by its [message]. *)
Record Exn : Type := Error { message : string }.

Inductive Outcome (A : Type) : Type :=
| Returned (a : A)
| Thrown (e : Exn).
Arguments Returned {A} a.
Arguments Thrown {A} e.

(** A function body running against mutable state [S]: it returns or
    throws, and leaves a state behind in both cases. *)
Definition M (S A : Type) : Type := S -> Outcome A * S.

Definition ret {S A} (a : A) : M S A := fun s => (Returned a, s).

Definition bind {S A B} (m : M S A) (k : A -> M S B) : M S B :=
  fun s =>
    match m s with
    | (Returned a, s') => k a s'
    | (Thrown e, s') => (Thrown e, s')
    end.

Definition throw {S A} (e : Exn) : M S A := fun s => (Thrown e, s).

(** [try { body } catch (e) { handler e }]: what [body] did to the state
    before it threw stays done. *)
Definition try_catch {S A} (body : M S A) (handler : Exn -> M S A) : M S A :=
  fun s =>
    match body s with
    | (Returned a, s') => (Returned a, s')
    | (Thrown e, s') => handler e s'
    end.

Definition gets {S A} (f : S -> A) : M S A := fun s => (Returned (f s), s).

Definition modify {S} (f : S -> S) : M S unit := fun s => (Returned tt, f s).

(** State left by a computation, and whether it returned. *)
Definition exec {S A} (m : M S A) (s : S) : S := snd (m s).

Definition returns {S A} (m : M S A) (s : S) : bool :=
  match fst (m s) with Returned _ => true | Thrown _ => false end.

Module Notations.
Notation "'let!' x ':=' m 'in' k" := (bind m (fun x => k))
  (at level 10, x name, m at level 100, k at level 200).
Notation "m ;; k" := (bind m (fun _ => k))
  (at level 100, k at level 200, right associativity).
End Notations.

End Effect.

(* ===================================================================== *)
(** * [types.ts]                                                          *)
(* ===================================================================== *)

Module Types.

(** [RawSimulatorData], with the fields the relay and the tracker read.
    The telemetry fields that are only carried along ([lapData], [rpm],
    [gear], ...) are left out. An optional field is an [option]. *)
Record RawSimulatorData : Type := {
  simNum : Z;
  pilot_name : string;          (* "pilot-name" *)
  car : string;
  track : string;
  bestLap : option Z;
  bestTime : option Z;
  event : option string
}.

(** [OutputMessage] *)
Record OutputMessage : Type := {
  type : string;
  data : RawSimulatorData;
  timestamp : Z
}.

(** [WebSocket.readyState] *)
Inductive ReadyState : Type := CONNECTING | OPEN | CLOSING | CLOSED.

End Types.

(* ===================================================================== *)
(** * [best-lap-tracker.ts]                                               *)
(* ===================================================================== *)

Module Tracker.
Import Effect Effect.Notations.
Import Sanitize.

(** [const WRITE_DEBOUNCE_MS = 5000], [const MIN_PROCESS_INTERVAL_MS = 5000] *)
Definition WRITE_DEBOUNCE_MS : Z := 5000.
Definition MIN_PROCESS_INTERVAL_MS : Z := 5000.

(** [interface BestLapRecord] *)
Record BestLapRecord : Type := {
  pilotName : string;
  bestLapTime : Z;
  car : string;
  track : string;
  timestamp : Z;
  simNum : Z
}.

(** [interface EventData]; [pilots] is an object used as a dictionary
    from pilot name to record: the map holds its own properties, and a
    lookup of another name falls back on [Object.prototype]
    ([getPilot]). *)
Record EventData : Type := {
  eventName : string;
  createdAt : Z;
  lastUpdated : Z;
  pilots : gmap string BestLapRecord
}.

(** Values of [lastProcessedLap]: [{ lap: number; timestamp: number }]. *)
Module LastProcessed.
Record t : Type := { lap : Z; timestamp : Z }.
End LastProcessed.

(** What [JSON.parse] yields from a file that holds no table: [null];
    another falsy value ([false], [0], the empty string); or a truthy
    value without [pilots], or with [null] there (an object such as
    [{}], an array, a number), with the [eventName] it declares, the empty
    string when it declares none. *)
Inductive Stray : Type :=
| Null
| Falsy
| Pilotless (declared : string).

(** A value of the cache, an [EventData] by its declared type: what
    [JSON.parse] returned, which nothing checks, or a table handed to
    [saveEventData]. *)
Inductive Value : Type :=
| Table (data : EventData)
| Other (stray : Stray).

(** The text of a file of the data directory: [JSON.parse] throws on it,
    or it is what [JSON.stringify] gives for a table, or for another
    value.  A value whose [pilots] is no dictionary of records as
    [BestLapRecord] declares them, or whose [eventName] is truthy and no
    string, is outside the model. *)
Inductive FileContent : Type :=
| Malformed
| Document (data : EventData)
| Foreign (stray : Stray).

(** A timer of the event loop set by [saveEventData]: the instant it is
    due and the variables [filename], [eventName] and [data] its callback
    closes over. A [NodeJS.Timeout] handle is the number under which the
    loop holds the timer.

    The callback serializes [data] when it fires, and [data] is the object
    the cache holds. [payload] is the table at the time the timer is set:
    the one place that mutates a table, [processBestLap], hands it to
    [saveEventData] in the same turn of the loop, which drops the timer
    pending for the file and sets a new one. *)
Record Timeout : Type := {
  due : Z;
  filename : string;
  forEvent : string;
  payload : EventData
}.

(** Uses of the cache and reads of the disk, in order: an observation
    of what a call touched, not program state. *)
Inductive Access : Type :=
| CacheHas (eventName : string)
| CacheGet (eventName : string)
| CacheSet (eventName : string)
| CacheDelete (eventName : string)
| CacheClear
| ReadFile (filename : string).

(** The module-level variables [eventCache], [pendingWrites],
    [lastProcessedLap]; the environment: the wall clock, the timers the
    event loop holds and its next free handle, the files of [DATA_DIR] by
    name without the [.json] suffix, and the names on which [fs.writeFile]
    fails; and two observations: the [accesses] made so far and, per file,
    the data of every [fs.writeFile] call ([written]). *)
Record State : Type := {
  eventCache : gmap string Value;
  pendingWrites : gmap string nat;
  lastProcessedLap : gmap string LastProcessed.t;
  clock : Z;
  timers : gmap nat Timeout;
  nextTimer : nat;
  files : gmap string FileContent;
  unwritable : gset string;
  accesses : list Access;
  written : gmap string (list Value)
}.

Definition set_eventCache
    (f : gmap string Value -> gmap string Value)
    (s : State) : State :=
  {| eventCache := f (eventCache s); pendingWrites := pendingWrites s;
     lastProcessedLap := lastProcessedLap s; clock := clock s;
     timers := timers s; nextTimer := nextTimer s; files := files s;
     unwritable := unwritable s; accesses := accesses s;
     written := written s |}.

Definition set_pendingWrites
    (f : gmap string nat -> gmap string nat)
    (s : State) : State :=
  {| eventCache := eventCache s; pendingWrites := f (pendingWrites s);
     lastProcessedLap := lastProcessedLap s; clock := clock s;
     timers := timers s; nextTimer := nextTimer s; files := files s;
     unwritable := unwritable s; accesses := accesses s;
     written := written s |}.

Definition set_lastProcessedLap
    (f : gmap string LastProcessed.t -> gmap string LastProcessed.t)
    (s : State) : State :=
  {| eventCache := eventCache s; pendingWrites := pendingWrites s;
     lastProcessedLap := f (lastProcessedLap s); clock := clock s;
     timers := timers s; nextTimer := nextTimer s; files := files s;
     unwritable := unwritable s; accesses := accesses s;
     written := written s |}.

Definition set_clock
    (f : Z -> Z)
    (s : State) : State :=
  {| eventCache := eventCache s; pendingWrites := pendingWrites s;
     lastProcessedLap := lastProcessedLap s; clock := f (clock s);
     timers := timers s; nextTimer := nextTimer s; files := files s;
     unwritable := unwritable s; accesses := accesses s;
     written := written s |}.

Definition set_timers
    (f : gmap nat Timeout -> gmap nat Timeout)
    (s : State) : State :=
  {| eventCache := eventCache s; pendingWrites := pendingWrites s;
     lastProcessedLap := lastProcessedLap s; clock := clock s;
     timers := f (timers s); nextTimer := nextTimer s; files := files s;
     unwritable := unwritable s; accesses := accesses s;
     written := written s |}.

Definition set_nextTimer
    (f : nat -> nat)
    (s : State) : State :=
  {| eventCache := eventCache s; pendingWrites := pendingWrites s;
     lastProcessedLap := lastProcessedLap s; clock := clock s;
     timers := timers s; nextTimer := f (nextTimer s); files := files s;
     unwritable := unwritable s; accesses := accesses s;
     written := written s |}.

Definition set_files
    (f : gmap string FileContent -> gmap string FileContent)
    (s : State) : State :=
  {| eventCache := eventCache s; pendingWrites := pendingWrites s;
     lastProcessedLap := lastProcessedLap s; clock := clock s;
     timers := timers s; nextTimer := nextTimer s; files := f (files s);
     unwritable := unwritable s; accesses := accesses s;
     written := written s |}.

Definition set_accesses
    (f : list Access -> list Access)
    (s : State) : State :=
  {| eventCache := eventCache s; pendingWrites := pendingWrites s;
     lastProcessedLap := lastProcessedLap s; clock := clock s;
     timers := timers s; nextTimer := nextTimer s; files := files s;
     unwritable := unwritable s; accesses := f (accesses s);
     written := written s |}.

Definition set_written
    (f : gmap string (list Value) -> gmap string (list Value))
    (s : State) : State :=
  {| eventCache := eventCache s; pendingWrites := pendingWrites s;
     lastProcessedLap := lastProcessedLap s; clock := clock s;
     timers := timers s; nextTimer := nextTimer s; files := files s;
     unwritable := unwritable s; accesses := accesses s;
     written := f (written s) |}.

Definition note (a : Access) : State -> State :=
  set_accesses (fun log => log ++ [a]).

(** ** The platform *)

Definition present {A} (o : option A) : bool :=
  match o with Some _ => true | None => false end.

(** [Date.now()], and the instant of [new Date().toISOString()]. *)
Definition Date_now : M State Z := gets clock.

(** [eventCache.has(k)], [.get(k)], [.set(k, v)], [.delete(k)], [.clear()] *)
Definition cache_has (k : string) : M State bool :=
  modify (note (CacheHas k)) ;;
  gets (fun s => present (eventCache s !! k)).

Definition cache_get (k : string) : M State (option Value) :=
  modify (note (CacheGet k)) ;;
  gets (fun s => eventCache s !! k).

Definition cache_set (k : string) (v : Value) : M State unit :=
  modify (note (CacheSet k)) ;;
  modify (set_eventCache (<[k := v]>)).

Definition cache_delete (k : string) : M State unit :=
  modify (note (CacheDelete k)) ;;
  modify (set_eventCache (delete k)).

Definition cache_clear : M State unit :=
  modify (note CacheClear) ;;
  modify (set_eventCache (fun _ => ∅)).

(** [await fs.readFile(filepath, "utf-8")]: rejects when there is no such
    file. *)
Definition fs_readFile (filename : string) : M State FileContent :=
  modify (note (ReadFile filename)) ;;
  let! found := gets (fun s => files s !! filename) in
  match found with
  | Some content => ret content
  | None => throw (Error "ENOENT: no such file or directory")
  end.

(** [JSON.parse(content)] *)
Definition JSON_parse (content : FileContent) : M State Value :=
  match content with
  | Document data => ret (Table data)
  | Foreign stray => ret (Other stray)
  | Malformed => throw (Error "Unexpected token in JSON")
  end.

(** [JSON.stringify(data, null, 2)] *)
Definition JSON_stringify (data : Value) : FileContent :=
  match data with
  | Table table => Document table
  | Other stray => Foreign stray
  end.

(** [await fs.writeFile(filepath, JSON.stringify(data, null, 2), "utf-8")] *)
Definition fs_writeFile (filename : string) (data : Value) : M State unit :=
  modify (set_written (fun w => <[filename := w !!! filename ++ [data]]> w)) ;;
  let! refused := gets (fun s => bool_decide (filename ∈ unwritable s)) in
  if refused then throw (Error "EACCES: permission denied")
  else modify (set_files (<[filename := JSON_stringify data]>)).

(** [clearTimeout(handle)]: the loop drops the timer, if it still holds
    it. *)
Definition clearTimeout (handle : nat) : M State unit :=
  modify (set_timers (delete handle)).

(** [setTimeout(callback, ms)] for the callback that closes over
    [filename], [eventName] and [data]; returns the fresh handle. *)
Definition setTimeout (filename eventName : string) (data : EventData)
    (ms : Z) : M State nat :=
  let! now := gets clock in
  let! handle := gets nextTimer in
  modify (set_timers (<[handle := {| due := now + ms; filename := filename;
                                     forEvent := eventName;
                                     payload := data |}]>)) ;;
  modify (set_nextTimer (fun _ => S handle)) ;;
  ret handle.

(** ** The module's functions *)

(** [ensureDataDirectory]: [fs.mkdir] with [recursive], its failure
    caught and logged; the directory is implicit in [files]. *)
Definition ensureDataDirectory : M State unit := ret tt.

(** [eventCache.get(eventName)!] *)
Definition unwrap (found : option Value) : Value := default (Other Null) found.

(** [loadEventData]: the cached value or the parsed one, whatever it is,
    or the [null] of the [catch]. *)
Definition loadEventData (eventName : string) : M State Value :=
  let! hit := cache_has eventName in
  if hit then
    let! found := cache_get eventName in
    ret (unwrap found)
  else
    let filename := sanitizeEventName eventName in
    try_catch
      (let! content := fs_readFile filename in
       let! data := JSON_parse content in
       cache_set eventName data ;;
       ret data)
      (fun _ => ret (Other Null)).

(** The callback [saveEventData] hands to [setTimeout]. *)
Definition writeCallback (filename eventName : string) (data : EventData)
    : M State unit :=
  ensureDataDirectory ;;
  try_catch
    (fs_writeFile filename (Table data) ;;
     modify (set_pendingWrites (delete filename)))
    (fun _ => ret tt).

Definition saveEventData (eventName : string) (data : EventData)
    : M State unit :=
  cache_set eventName (Table data) ;;
  let filename := sanitizeEventName eventName in
  let! pending := gets (fun s => pendingWrites s !! filename) in
  match pending with
  | Some handle => clearTimeout handle
  | None => ret tt
  end ;;
  let! timeoutId := setTimeout filename eventName data WRITE_DEBOUNCE_MS in
  modify (set_pendingWrites (<[filename := timeoutId]>)).

(** Truthiness of an optional number: [undefined] and [0] are falsy. *)
Definition truthy (n : option Z) : bool :=
  match n with
  | Some v => negb (v =? 0)
  | None => false
  end.

(** [a || b] on optional numbers. *)
Definition or_else (a b : option Z) : option Z := if truthy a then a else b.

(** [data.event || "default-event"] *)
Definition eventNameOf (data : Types.RawSimulatorData) : string :=
  match Types.event data with
  | Some name => if String.eqb name "" then "default-event" else name
  | None => "default-event"
  end.

(** [data.bestLap || data.bestTime] *)
Definition candidate (data : Types.RawSimulatorData) : option Z :=
  or_else (Types.bestLap data) (Types.bestTime data).

(** The candidate as the specification words it: [bestLap] if the
    sample has one, else [bestTime]. *)
Definition claimedCandidate (data : Types.RawSimulatorData) : option Z :=
  match Types.bestLap data with
  | Some lap => Some lap
  | None => Types.bestTime data
  end.

(** The candidate in other words: [bestLap] if the sample has one that is
    not zero, else [bestTime]. *)
Definition wordedCandidate (data : Types.RawSimulatorData) : option Z :=
  match Types.bestLap data with
  | Some lap => if decide (lap = 0) then Types.bestTime data else Some lap
  | None => Types.bestTime data
  end.

(** [`${eventName}:${data["pilot-name"]}`] *)
Definition pilotKeyOf (data : Types.RawSimulatorData) : string :=
  eventNameOf data +:+ ":" +:+ Types.pilot_name data.

(** [lastProcessed.lap === data.bestLap] *)
Definition sameLap (last : LastProcessed.t) (data : Types.RawSimulatorData) : bool :=
  match Types.bestLap data with
  | Some v => LastProcessed.lap last =? v
  | None => false
  end.

(** The condition of the throttling [return]. *)
Definition throttles (now : Z) (lastProcessed : option LastProcessed.t)
    (data : Types.RawSimulatorData) : bool :=
  match lastProcessed with
  | Some last =>
      (now - LastProcessed.timestamp last <? MIN_PROCESS_INTERVAL_MS)
      && sameLap last data
  | None => false
  end.

Definition newEvent (name : string) (created updated : Z) : EventData :=
  {| eventName := name; createdAt := created; lastUpdated := updated;
     pilots := ∅ |}.

(** [!eventData] *)
Definition falsy (eventData : Value) : bool :=
  match eventData with
  | Table _ | Other (Pilotless _) => false
  | Other Null | Other Falsy => true
  end.

(** [eventData.pilots], which [eventData.pilots[pilotName]] reads first:
    where there is none, indexing [undefined] is a [TypeError]. *)
Definition pilotsOf (eventData : Value) : M State EventData :=
  match eventData with
  | Table table => ret table
  | Other _ => throw (Error "Cannot read properties of undefined")
  end.

(** The property names every object inherits from [Object.prototype]. *)
Definition inheritedNames : list string :=
  ["constructor"; "__defineGetter__"; "__defineSetter__"; "hasOwnProperty";
   "__lookupGetter__"; "__lookupSetter__"; "isPrototypeOf";
   "propertyIsEnumerable"; "toString"; "valueOf"; "__proto__";
   "toLocaleString"]%string.

Definition inherited (name : string) : bool :=
  bool_decide (name ∈ inheritedNames).

(** What [pilots[name]] reads: the object's own property; or the one it
    inherits, a function (for [__proto__], the prototype itself); or
    [undefined]. *)
Inductive Property : Type :=
| Own (record : BestLapRecord)
| Inherited
| Undefined.

Definition getPilot (name : string) (table : gmap string BestLapRecord)
    : Property :=
  match table !! name with
  | Some record => Own record
  | None => if inherited name then Inherited else Undefined
  end.

(** [!existingRecord || bestLapTime < existingRecord.bestLapTime]: an
    inherited property is truthy and has no [bestLapTime], and no number
    is below [undefined]. *)
Definition shouldUpdate (existingRecord : Property) (lapTime : Z) : bool :=
  match existingRecord with
  | Undefined => true
  | Own existing => lapTime <? bestLapTime existing
  | Inherited => false
  end.

Definition newRecord (data : Types.RawSimulatorData) (lapTime stamp : Z)
    : BestLapRecord :=
  {| pilotName := Types.pilot_name data;
     bestLapTime := lapTime;
     car := Types.car data;
     track := Types.track data;
     timestamp := stamp;
     simNum := Types.simNum data |}.

(** [eventData.pilots[pilotName] = record] *)
Definition setPilot (name : string) (record : BestLapRecord) (e : EventData)
    : EventData :=
  {| eventName := eventName e; createdAt := createdAt e;
     lastUpdated := lastUpdated e;
     pilots := <[name := record]> (pilots e) |}.

(** [eventData.lastUpdated = stamp] *)
Definition setLastUpdated (stamp : Z) (e : EventData) : EventData :=
  {| eventName := eventName e; createdAt := createdAt e;
     lastUpdated := stamp; pilots := pilots e |}.

Definition processBestLap (data : Types.RawSimulatorData) : M State unit :=
  let eventName := eventNameOf data in
  let bestLapTime := candidate data in
  match bestLapTime with
  | None => ret tt
  | Some lapTime =>
      if negb (truthy bestLapTime) || (lapTime <=? 0) then ret tt
      else
        let pilotKey := pilotKeyOf data in
        let! now := Date_now in
        let! lastProcessed := gets (fun s => lastProcessedLap s !! pilotKey) in
        if throttles now lastProcessed data then ret tt
        else
          modify (set_lastProcessedLap
                    (<[pilotKey := {| LastProcessed.lap := lapTime;
                                      LastProcessed.timestamp := now |}]>)) ;;
          let! eventData := loadEventData eventName in
          let! eventData :=
            if falsy eventData then
              let! created := Date_now in
              let! updated := Date_now in
              ret (Table (newEvent eventName created updated))
            else ret eventData in
          let pilotName := Types.pilot_name data in
          let! eventData := pilotsOf eventData in
          let existingRecord := getPilot pilotName (pilots eventData) in
          if shouldUpdate existingRecord lapTime then
            let! stamp := Date_now in
            let eventData := setPilot pilotName (newRecord data lapTime stamp) eventData in
            let! updated := Date_now in
            let eventData := setLastUpdated updated eventData in
            saveEventData eventName eventData
          else ret tt
  end.

(** [invalidateCache(eventName?)]: the branch is on the truthiness of the
    argument, so the empty string clears the whole cache as no argument
    does. *)
Definition invalidateCache (eventName : option string) : M State unit :=
  match eventName with
  | Some name =>
      if String.eqb name "" then cache_clear else cache_delete name
  | None => cache_clear
  end.

Definition reloadEventData (eventName : string) : M State unit :=
  invalidateCache (Some eventName) ;;
  loadEventData eventName ;;
  ret tt.

(** ** The event loop's timers *)

(** The timer under [handle] fires if the loop holds it and it is due:
    the loop drops it and runs its callback. *)
Definition fire (handle : nat) (s : State) : State :=
  match timers s !! handle with
  | Some t =>
      if due t <=? clock s
      then exec (writeCallback (filename t) (forEvent t) (payload t))
                (set_timers (delete handle) s)
      else s
  | None => s
  end.

Fixpoint fireAll (handles : list nat) (s : State) : State :=
  match handles with
  | [] => s
  | handle :: rest => fireAll rest (fire handle s)
  end.

(** Timers fire by due instant, and in the order they were set among
    those due at the same instant. *)
Definition firesBefore (a b : nat * Timeout) : Prop :=
  due (snd a) < due (snd b) \/ (due (snd a) = due (snd b) /\ (fst a <= fst b)%nat).

Definition firingOrder (held : gmap nat Timeout) : list nat :=
  fst <$> merge_sort firesBefore (map_to_list held).

(** The clock reaches [now] and every timer due by then fires. *)
Definition advance (now : Z) (s : State) : State :=
  fireAll (firingOrder (timers s)) (set_clock (fun _ => now) s).

(** ** Views used to state properties *)

(** What [JSON.parse] makes of a text, when it does not throw. *)
Definition parsed (content : FileContent) : option Value :=
  match content with
  | Malformed => None
  | Document data => Some (Table data)
  | Foreign stray => Some (Other stray)
  end.

(** What the disk holds for an event. *)
Definition onDisk (eventName : string) (s : State) : option Value :=
  files s !! sanitizeEventName eventName ≫= parsed.

(** The value [loadEventData] would return for [eventName]. *)
Definition loaded (eventName : string) (s : State) : Value :=
  match eventCache s !! eventName with
  | Some data => data
  | None => unwrap (onDisk eventName s)
  end.

(** The table [loadEventData] would return for [eventName], when it is
    one. *)
Definition tableOf (eventName : string) (s : State) : option EventData :=
  match loaded eventName s with
  | Table data => Some data
  | Other _ => None
  end.

(** What is loaded for the event is a table or falsy: [processBestLap]
    finds pilots to look among. *)
Definition usable (eventName : string) (s : State) : Prop :=
  forall name, loaded eventName s <> Other (Pilotless name).

(** The record stored for a pilot of an event. *)
Definition recordOf (eventName pilot : string) (s : State)
    : option BestLapRecord :=
  tableOf eventName s ≫= fun data => pilots data !! pilot.

(** The call gets past the candidate check and the throttle, to the
    improvement decision. *)
Definition evaluates (data : Types.RawSimulatorData) (s : State) : bool :=
  match candidate data with
  | None => false
  | Some lapTime =>
      negb (negb (truthy (candidate data)) || (lapTime <=? 0))
      && negb (throttles (clock s) (lastProcessedLap s !! pilotKeyOf data) data)
  end.

(** The timer [saveEventData] sets in state [s]. *)
Definition scheduled (eventName : string) (data : EventData) (s : State)
    : Timeout :=
  {| due := clock s + WRITE_DEBOUNCE_MS;
     filename := sanitizeEventName eventName;
     forEvent := eventName; payload := data |}.

(** The table a call of [processBestLap] at instant [now] works on: the
    one [loadEventData] returns, or a new one. *)
Definition consulted (eventName : string) (s : State) : EventData :=
  default (newEvent eventName (clock s) (clock s)) (tableOf eventName s).

(** What the lookup of the pilot's record reads in the table the call
    works on. *)
Definition existing (eventName pilot : string) (s : State) : Property :=
  getPilot pilot (pilots (consulted eventName s)).

(** The [TypeError] of a call that finds no [pilots]. *)
Definition noPilots : Exn := Error "Cannot read properties of undefined".

(** The value is truthy and has no [pilots]. *)
Definition pilotless (eventData : Value) : bool :=
  match eventData with
  | Other (Pilotless _) => true
  | _ => false
  end.

(** The table after [data] was accepted with [lapTime] at instant [now]. *)
Definition improved (data : Types.RawSimulatorData) (lapTime now : Z)
    (table : EventData) : EventData :=
  setLastUpdated now
    (setPilot (Types.pilot_name data) (newRecord data lapTime now) table).

(** The ledger entry written by a call that passes the throttle. *)
Definition ledgered (data : Types.RawSimulatorData) (lapTime : Z) (s : State)
    : State :=
  set_lastProcessedLap
    (<[pilotKeyOf data := {| LastProcessed.lap := lapTime;
                             LastProcessed.timestamp := clock s |}]>) s.

(** The improvement condition as the specification words it: no record
    yet, or a candidate strictly below the recorded best. *)
Definition improves (existing : option BestLapRecord) (lapTime : Z) : Prop :=
  existing = None
  \/ exists record, existing = Some record /\ lapTime < bestLapTime record.

(** Every timer the loop holds for file [f] is the one [pendingWrites]
    has for [f]. *)
Definition soleTimer (f : string) (s : State) : Prop :=
  forall handle t,
    timers s !! handle = Some t -> filename t = f ->
    pendingWrites s !! f = Some handle.

(** A write of [data] to file [f] is pending, due one quiet period after
    the instant of [s], and it is the only timer held for [f]. *)
Definition armedWith (f : string) (data : EventData) (s : State) : Prop :=
  soleTimer f s
  /\ exists handle t,
       pendingWrites s !! f = Some handle
       /\ timers s !! handle = Some t
       /\ filename t = f /\ payload t = data
       /\ due t = clock s + WRITE_DEBOUNCE_MS.

(** What the callback of a timer for [data] does to state [s]. *)
Definition writtenBack (f : string) (data : EventData) (s : State) : State :=
  let s1 := set_written (fun w => <[f := w !!! f ++ [Table data]]> w) s in
  if bool_decide (f ∈ unwritable s) then s1
  else set_pendingWrites (delete f) (set_files (<[f := Document data]>) s1).

(** Updates of one event, each with the instant it arrives at: the
    clock reaches that instant, the timers due by then fire, and the
    table is handed to [saveEventData]. *)
Fixpoint burst (eventName : string) (updates : list (Z * EventData))
    (s : State) : State :=
  match updates with
  | [] => s
  | (now, data) :: rest =>
      burst eventName rest (exec (saveEventData eventName data) (advance now s))
  end.

(** Each update arrives less than the quiet period after the one before
    it, the first one after instant [previous]. *)
Fixpoint spaced (previous : Z) (updates : list (Z * EventData)) : Prop :=
  match updates with
  | [] => True
  | (now, _) :: rest =>
      previous <= now < previous + WRITE_DEBOUNCE_MS /\ spaced now rest
  end.

Fixpoint lastInstant (previous : Z) (updates : list (Z * EventData)) : Z :=
  match updates with
  | [] => previous
  | (now, _) :: rest => lastInstant now rest
  end.

Fixpoint lastData (previous : EventData) (updates : list (Z * EventData))
    : EventData :=
  match updates with
  | [] => previous
  | (_, data) :: rest => lastData data rest
  end.

(** Calls of [processBestLap], each with the instant it is made at:
    the clock reaches that instant, the timers due by then fire, and the
    sample is processed. *)
Fixpoint replay (calls : list (Z * Types.RawSimulatorData)) (s : State)
    : State :=
  match calls with
  | [] => s
  | (now, data) :: rest =>
      replay rest (exec (processBestLap data) (advance now s))
  end.

(** The record a call offers, as the specification has it: the name of
    the pilot, the candidate lap value, the car, the track and the
    simulator of the sample, and the instant of the call; none when the
    candidate is absent or not positive. *)
Definition offer (call : Z * Types.RawSimulatorData) : option BestLapRecord :=
  match wordedCandidate (snd call) with
  | Some lap =>
      if decide (0 < lap)
      then Some {| pilotName := Types.pilot_name (snd call);
                   bestLapTime := lap;
                   car := Types.car (snd call);
                   track := Types.track (snd call);
                   timestamp := fst call;
                   simNum := Types.simNum (snd call) |}
      else None
  | None => None
  end.

(** The records offered by a sequence of calls, in order. *)
Definition offers (calls : list (Z * Types.RawSimulatorData))
    : list BestLapRecord :=
  omap offer calls.

(** The records offered by those calls of [replay] that reach the
    improvement decision, in order. *)
Fixpoint accepted (calls : list (Z * Types.RawSimulatorData)) (s : State)
    : list BestLapRecord :=
  match calls with
  | [] => []
  | (now, data) :: rest =>
      let s0 := advance now s in
      (if evaluates data s0 then option_list (offer (now, data)) else [])
      ++ accepted rest (exec (processBestLap data) s0)
  end.






(** What happens to the tracker: time passes, a sample is processed, the
    cache is invalidated or an event reloaded, an event is read. *)
Inductive Happening : Type :=
| Tick (now : Z)
| Sample (data : Types.RawSimulatorData)
| Invalidate (eventName : option string)
| Reload (eventName : string)
| Read (eventName : string).

Definition happen (h : Happening) (s : State) : State :=
  match h with
  | Tick now => advance now s
  | Sample data => exec (processBestLap data) s
  | Invalidate eventName => exec (invalidateCache eventName) s
  | Reload eventName => exec (reloadEventData eventName) s
  | Read eventName => exec (loadEventData eventName) s
  end.

(** The state after a history, oldest happening first. *)
Definition after (history : list Happening) (s : State) : State :=
  foldl (fun s h => happen h s) s history.

Definition initial (now : Z) : State :=
  {| eventCache := ∅; pendingWrites := ∅; lastProcessedLap := ∅;
     clock := now; timers := ∅; nextTimer := 0; files := ∅;
     unwritable := ∅; accesses := []; written := ∅ |}.

(** ** The other functions of the module *)

(** A [for ... of] loop whose body may throw. *)
Fixpoint forOf {A} (body : A -> M State unit) (items : list A) : M State unit :=
  match items with
  | [] => ret tt
  | item :: rest => body item ;; forOf body rest
  end.

(** [(await fs.readdir(DATA_DIR)).filter((f) => f.endsWith(".json"))],
    by the names without the suffix, in the order the platform lists
    them. A file name is taken to hold [.json] as its suffix only, so
    that [f.replace(".json", "")] is the name without the suffix. *)
Definition fs_readdir : M State (list string) :=
  gets (fun s => (map_to_list (files s)).*1).

Definition listEvents : M State (list string) :=
  ensureDataDirectory ;;
  try_catch fs_readdir (fun _ => ret []).

Definition getEventData (eventName : string) : M State Value :=
  loadEventData eventName.

(** The write [flushPendingWrites] starts for one cache entry, with its
    own [.catch]. *)
Definition flushEntry (entry : string * Value) : M State unit :=
  let filename := sanitizeEventName (fst entry) in
  try_catch (fs_writeFile filename (snd entry)) (fun _ => ret tt).

(** [flushPendingWrites]. The writes run concurrently; here they land in
    the order of the entries, which decides the content of a file only
    when two cached names share it. *)
Definition flushPendingWrites : M State unit :=
  let! pending := gets (fun s => map_to_list (pendingWrites s)) in
  forOf (fun entry => clearTimeout (snd entry)) pending ;;
  let! cached := gets (fun s => map_to_list (eventCache s)) in
  forOf flushEntry cached ;;
  modify (set_pendingWrites (fun _ => ∅)).

(** [data.eventName] of a parsed value: a [TypeError] on [null], and
    [undefined], which is falsy as the empty string is, where the value
    has no such property. *)
Definition declaredName (data : Value) : M State string :=
  match data with
  | Table table => ret (eventName table)
  | Other (Pilotless declared) => ret declared
  | Other Falsy => ret ""%string
  | Other Null => throw (Error "Cannot read properties of null")
  end.

(** The name a parsed value declares, where reading it does not throw. *)
Definition declares (data : Value) : option string :=
  match data with
  | Table table => Some (eventName table)
  | Other (Pilotless name) => Some name
  | Other Falsy => Some ""%string
  | Other Null => None
  end.

(** The text parses to a value whose [eventName] can be read. *)
Definition readable (content : FileContent) : Prop :=
  content <> Malformed /\ content <> Foreign Null.

(** The body of the loop of [reloadAllEvents] over the listed files. *)
Definition reloadFile (file : string) : M State unit :=
  let! content := fs_readFile file in
  let! data := JSON_parse content in
  let! declared := declaredName data in
  if String.eqb declared "" then ret tt
  else cache_set declared data.

Definition reloadAllEvents : M State unit :=
  invalidateCache None ;;
  try_catch
    (let! jsonFiles := fs_readdir in
     forOf reloadFile jsonFiles)
    (fun _ => ret tt).

(** The ["change"] listener of the file watcher, for the file
    [filename] of the data directory (name without the suffix). *)
Definition onChange (filename : string) : M State unit :=
  try_catch
    (let! content := fs_readFile filename in
     let! data := JSON_parse content in
     let! declared := declaredName data in
     let name := if String.eqb declared "" then filename else declared in
     invalidateCache (Some name) ;;
     try_catch (cache_set name data) (fun _ => ret tt))
    (fun _ => ret tt).

(** The loop of the ["unlink"] listener: the first cached name whose
    derived file name is the removed one is invalidated, and the loop
    breaks. *)
Fixpoint evictFirst (inferredName : string) (names : list string)
    : M State unit :=
  match names with
  | [] => ret tt
  | name :: rest =>
      if String.eqb (sanitizeEventName name) inferredName
      then invalidateCache (Some name)
      else evictFirst inferredName rest
  end.

Definition onUnlink (filename : string) : M State unit :=
  let! names := gets (fun s => (map_to_list (eventCache s)).*1) in
  evictFirst filename names.

(** ** The environment: files edited or removed from outside *)

Definition externalEdit (filename : string) (content : FileContent)
    (s : State) : State :=
  set_files (<[filename := content]>) s.

Definition externalRemove (filename : string) (s : State) : State :=
  set_files (delete filename) s.

(** ** More views *)

(** The timers left when those registered in [pending] are cleared. *)
Definition cleared (pending : list (string * nat)) (held : gmap nat Timeout)
    : gmap nat Timeout :=
  foldl (fun held entry => delete (snd entry) held) held pending.

(** What the write of one cache entry by [flushPendingWrites] does. *)
Definition flushed (entry : string * Value) (s : State) : State :=
  let f := sanitizeEventName (fst entry) in
  let s1 := set_written (fun w => <[f := w !!! f ++ [snd entry]]> w) s in
  if bool_decide (f ∈ unwritable s) then s1
  else set_files (<[f := JSON_stringify (snd entry)]>) s1.

(** Every timer the loop holds is the one [pendingWrites] has for its
    file. *)
Definition timersRegistered (s : State) : Prop :=
  forall f, soleTimer f s.

(** Every lap in the throttle ledger is positive. *)
Definition ledgerPositive (s : State) : Prop :=
  forall key last,
    lastProcessedLap s !! key = Some last -> 0 < LastProcessed.lap last.

(** ** Everything that can happen to the store *)

(** What happens to the tracker and to its data directory: a happening
    as above, a flush, a reload of all events, a notification of the
    file watcher, or a file edited or removed from outside. *)
Inductive Occurrence : Type :=
| Happens (h : Happening)
| Flush
| ReloadAll
| Changed (filename : string)
| Unlinked (filename : string)
| Edit (filename : string) (content : FileContent)
| Remove (filename : string).

Definition occur (o : Occurrence) (s : State) : State :=
  match o with
  | Happens h => happen h s
  | Flush => exec flushPendingWrites s
  | ReloadAll => exec reloadAllEvents s
  | Changed filename => exec (onChange filename) s
  | Unlinked filename => exec (onUnlink filename) s
  | Edit filename content => externalEdit filename content s
  | Remove filename => externalRemove filename s
  end.

(** The state after a course of occurrences, oldest first. *)
Definition course (os : list Occurrence) (s : State) : State :=
  foldl (fun s o => occur o s) s os.

(** Every record of the table is stored under the name of its pilot and
    has a positive lap time. *)
Definition wellKeyed (d : EventData) : Prop :=
  forall p r, pilots d !! p = Some r -> pilotName r = p /\ 0 < bestLapTime r.

(** An edit from outside that leaves a table leaves a well-keyed one. *)
Definition benign (o : Occurrence) : Prop :=
  match o with
  | Edit _ (Document d) => wellKeyed d
  | _ => True
  end.

(** Every table in the cache, on disk or carried by a timer is
    well keyed. *)
Definition consistent (s : State) : Prop :=
  (forall e d, eventCache s !! e = Some (Table d) -> wellKeyed d)
  /\ (forall f d, files s !! f = Some (Document d) -> wellKeyed d)
  /\ (forall h t, timers s !! h = Some t -> wellKeyed (payload t)).

End Tracker.

(* ===================================================================== *)
(** * [logger.ts]                                                         *)
(* ===================================================================== *)

Module Logger.

Inductive Level : Type := debug | info | warn | error.

(** [levels.indexOf(level)] for [levels = ["debug", "info", "warn", "error"]] *)
Definition indexOf (level : Level) : nat :=
  match level with debug => 0 | info => 1 | warn => 2 | error => 3 end.

Definition shouldLog (logLevel level : Level) : bool :=
  Nat.leb (indexOf logLevel) (indexOf level).

(** A line of console output: level, message and the rendered [data]. *)
Record LogEvent : Type := {
  level : Level;
  message : string;
  data : option string
}.

(** [log(level, message, data)] on the console written so far. *)
Definition log (logLevel level : Level) (message : string)
    (data : option string) (console : list LogEvent) : list LogEvent :=
  if shouldLog logLevel level
  then console ++ [{| level := level; message := message; data := data |}]
  else console.

(** ** The logger object *)

Definition maxHistorySize : nat := 1000.

(** A [Logger]: its level and [history], with the console it has written
    to. *)
Record t : Type := {
  configured : Level;
  history : list LogEvent;
  output : list LogEvent
}.

(** [new Logger(logLevel)] *)
Definition create (logLevel : Level) : t :=
  {| configured := logLevel; history := []; output := [] |}.

(** [this.history.push(event)] and the [shift] that follows when the
    history has grown past [maxHistorySize]. *)
Definition push (event : LogEvent) (history : list LogEvent) : list LogEvent :=
  let history := history ++ [event] in
  if Nat.ltb maxHistorySize (length history) then tail history else history.

(** The private method [log] on the object. *)
Definition write (event : LogEvent) (logger : t) : t :=
  if shouldLog (configured logger) (level event) then
    {| configured := configured logger;
       history := push event (history logger);
       output := log (configured logger) (level event) (message event)
                     (data event) (output logger) |}
  else logger.

Definition getHistory (logger : t) : list LogEvent := history logger.

Definition clearHistory (logger : t) : t :=
  {| configured := configured logger; history := [];
     output := output logger |}.

(** The logger after a series of calls of [log]. *)
Definition writes (events : list LogEvent) (logger : t) : t :=
  foldl (fun logger event => write event logger) logger events.

End Logger.

(* ===================================================================== *)
(** * [connection-manager.ts]                                             *)
(* ===================================================================== *)

Module Manager.
Import Effect Effect.Notations.

(** The text [JSON.stringify] gives for an [OutputMessage], identified by
    the message it renders. *)
Inductive Text : Type := Stringified (message : Types.OutputMessage).

Definition JSON_stringify (message : Types.OutputMessage) : Text :=
  Stringified message.

(** A [ws] socket: its [readyState], the texts handed to the transport by
    [send] calls that returned ([outbox]), and whether [send] throws, with
    the message of the error it throws. *)
Record WebSocket : Type := {
  readyState : Types.ReadyState;
  outbox : list Text;
  sendThrows : option string
}.

Inductive ClientType : Type := input | output.

(** [interface Client] *)
Record Client : Type := {
  id : string;
  ws : WebSocket;
  type : ClientType;
  connectedAt : Z;
  simulatorId : option Z;
  lastActivity : option Z
}.

(** [interface ServerStats] *)
Record ServerStats : Type := {
  inputClients : nat;
  outputClients : nat;
  totalMessages : Z;
  uptime : Z;
  activeSimulators : list Z
}.

(** The fields of a [ConnectionManager], the entries of [clients] in
    insertion order, with the wall clock and the logger's level and
    console. *)
Record State : Type := {
  clients : list Client;
  startTime : Z;
  messageCount : Z;
  clock : Z;
  logLevel : Logger.Level;
  console : list Logger.LogEvent
}.

Definition set_clients (f : list Client -> list Client) (s : State) : State :=
  {| clients := f (clients s); startTime := startTime s;
     messageCount := messageCount s; clock := clock s;
     logLevel := logLevel s; console := console s |}.

Definition set_messageCount (f : Z -> Z) (s : State) : State :=
  {| clients := clients s; startTime := startTime s;
     messageCount := f (messageCount s); clock := clock s;
     logLevel := logLevel s; console := console s |}.

Definition set_console
    (f : list Logger.LogEvent -> list Logger.LogEvent) (s : State) : State :=
  {| clients := clients s; startTime := startTime s;
     messageCount := messageCount s; clock := clock s;
     logLevel := logLevel s; console := f (console s) |}.

Definition Date_now : M State Z := gets clock.

Definition logger_log (level : Logger.Level) (message : string)
    (data : option string) : M State unit :=
  let! configured := gets logLevel in
  modify (set_console (Logger.log configured level message data)).

Definition isOpen (state : Types.ReadyState) : bool :=
  match state with Types.OPEN => true | _ => false end.

Definition isOutput (type : ClientType) : bool :=
  match type with output => true | input => false end.

Definition isInput (type : ClientType) : bool :=
  match type with input => true | output => false end.

(** [socket.send(text)]: throws, or hands the text to the transport. *)
Definition send (text : Text) (socket : WebSocket) : M State WebSocket :=
  match sendThrows socket with
  | Some reason => throw (Error reason)
  | None =>
      ret {| readyState := readyState socket;
             outbox := outbox socket ++ [text];
             sendThrows := None |}
  end.

Definition withSocket (socket : WebSocket) (client : Client) : Client :=
  {| id := id client; ws := socket; type := type client;
     connectedAt := connectedAt client; simulatorId := simulatorId client;
     lastActivity := lastActivity client |}.

Definition withLastActivity (now : Z) (client : Client) : Client :=
  {| id := id client; ws := ws client; type := type client;
     connectedAt := connectedAt client; simulatorId := simulatorId client;
     lastActivity := Some now |}.

(** [this.clients.forEach(callback)] for a callback that updates the
    client it is given and a local variable of the caller: the entries
    are visited in insertion order, and what the callback did to an entry
    is in the map when the next one is visited. [count] entries are
    visited from index [i] on. *)
Fixpoint forEachFrom {A} (i count : nat)
    (callback : A -> Client -> M State (A * Client)) (local : A)
    : M State A :=
  match count with
  | O => ret local
  | S remaining =>
      let! entry := gets (fun s => clients s !! i) in
      let! local :=
        match entry with
        | Some client =>
            let! result := callback local client in
            modify (set_clients (<[i := snd result]>)) ;;
            ret (fst result)
        | None => ret local
        end in
      forEachFrom (S i) remaining callback local
  end.

Definition forEach {A} (callback : A -> Client -> M State (A * Client))
    (local : A) : M State A :=
  let! size := gets (fun s => length (clients s)) in
  forEachFrom 0 size callback local.

(** The callback of [broadcastToOutputs], with [sentCount] as the local
    variable it updates. *)
Definition sendTo (messageStr : Text) (sentCount : nat) (client : Client)
    : M State (nat * Client) :=
  if isOutput (type client) && isOpen (readyState (ws client)) then
    try_catch
      (let! socket := send messageStr (ws client) in
       let client := withSocket socket client in
       let! now := Date_now in
       let client := withLastActivity now client in
       ret (S sentCount, client))
      (fun error =>
         logger_log Logger.error
           ("Erro ao enviar para cliente " +:+ id client)
           (Some (message error)) ;;
         ret (sentCount, client))
  else ret (sentCount, client).

Definition broadcastToOutputs (data : Types.RawSimulatorData) : M State unit :=
  let! now := Date_now in
  let message :=
    {| Types.type := "simulator-update";
       Types.data := data;
       Types.timestamp := now |} in
  let messageStr := JSON_stringify message in
  let! sentCount := forEach (sendTo messageStr) 0%nat in
  modify (set_messageCount (fun n => n + 1)) ;;
  logger_log Logger.debug
    ("Dados do simulador " +:+ pretty (Types.simNum data)
     +:+ " enviados para " +:+ pretty sentCount +:+ " cliente(s) OUTPUT")
    None.

(** [Array.from(new Set(values))]: the values in order of first
    occurrence. *)
Definition distinct (values : list Z) : list Z :=
  foldl (fun seen v => if bool_decide (v ∈ seen) then seen else seen ++ [v])
        [] values.

Definition getStats : M State ServerStats :=
  let! all := gets clients in
  let inputs := filter (fun c => isInput (type c) = true) all in
  let outputs := filter (fun c => isOutput (type c) = true) all in
  let! now := Date_now in
  let! started := gets startTime in
  let! count := gets messageCount in
  ret {| inputClients := length inputs;
         outputClients := length outputs;
         totalMessages := count;
         uptime := (now - started) / 1000;
         activeSimulators := distinct (omap simulatorId inputs) |}.

(** ** Views used to state properties *)

(** The clients [broadcastToOutputs] sends to. *)
Definition eligible (client : Client) : bool :=
  isOutput (type client) && isOpen (readyState (ws client)).

(** What a broadcast of [text] at instant [now] makes of a client. *)
Definition delivered (text : Text) (now : Z) (client : Client) : Client :=
  withLastActivity now
    (withSocket {| readyState := readyState (ws client);
                   outbox := outbox (ws client) ++ [text];
                   sendThrows := None |} client).

Definition sendError (client : Client) (reason : string) : Logger.LogEvent :=
  {| Logger.level := Logger.error;
     Logger.message := "Erro ao enviar para cliente " +:+ id client;
     Logger.data := Some reason |}.

(** What [broadcastToOutputs] makes of one client. *)
Definition served (text : Text) (now : Z) (client : Client) : Client :=
  if eligible client then
    match sendThrows (ws client) with
    | None => delivered text now client
    | Some _ => client
    end
  else client.

(** The errors logged for the clients whose [send] throws, in order. *)
Fixpoint failures (all : list Client) : list Logger.LogEvent :=
  match all with
  | [] => []
  | client :: rest =>
      if eligible client then
        match sendThrows (ws client) with
        | Some reason => sendError client reason :: failures rest
        | None => failures rest
        end
      else failures rest
  end.

(** The number of clients whose [send] returns. *)
Fixpoint reached (all : list Client) : nat :=
  match all with
  | [] => 0
  | client :: rest =>
      if eligible client then
        match sendThrows (ws client) with
        | None => S (reached rest)
        | Some _ => reached rest
        end
      else reached rest
  end.

(** The message of a broadcast of [data] at instant [now]. *)
Definition payloadOf (data : Types.RawSimulatorData) (now : Z) : Text :=
  JSON_stringify {| Types.type := "simulator-update";
                    Types.data := data;
                    Types.timestamp := now |}.

Definition summary (data : Types.RawSimulatorData) (sentCount : nat) : string :=
  "Dados do simulador " +:+ pretty (Types.simNum data)
  +:+ " enviados para " +:+ pretty sentCount +:+ " cliente(s) OUTPUT".

(** ** The other methods of the class *)

(** [type.toUpperCase()] *)
Definition upper (type : ClientType) : string :=
  match type with input => "INPUT" | output => "OUTPUT" end.

(** [this.clients.get(key)], [.set(key, client)], [.delete(key)] on the
    entries in insertion order: [set] on a key that is there replaces the
    value where it stands. *)
Definition mapGet (key : string) (all : list Client) : option Client :=
  List.find (fun c => String.eqb (id c) key) all.

Fixpoint mapSet (client : Client) (all : list Client) : list Client :=
  match all with
  | [] => [client]
  | c :: rest =>
      if String.eqb (id c) (id client) then client :: rest
      else c :: mapSet client rest
  end.

Definition mapDelete (key : string) (all : list Client) : list Client :=
  filter (fun c => id c <> key) all.

(** [addClient(ws, type)], with the identifier [randomUUID()] gives.
    The two listeners it installs on the socket are [onClose] and
    [onError] below. *)
Definition addClient (socket : WebSocket) (type : ClientType)
    (uuid : string) : M State string :=
  let! now := Date_now in
  let client :=
    {| id := uuid; ws := socket; type := type; connectedAt := now;
       simulatorId := None; lastActivity := Some now |} in
  modify (set_clients (mapSet client)) ;;
  logger_log Logger.info ("Cliente " +:+ upper type +:+ " conectado")
    (Some uuid) ;;
  ret uuid.

(** [removeClient(id)]. The socket is closed, any error of [close]
    swallowed, and leaves the map with its client. *)
Definition removeClient (key : string) : M State unit :=
  let! found := gets (fun s => mapGet key (clients s)) in
  match found with
  | None => ret tt
  | Some client =>
      logger_log Logger.info
        ("Cliente " +:+ upper (type client) +:+ " desconectado") (Some key) ;;
      modify (set_clients (mapDelete key))
  end.

Definition onClose (key : string) : M State unit := removeClient key.

Definition onError (key reason : string) : M State unit :=
  logger_log Logger.error ("Erro no cliente " +:+ key) (Some reason) ;;
  removeClient key.

Definition withSimulatorId (simulator : Z) (client : Client) : Client :=
  {| id := id client; ws := ws client; type := type client;
     connectedAt := connectedAt client; simulatorId := Some simulator;
     lastActivity := lastActivity client |}.

Definition setSimulatorId (clientId : string) (simulator : Z) : M State unit :=
  let! found := gets (fun s => mapGet clientId (clients s)) in
  match found with
  | Some client =>
      if isInput (type client) then
        modify (set_clients (mapSet (withSimulatorId simulator client))) ;;
        logger_log Logger.debug
          ("Cliente " +:+ clientId +:+ " associado ao simulador "
           +:+ pretty simulator) None
      else ret tt
  | None => ret tt
  end.

Definition getClient (key : string) : M State (option Client) :=
  gets (fun s => mapGet key (clients s)).

Definition getAllClients : M State (list Client) := gets clients.

Definition disconnectAll : M State unit :=
  logger_log Logger.info "Desconectando todos os clientes" None ;;
  modify (set_clients (fun _ => [])).

(** ** More views *)

(** No two entries of the map have the same key. *)
Definition uniqueIds (s : State) : Prop := NoDup (id <$> clients s).

Definition set_clock (f : Z -> Z) (s : State) : State :=
  {| clients := clients s; startTime := startTime s;
     messageCount := messageCount s; clock := f (clock s);
     logLevel := logLevel s; console := console s |}.

(** The state after a series of broadcasts, each with the instant it is
    made at. *)
Definition broadcasts (series : list (Z * Types.RawSimulatorData))
    (s : State) : State :=
  foldl (fun s call => exec (broadcastToOutputs (snd call))
                            (set_clock (fun _ => fst call) s))
        s series.

(** What happens to a manager. *)
Inductive Step : Type :=
| Connect (socket : WebSocket) (type : ClientType) (uuid : string)
| Close (key : string)
| Fail (key reason : string)
| Associate (clientId : string) (simulator : Z)
| Broadcast (data : Types.RawSimulatorData)
| DisconnectAll
| Elapse (now : Z).

Definition step (st : Step) (s : State) : State :=
  match st with
  | Connect socket type uuid => exec (addClient socket type uuid) s
  | Close key => exec (onClose key) s
  | Fail key reason => exec (onError key reason) s
  | Associate clientId simulator => exec (setSimulatorId clientId simulator) s
  | Broadcast data => exec (broadcastToOutputs data) s
  | DisconnectAll => exec disconnectAll s
  | Elapse now => set_clock (fun _ => now) s
  end.

Definition isBroadcast (st : Step) : bool :=
  match st with Broadcast _ => true | _ => false end.

Definition run (steps : list Step) (s : State) : State :=
  foldl (fun s st => step st s) s steps.

(** A manager just constructed at instant [now]. *)
Definition fresh (now : Z) (logLevel : Logger.Level) : State :=
  {| clients := []; startTime := now; messageCount := 0; clock := now;
     logLevel := logLevel; console := [] |}.

End Manager.

(* ===================================================================== *)
(** * [server.ts]: messages of a producer connection                      *)
(* ===================================================================== *)

Module Server.
Import Effect Effect.Notations.

(** A value [JSON.parse] can return. *)
#[warnings="-register-all"]
Inductive json : Type :=
| JNull
| JBool (b : bool)
| JNumber (n : Z)
| JString (s : string)
| JArray (items : list json)
| JObject (members : list (string * json)).

(** The text of a received buffer: it is JSON for [value], or it is not
    JSON at all. *)
Inductive Incoming : Type :=
| NotJson
| JsonText (value : json).

(** What the handler does to the outside, in order: texts it hands to
    [ws.send], by the value they render, and calls to the connection
    manager and the tracker. *)
Inductive Call : Type :=
| ws_send (text : json)
| setSimulatorId (clientId : string) (simulatorId : json)
| processBestLap (data : json)
| broadcastToOutputs (data : json).

(** The producer's socket ([sendThrows]: the error [send] throws, if it
    does), the handler's [calls] so far, and the logger. *)
Record State : Type := {
  sendThrows : option string;
  calls : list Call;
  logLevel : Logger.Level;
  console : list Logger.LogEvent
}.

Definition set_calls (f : list Call -> list Call) (s : State) : State :=
  {| sendThrows := sendThrows s; calls := f (calls s);
     logLevel := logLevel s; console := console s |}.

Definition set_console
    (f : list Logger.LogEvent -> list Logger.LogEvent) (s : State) : State :=
  {| sendThrows := sendThrows s; calls := calls s;
     logLevel := logLevel s; console := f (console s) |}.

Definition call (c : Call) : M State unit :=
  modify (set_calls (fun done => done ++ [c])).

Definition logger_log (level : Logger.Level) (message : string)
    (data : option string) : M State unit :=
  let! configured := gets logLevel in
  modify (set_console (Logger.log configured level message data)).

(** [JSON.parse(data.toString())] *)
Definition JSON_parse (raw : Incoming) : M State json :=
  match raw with
  | JsonText value => ret value
  | NotJson => throw (Error "Unexpected token in JSON")
  end.

Fixpoint lookupMember (key : string) (members : list (string * json))
    : option json :=
  match members with
  | [] => None
  | (name, value) :: rest =>
      if String.eqb name key then Some value else lookupMember key rest
  end.

(** [value.key] for the keys the handler reads: a [TypeError] on [null],
    the member of an object, [undefined] ([None]) otherwise. *)
Definition member (key : string) (value : json) : M State (option json) :=
  match value with
  | JNull => throw (Error "Cannot read properties of null")
  | JObject members => ret (lookupMember key members)
  | _ => ret None
  end.

(** Truthiness of a value read from a message. *)
Definition truthy (value : option json) : bool :=
  match value with
  | None | Some JNull | Some (JBool false) => false
  | Some (JNumber n) => negb (n =? 0)
  | Some (JString s) => negb (String.eqb s "")
  | Some _ => true
  end.

(** [value !== "simulator-update"] *)
Definition notSimulatorUpdate (value : option json) : bool :=
  match value with
  | Some (JString s) => negb (String.eqb s "simulator-update")
  | _ => true
  end.

(** [typeof value === "string"], [typeof value === "number"] *)
Definition isString (value : option json) : bool :=
  match value with Some (JString _) => true | _ => false end.

Definition isNumber (value : option json) : bool :=
  match value with Some (JNumber _) => true | _ => false end.

(** [value >= lo && value <= hi] for a value that is a number. *)
Definition within (lo hi : Z) (value : option json) : bool :=
  match value with
  | Some (JNumber n) => (lo <=? n) && (n <=? hi)
  | _ => false
  end.

(** [validateSimulatorData(data)], called on a truthy [data]. *)
Definition validateSimulatorData (data : json) : M State bool :=
  let! simNum := member "simNum" data in
  let! pilotName := member "pilot-name" data in
  let! car := member "car" data in
  let! track := member "track" data in
  ret (isNumber simNum && within 1 3 simNum
       && isString pilotName && isString car && isString track).

Definition errorReply (reason : string) : json :=
  JObject [("type"%string, JString "error"); ("message"%string, JString reason)].

Definition formatError : string :=
  "Formato inválido. Esperado: {type: 'simulator-update', data: {...}}".

Definition dataError : string :=
  "Dados inválidos. Campos obrigatórios: simNum (1-3), pilot-name, car, track".

(** [ws.send(JSON.stringify(reply))] on the producer's socket. *)
Definition send (reply : json) : M State unit :=
  call (ws_send reply) ;;
  let! failure := gets sendThrows in
  match failure with
  | Some reason => throw (Error reason)
  | None => ret tt
  end.

(** The ["message"] listener [handleInputConnection] installs. *)
Definition onMessage (clientId : string) (raw : Incoming) : M State unit :=
  try_catch
    (logger_log Logger.debug "Mensagem recebida em /input" None ;;
     let! message := JSON_parse raw in
     let! type := member "type" message in
     let! data := if notSimulatorUpdate type then ret None
                  else member "data" message in
     if notSimulatorUpdate type || negb (truthy data) then
       logger_log Logger.warn "Mensagem inválida recebida em /input" None ;;
       send (errorReply formatError)
     else
       match data with
       | None => ret tt
       | Some data =>
           let! valid := validateSimulatorData data in
           if negb valid then
             logger_log Logger.warn "Dados de simulador inválidos" None ;;
             send (errorReply dataError)
           else
             let! simNum := member "simNum" data in
             call (setSimulatorId clientId (default JNull simNum)) ;;
             logger_log Logger.debug "Dados recebidos do simulador" None ;;
             call (processBestLap data) ;;
             call (broadcastToOutputs data)
       end)
    (fun error =>
       logger_log Logger.error "Erro ao processar mensagem INPUT"
         (Some (message error))).

(** ** Views used to state properties *)

(** A well-formed sample: the text is JSON, its [type] is
    ["simulator-update"], its [data] is there and passes
    [validateSimulatorData]. *)
Definition validData (data : json) : bool :=
  match data with
  | JObject members =>
      isNumber (lookupMember "simNum" members)
      && within 1 3 (lookupMember "simNum" members)
      && isString (lookupMember "pilot-name" members)
      && isString (lookupMember "car" members)
      && isString (lookupMember "track" members)
  | _ => false
  end.

Definition wellFormed (raw : Incoming) : bool :=
  match raw with
  | JsonText (JObject members) =>
      negb (notSimulatorUpdate (lookupMember "type" members))
      && match lookupMember "data" members with
         | Some data => validData data
         | None => false
         end
  | _ => false
  end.

(** The text parses to a value that has properties. *)
Definition readable (raw : Incoming) : bool :=
  match raw with
  | NotJson | JsonText JNull => false
  | JsonText _ => true
  end.

Definition isReply (c : Call) : bool :=
  match c with ws_send _ => true | _ => false end.

Definition fresh (logLevel : Logger.Level) : State :=
  {| sendThrows := None; calls := []; logLevel := logLevel; console := [] |}.

End Server.

(* ===================================================================== *)
(** * [server.ts]: the HTTP endpoints                                     *)
(* ===================================================================== *)

(** The handlers are modelled by the responses they write and by what
    they do to the tracker and the connection manager; their log lines
    are left out. *)

Module Http.
Import Effect Effect.Notations.

(** The body of a request as the ["end"] listener has it: the empty
    string, or a text that is or is not JSON. *)
Inductive Payload : Type :=
| Empty
| Text (raw : Server.Incoming).

(** [req.method], [parse(req.url).pathname] and the accumulated body. *)
Record Request : Type := {
  method : string;
  pathname : string;
  payload : Payload
}.

(** What [res.end] is given, by the shape of the object serialized. *)
Inductive Body : Type :=
| NoBody
| PlainText (text : string)
| Health
| Stats (stats : Manager.ServerStats)
| Events (events : list string)
| Table (data : Tracker.Value)
| Failure (error : string) (detail : option string)
| NotFound (error : string) (eventName : Server.json)
| Success (message : string) (eventName : option Server.json)
| Usage (error : string).

(** A response: the status given to [res.writeHead], whether the
    headers of [getHeaders] went with it, and the body. *)
Record Response : Type := {
  status : Z;
  headers : bool;
  body : Body
}.

(** The tracker module, the connection manager of the server, and the
    responses written so far. *)
Record State : Type := {
  tracker : Tracker.State;
  manager : Manager.State;
  responses : list Response
}.

Definition set_tracker (f : Tracker.State -> Tracker.State) (s : State)
    : State :=
  {| tracker := f (tracker s); manager := manager s;
     responses := responses s |}.

Definition set_manager (f : Manager.State -> Manager.State) (s : State)
    : State :=
  {| tracker := tracker s; manager := f (manager s);
     responses := responses s |}.

Definition set_responses (f : list Response -> list Response) (s : State)
    : State :=
  {| tracker := tracker s; manager := manager s;
     responses := f (responses s) |}.

(** A call into the tracker module, and one into the manager. *)
Definition inTracker {A} (m : M Tracker.State A) : M State A :=
  fun s =>
    let result := m (tracker s) in
    (fst result, set_tracker (fun _ => snd result) s).

Definition inManager {A} (m : M Manager.State A) : M State A :=
  fun s =>
    let result := m (manager s) in
    (fst result, set_manager (fun _ => snd result) s).

(** [res.writeHead(status, this.getHeaders()); res.end(body)] *)
Definition respond (status : Z) (body : Body) : M State unit :=
  modify (set_responses
            (fun sent => sent ++ [{| status := status; headers := true;
                                     body := body |}])).

(** [res.writeHead(404); res.end("Not Found")] *)
Definition respondBare (status : Z) (text : string) : M State unit :=
  modify (set_responses
            (fun sent => sent ++ [{| status := status; headers := false;
                                     body := PlainText text |}])).

(** [JSON.parse(body)] *)
Definition JSON_parse (body : Payload) : M State Server.json :=
  match body with
  | Empty => throw (Error "Unexpected end of JSON input")
  | Text Server.NotJson => throw (Error "Unexpected token in JSON")
  | Text (Server.JsonText value) => ret value
  end.

(** [const { eventName } = value]: a [TypeError] on [null], the member
    of an object, [undefined] otherwise. *)
Definition eventNameOf (value : Server.json) : M State (option Server.json) :=
  match value with
  | Server.JNull => throw (Error "Cannot destructure property of null")
  | Server.JObject members => ret (Server.lookupMember "eventName" members)
  | _ => ret None
  end.

(** A call [f(eventName)] of a tracker function that derives the file
    name of its argument: on a value that is no string, no cache entry
    matches and [toLowerCase] is not a function. *)
Definition withEventName {A} (f : string -> M Tracker.State A)
    (eventName : Server.json) : M State A :=
  match eventName with
  | Server.JString name => inTracker (f name)
  | _ => throw (Error "eventName.toLowerCase is not a function")
  end.

(** [handleEventsRequest] *)
Definition handleEventsRequest (req : Request) : M State unit :=
  if String.eqb (method req) "GET" then
    try_catch
      (let! events := inTracker Tracker.listEvents in
       respond 200 (Events events))
      (fun error =>
         respond 500 (Failure "Erro ao listar eventos" (Some (message error))))
  else if String.eqb (method req) "POST" then
    try_catch
      (let! parsed := JSON_parse (payload req) in
       let! eventName := eventNameOf parsed in
       match eventName with
       | None =>
           respond 400 (Failure "Campo 'eventName' é obrigatório" None)
       | Some name =>
           if negb (Server.truthy eventName) then
             respond 400 (Failure "Campo 'eventName' é obrigatório" None)
           else
             let! eventData := withEventName Tracker.getEventData name in
             if Tracker.falsy eventData
             then respond 404 (NotFound "Evento não encontrado" name)
             else respond 200 (Table eventData)
       end)
      (fun error =>
         respond 400 (Failure "JSON inválido ou erro ao processar"
                        (Some (message error))))
  else respond 405 (Failure "Método não permitido" None).

(** [`Evento '${eventName}' recarregado com sucesso`] *)
Definition reloadedMessage (eventName : Server.json) : string :=
  match eventName with
  | Server.JString name => "Evento '" +:+ name +:+ "' recarregado com sucesso"
  | _ => "Evento recarregado com sucesso"
  end.

(** [handleReloadRequest] *)
Definition handleReloadRequest (req : Request) : M State unit :=
  if String.eqb (method req) "POST" then
    try_catch
      (let! data := match payload req with
                    | Empty => ret (Server.JObject [])
                    | body => JSON_parse body
                    end in
       let! eventName := eventNameOf data in
       match eventName with
       | Some name =>
           if Server.truthy eventName then
             withEventName Tracker.reloadEventData name ;;
             respond 200 (Success (reloadedMessage name) (Some name))
           else
             inTracker Tracker.reloadAllEvents ;;
             respond 200 (Success "Todos os eventos recarregados com sucesso"
                            None)
       | None =>
           inTracker Tracker.reloadAllEvents ;;
           respond 200 (Success "Todos os eventos recarregados com sucesso"
                          None)
       end)
      (fun error =>
         respond 500 (Failure "Erro ao recarregar dados"
                        (Some (message error))))
  else respond 405 (Usage "Método não permitido. Use POST").

(** [handleHttpRequest] *)
Definition handleHttpRequest (req : Request) : M State unit :=
  if String.eqb (method req) "OPTIONS" then respond 200 NoBody
  else if String.eqb (pathname req) "/health" then respond 200 Health
  else if String.eqb (pathname req) "/stats" then
    let! stats := inManager Manager.getStats in
    respond 200 (Stats stats)
  else if String.eqb (pathname req) "/events" then handleEventsRequest req
  else if String.eqb (pathname req) "/reload" then handleReloadRequest req
  else respondBare 404 "Not Found".

(** [stop], up to the closing of the two servers: the pending data
    are flushed and then, also when the flush is rejected, all clients
    are disconnected. *)
Definition stop : M State unit :=
  try_catch
    (inTracker Tracker.flushPendingWrites ;;
     inManager Manager.disconnectAll)
    (fun _ => inManager Manager.disconnectAll).

(** ** Views used to state properties *)

(** The event name a request body asks for: the member [eventName] of
    the object the body parses to, when it is truthy. *)
Definition requested (body : Payload) : option Server.json :=
  match body with
  | Text (Server.JsonText (Server.JObject members)) =>
      match Server.lookupMember "eventName" members with
      | Some name =>
          if Server.truthy (Some name) then Some name else None
      | None => None
      end
  | _ => None
  end.

(** The body parses and can be destructured. *)
Definition destructurable (body : Payload) : bool :=
  match body with
  | Text (Server.JsonText Server.JNull) | Text Server.NotJson | Empty => false
  | Text (Server.JsonText _) => true
  end.

(** The body is empty, or parses and can be destructured. *)
Definition reloadsAll (body : Payload) : bool :=
  match body with
  | Empty => true
  | _ => destructurable body
  end.

Definition answer (status : Z) (body : Body) : Response :=
  {| status := status; headers := true; body := body |}.

(** A server that has answered nothing yet. *)
Definition serving (t : Tracker.State) (m : Manager.State) : State :=
  {| tracker := t; manager := m; responses := [] |}.

End Http.

(* ===================================================================== *)
(** * Sample data                                                         *)
(* ===================================================================== *)

Module Scenario.

(** Pilot Ana in event "Cup A". *)
Definition ana (bestLap bestTime : option Z) : Types.RawSimulatorData :=
  {| Types.simNum := 1;
     Types.pilot_name := "Ana";
     Types.car := "Ferrari 458";
     Types.track := "Interlagos";
     Types.bestLap := bestLap;
     Types.bestTime := bestTime;
     Types.event := Some "Cup A"%string |}.

(** The same pilot with another car. *)
Definition anaIn (car : string) (bestLap : option Z) : Types.RawSimulatorData :=
  {| Types.simNum := 2;
     Types.pilot_name := "Ana";
     Types.car := car;
     Types.track := "Interlagos";
     Types.bestLap := bestLap;
     Types.bestTime := None;
     Types.event := Some "Cup A"%string |}.

(** A lap of any pilot in any event. *)
Definition entry (event pilot : string) (lap : Z) : Types.RawSimulatorData :=
  {| Types.simNum := 3;
     Types.pilot_name := pilot;
     Types.car := "Porsche 911";
     Types.track := "Monza";
     Types.bestLap := Some lap;
     Types.bestTime := None;
     Types.event := Some event |}.

(** The state one second after a first sample was processed at instant
    1000 by a tracker that had seen nothing. *)
Definition afterFirst (data : Types.RawSimulatorData) : Tracker.State :=
  Tracker.advance 2000
    (Effect.exec (Tracker.processBestLap data) (Tracker.initial 1000)).

(** The table of "Cup A" with Ana's best lap, as updated at [stamp]. *)
Definition cupA (stamp lap : Z) : Tracker.EventData :=
  {| Tracker.eventName := "Cup A";
     Tracker.createdAt := 1000;
     Tracker.lastUpdated := stamp;
     Tracker.pilots :=
       {[ "Ana"%string :=
            {| Tracker.pilotName := "Ana"; Tracker.bestLapTime := lap;
               Tracker.car := "Ferrari 458"; Tracker.track := "Interlagos";
               Tracker.timestamp := stamp; Tracker.simNum := 1 |} ]} |}.

(** The tracker just after that table is saved at instant 1000. *)
Definition saved : Tracker.State :=
  Effect.exec (Tracker.saveEventData "Cup A" (cupA 1000 90000))
    (Tracker.initial 1000).

(** A tracker that has just started, over a data directory that holds
    that table in [cup-a.json]. *)
Definition stored : Tracker.State :=
  Tracker.externalEdit "cup-a" (Tracker.Document (cupA 1000 90000))
    (Tracker.initial 1000).

(** A tracker that has just started and cannot write [cup-a.json]. *)
Definition readOnly : Tracker.State :=
  {| Tracker.eventCache := ∅; Tracker.pendingWrites := ∅;
     Tracker.lastProcessedLap := ∅; Tracker.clock := 1000;
     Tracker.timers := ∅; Tracker.nextTimer := 0; Tracker.files := ∅;
     Tracker.unwritable := {[ "cup-a"%string ]}; Tracker.accesses := [];
     Tracker.written := ∅ |}.

(** Two more updates, 1.5 s and 3 s after a first one at instant 1000. *)
Definition twoMore : list (Z * Tracker.EventData) :=
  [(2500, cupA 2500 89000); (4000, cupA 4000 88000)].

(** Ana's afternoon: a first lap; the same value again half a second
    later and once more after the throttle window, from another car; an
    improvement; a slower lap. *)
Definition afternoon : list (Z * Types.RawSimulatorData) :=
  [(1000, anaIn "Ferrari 458" (Some 90000));
   (1500, anaIn "Porsche 911" (Some 90000));
   (7000, anaIn "Porsche 911" (Some 90000));
   (8000, anaIn "McLaren 720S" (Some 88000));
   (14000, anaIn "McLaren 720S" (Some 95000))].

End Scenario.

Module ScenarioClients.

Definition socket (state : Types.ReadyState) (failure : option string)
    : Manager.WebSocket :=
  {| Manager.readyState := state; Manager.outbox := [];
     Manager.sendThrows := failure |}.

Definition client (id : string) (type : Manager.ClientType)
    (state : Types.ReadyState) (failure : option string) : Manager.Client :=
  {| Manager.id := id; Manager.ws := socket state failure;
     Manager.type := type; Manager.connectedAt := 0;
     Manager.simulatorId := None; Manager.lastActivity := None |}.

(** A producer, a display whose [send] throws, a display that is
    closing, and two healthy displays. *)
Definition room : Manager.State :=
  {| Manager.clients :=
       [client "sim-1" Manager.input Types.OPEN None;
        client "display-1" Manager.output Types.OPEN None;
        client "display-2" Manager.output Types.OPEN (Some "socket hang up"%string);
        client "display-3" Manager.output Types.CLOSING None;
        client "display-4" Manager.output Types.OPEN None];
     Manager.startTime := 0;
     Manager.messageCount := 41;
     Manager.clock := 5000;
     Manager.logLevel := Logger.info;
     Manager.console := [] |}.

End ScenarioClients.

Module ScenarioMessages.
Import Server.

Definition sample : json :=
  JObject [("simNum"%string, JNumber 1);
           ("pilot-name"%string, JString "Ana");
           ("car"%string, JString "Ferrari 458");
           ("track"%string, JString "Interlagos");
           ("bestLap"%string, JNumber 90000)].

(** A well-formed message, one of another type, one whose data lacks the
    car, and JSON [null]. *)
Definition update : Incoming :=
  JsonText (JObject [("type"%string, JString "simulator-update");
                     ("data"%string, sample)]).

Definition ping : Incoming :=
  JsonText (JObject [("type"%string, JString "ping")]).

Definition carless : Incoming :=
  JsonText (JObject [("type"%string, JString "simulator-update");
                     ("data"%string,
                      JObject [("simNum"%string, JNumber 1);
                               ("pilot-name"%string, JString "Ana");
                               ("track"%string, JString "Interlagos")])]).

Definition null : Incoming := JsonText JNull.

End ScenarioMessages.
(* ===================================================================== *)
(** * Properties of [sanitizeEventName]                                   *)
(* ===================================================================== *)

Module SanitizeFacts.
Import Sanitize.

Example sanitize_cup_a : sanitizeEventName "Cup A" = "cup-a"%string.
Proof. reflexivity. Qed.

Example sanitize_messy :
  sanitizeEventName "  GP -- São_Paulo 2024!! " = "gp-s-o-paulo-2024"%string.
Proof. reflexivity. Qed.

Example sanitize_only_symbols :
  sanitizeEventName "!!!" = ""%string
  /\ spec_sanitizeEventName anyTable "!!!" = ""%string.
Proof. split; reflexivity. Qed.

Example spec_sanitize_messy :
  spec_sanitizeEventName anyTable "  GP -- São_Paulo 2024!! "
  = "gp-s-o-paulo-2024"%string.
Proof. reflexivity. Qed.

(** ** Characters, by enumeration of the 256 of them *)

Ltac each_char c :=
  destruct c as [b0 b1 b2 b3 b4 b5 b6 b7];
  destruct b0, b1, b2, b3, b4, b5, b6, b7.

Lemma lowerChar_not_upper c : isUpper (lowerChar c) = false.
Proof. each_char c; reflexivity. Qed.

Lemma lowerChar_fixes_safe c :
  inClass c || isDash c = true -> lowerChar c = c.
Proof. each_char c; intros H; try reflexivity; discriminate H. Qed.

Lemma dash_not_inClass c : isDash c = true -> inClass c = false.
Proof. each_char c; intros H; try reflexivity; discriminate H. Qed.

Lemma foreign_not_upper c : isForeign c = true -> isUpper c = false.
Proof. each_char c; intros H; try reflexivity; discriminate H. Qed.

Lemma foreign_not_inClass c : isForeign c = true -> inClass c = false.
Proof. each_char c; intros H; try reflexivity; discriminate H. Qed.

Lemma safe_not_foreign c : inClass c || isDash c = true -> isForeign c = false.
Proof. each_char c; intros H; try reflexivity; discriminate H. Qed.

(** The alphabet of the wording and the ranges of the code agree. *)
Lemma alphanumeric_code c :
  alphanumeric c = isLower c || isUpper c || isDigit c.
Proof. each_char c; reflexivity. Qed.

Lemma safeChar_code c : safeChar c = inClass c || isDash c.
Proof. each_char c; reflexivity. Qed.

Lemma beyondAscii_code c : beyondAscii c = isForeign c.
Proof. each_char c; reflexivity. Qed.

Lemma isSeparator_code c : isSeparator c = isDash c.
Proof. reflexivity. Qed.

Ltac one_dash :=
  change isDash with isSeparator in *; change dash with separator in *.

Lemma alphanumeric_inClass c :
  isUpper c = false -> alphanumeric c = inClass c.
Proof.
  rewrite alphanumeric_code. unfold inClass. intros ->.
  now rewrite orb_false_r.
Qed.

Lemma isDash_eq c : isSeparator c = true -> c = separator.
Proof. unfold isSeparator. intros H. now apply Ascii.eqb_eq. Qed.

Lemma isByte_eq n c : isByte n c = true -> c = byte n.
Proof.
  unfold isByte, byte, code. intros H. apply Nat.eqb_eq in H.
  now rewrite <- H, ascii_nat_embedding.
Qed.

(** ** The scan of [toLowerCase], step by step *)

Section Lowering.

Variable U : CaseTable.

Lemma lowerFrom_dotted whole i inRun rest :
  lowerFrom U whole i inRun (byte 196 :: byte 176 :: rest)
  = "i"%char :: dotAbove ++ lowerFrom U whole (S (S i)) false rest.
Proof. reflexivity. Qed.

Lemma lowerFrom_kelvin whole i inRun rest :
  lowerFrom U whole i inRun (byte 226 :: byte 132 :: byte 170 :: rest)
  = "k"%char :: lowerFrom U whole (S (S (S i))) false rest.
Proof. reflexivity. Qed.

Lemma lowerFrom_single whole i inRun a rest :
  startsSpecial (a :: rest) = false ->
  lowerFrom U whole i inRun (a :: rest)
  = (if isForeign a
     then if inRun then [] else lowerOther U whole i
     else [lowerChar a])
    ++ lowerFrom U whole (S i) (isForeign a) rest.
Proof.
  intros H. destruct rest as [|b [|c rest]]; [reflexivity| |].
  - cbn [startsSpecial] in H. rewrite orb_false_r in H.
    cbn [lowerFrom]. now rewrite H.
  - cbn [startsSpecial] in H. apply orb_false_elim in H as [H1 H2].
    cbn [lowerFrom]. now rewrite H1, H2.
Qed.

Lemma startsSpecial_inv s :
  startsSpecial s = true ->
  (exists rest, s = byte 196 :: byte 176 :: rest)
  \/ (exists rest, s = byte 226 :: byte 132 :: byte 170 :: rest).
Proof.
  destruct s as [|a [|b rest]]; [discriminate|discriminate|].
  cbn [startsSpecial]. intros H. apply orb_prop in H as [H|H].
  - apply andb_prop in H as [Ha Hb].
    left. exists rest. now rewrite (isByte_eq _ _ Ha), (isByte_eq _ _ Hb).
  - destruct rest as [|c rest]; [discriminate|].
    apply andb_prop in H as [H Hc]. apply andb_prop in H as [Ha Hb].
    right. exists rest.
    now rewrite (isByte_eq _ _ Ha), (isByte_eq _ _ Hb), (isByte_eq _ _ Hc).
Qed.

(** Induction along the scan: a string is empty, or starts with one of the
    two characters, or with a byte that is read on its own. *)
Lemma scan_ind (P : list ascii -> Prop) :
  P [] ->
  (forall rest, P rest -> P (byte 196 :: byte 176 :: rest)) ->
  (forall rest, P rest -> P (byte 226 :: byte 132 :: byte 170 :: rest)) ->
  (forall a rest, startsSpecial (a :: rest) = false -> P rest ->
                  P (a :: rest)) ->
  forall s, P s.
Proof.
  intros Hnil Hdotted Hkelvin Hsingle s.
  assert (H : forall n s, (length s <= n)%nat -> P s).
  { clear s. induction n as [|n IH]; intros s Hlen.
    - destruct s; [exact Hnil|simpl in Hlen; lia].
    - destruct s as [|a rest]; [exact Hnil|].
      destruct (startsSpecial (a :: rest)) eqn:E.
      + apply startsSpecial_inv in E as [[tl E]|[tl E]]; rewrite E in *.
        * apply Hdotted, IH. simpl in Hlen. lia.
        * apply Hkelvin, IH. simpl in Hlen. lia.
      + apply Hsingle; [exact E|]. apply IH. simpl in Hlen. lia. }
  now apply (H (length s)).
Qed.

End Lowering.

(** ** The wording's lower case, step by step *)

Lemma eqb_byte n c : (n < 256)%nat -> Ascii.eqb (byte n) c = isByte n c.
Proof.
  intros Hn. apply eq_true_iff_eq. split; intros H.
  - apply Ascii.eqb_eq in H. subst c. unfold isByte, byte, code.
    rewrite nat_ascii_embedding by exact Hn. apply Nat.eqb_refl.
  - apply isByte_eq in H. subst c. apply Ascii.eqb_refl.
Qed.

Lemma lowerCaseAt_plain a rest :
  isByte 196 a = false -> isByte 226 a = false ->
  lowerCaseAt (a :: rest)
  = if isUpper a
    then Some (String a EmptyString, String (lowerChar a) EmptyString)
    else None.
Proof. each_char a; intros H1 H2; try discriminate; reflexivity. Qed.

Lemma lowerCaseAt_dotted rest :
  lowerCaseAt (byte 196 :: byte 176 :: rest) = Some ("İ", "i̇")%string.
Proof. reflexivity. Qed.

Lemma lowerCaseAt_kelvin rest :
  lowerCaseAt (byte 226 :: byte 132 :: byte 170 :: rest)
  = Some ("K", "k")%string.
Proof. reflexivity. Qed.

Lemma lowerCaseAt_196 rest :
  lowerCaseAt (byte 196 :: rest)
  = if startsWith [byte 176] rest then Some ("İ", "i̇")%string
    else None.
Proof. reflexivity. Qed.

Lemma lowerCaseAt_226 rest :
  lowerCaseAt (byte 226 :: rest)
  = if startsWith [byte 132; byte 170] rest then Some ("K", "k")%string
    else None.
Proof. reflexivity. Qed.

Lemma lowerCaseAt_lead a rest :
  isForeign a = true -> startsSpecial (a :: rest) = false ->
  lowerCaseAt (a :: rest) = None.
Proof.
  intros Hf Hs.
  destruct (isByte 196 a) eqn:E1; [|destruct (isByte 226 a) eqn:E2].
  - apply isByte_eq in E1. subst a. rewrite lowerCaseAt_196.
    destruct rest as [|b rest]; [reflexivity|].
    assert (Hb : isByte 176 b = false).
    { destruct rest; cbn [startsSpecial] in Hs;
        apply orb_false_elim in Hs as [Hs _]; exact Hs. }
    change (startsWith [byte 176] (b :: rest))
      with (Ascii.eqb (byte 176) b && true).
    rewrite (eqb_byte 176 b) by lia. now rewrite Hb.
  - apply isByte_eq in E2. subst a. rewrite lowerCaseAt_226.
    destruct rest as [|b [|c rest]]; [reflexivity| |].
    + change (startsWith [byte 132; byte 170] [b])
        with (Ascii.eqb (byte 132) b && false).
      now rewrite andb_false_r.
    + assert (Hbc : isByte 132 b && isByte 170 c = false).
      { cbn [startsSpecial] in Hs. apply orb_false_elim in Hs as [_ Hs].
        exact Hs. }
      change (startsWith [byte 132; byte 170] (b :: c :: rest))
        with (Ascii.eqb (byte 132) b && (Ascii.eqb (byte 170) c && true)).
      rewrite (eqb_byte 132 b), (eqb_byte 170 c) by lia.
      rewrite andb_true_r. now rewrite Hbc.
  - rewrite (lowerCaseAt_plain a rest E1 E2).
    now rewrite (foreign_not_upper a Hf).
Qed.

Section Wording.

Variable U : CaseTable.

Lemma spec_lowerFrom_dotted whole i inRun rest :
  spec_lowerFrom U whole i 0 inRun (byte 196 :: byte 176 :: rest)
  = "i"%char :: dotAbove ++ spec_lowerFrom U whole (S (S i)) 0 false rest.
Proof. reflexivity. Qed.

Lemma spec_lowerFrom_kelvin whole i inRun rest :
  spec_lowerFrom U whole i 0 inRun (byte 226 :: byte 132 :: byte 170 :: rest)
  = "k"%char :: spec_lowerFrom U whole (S (S (S i))) 0 false rest.
Proof. reflexivity. Qed.

Lemma spec_lowerFrom_single whole i inRun a rest :
  startsSpecial (a :: rest) = false ->
  spec_lowerFrom U whole i 0 inRun (a :: rest)
  = (if isForeign a
     then if inRun then [] else lowerOther U whole i
     else [lowerChar a])
    ++ spec_lowerFrom U whole (S i) 0 (isForeign a) rest.
Proof.
  intros Hs. cbn [spec_lowerFrom]. rewrite beyondAscii_code.
  destruct (isForeign a) eqn:Hf.
  - now rewrite (lowerCaseAt_lead a rest Hf Hs).
  - rewrite lowerCaseAt_plain.
    + unfold lowerChar. destruct (isUpper a); reflexivity.
    + destruct (isByte 196 a) eqn:E; [|reflexivity].
      apply isByte_eq in E. now subst a.
    + destruct (isByte 226 a) eqn:E; [|reflexivity].
      apply isByte_eq in E. now subst a.
Qed.

(** The two readings of lower case agree. *)
Lemma lowerFrom_spec whole s i inRun :
  lowerFrom U whole i inRun s = spec_lowerFrom U whole i 0 inRun s.
Proof.
  revert i inRun. induction s as [|rest IH|rest IH|a rest Hs IH] using scan_ind;
    intros i inRun.
  - reflexivity.
  - now rewrite lowerFrom_dotted, spec_lowerFrom_dotted, IH.
  - now rewrite lowerFrom_kelvin, spec_lowerFrom_kelvin, IH.
  - now rewrite (lowerFrom_single U _ _ _ _ _ Hs),
      (spec_lowerFrom_single _ _ _ _ _ Hs), IH.
Qed.

Lemma toLowerCase_spec s : toLowerCase U s = spec_toLowerCase U s.
Proof. apply lowerFrom_spec. Qed.

End Wording.

(** ** The scan of the first [replace] computes the collapsed runs *)

Lemma runs_unfold c rest :
  runs (c :: rest) =
  match runs rest with
  | (d :: run) :: more =>
      if Bool.eqb (alphanumeric c) (alphanumeric d)
      then (c :: d :: run) :: more
      else [c] :: (d :: run) :: more
  | other => [c] :: other
  end.
Proof. reflexivity. Qed.

Lemma runs_head c rest :
  exists run more, runs (c :: rest) = (c :: run) :: more.
Proof.
  rewrite runs_unfold.
  destruct (runs rest) as [|[|d run] more]; eauto.
  destruct (Bool.eqb _ _); eauto.
Qed.

Lemma collapseRuns_keep c rest :
  alphanumeric c = true ->
  collapseRuns (c :: rest) = c :: collapseRuns rest.
Proof.
  intros Hc. unfold collapseRuns. rewrite runs_unfold.
  destruct (runs rest) as [|[|d run] more]; simpl; rewrite ?Hc; auto.
  destruct (alphanumeric d) eqn:Hd; simpl; rewrite ?Hc, ?Hd; reflexivity.
Qed.

Lemma collapseRuns_separator c rest :
  alphanumeric c = false ->
  collapseRuns (c :: rest) = dash :: restOfRun rest.
Proof.
  intros Hc. destruct rest as [|d rest].
  - unfold collapseRuns. simpl. now rewrite Hc.
  - destruct (runs_head d rest) as (run & more & E).
    unfold restOfRun, collapseRuns. rewrite runs_unfold, E. simpl.
    destruct (alphanumeric d) eqn:Hd; rewrite Hc; simpl; rewrite ?Hc, ?Hd;
      reflexivity.
Qed.

Lemma replaceRuns_collapse t :
  Forall (fun c => isUpper c = false) t ->
  replaceRuns false t = collapseRuns t /\ replaceRuns true t = restOfRun t.
Proof.
  induction 1 as [|c rest Hc _ [IHf IHt]]; [split; reflexivity|].
  pose proof (alphanumeric_inClass c Hc) as Ha.
  simpl replaceRuns. destruct (inClass c) eqn:Hk.
  - rewrite IHf. unfold restOfRun. rewrite Ha.
    now rewrite (collapseRuns_keep c rest Ha).
  - rewrite IHt. unfold restOfRun. rewrite Ha.
    now rewrite (collapseRuns_separator c rest Ha).
Qed.

Lemma foreignRun_forall s : foreignRun s = true -> forallb isForeign s = true.
Proof. destruct s; [discriminate|auto]. Qed.

Lemma foreign_no_upper s :
  forallb isForeign s = true -> Forall (fun c => isUpper c = false) s.
Proof.
  induction s as [|c s IH]; simpl; intros H; constructor;
    apply andb_prop in H as [Hc Hs]; auto using foreign_not_upper.
Qed.

Lemma lowerFrom_no_upper U whole s i inRun :
  Forall (fun c => isUpper c = false) (lowerFrom U whole i inRun s).
Proof.
  revert i inRun.
  induction s as [|rest IH|rest IH|a rest Hs IH] using scan_ind;
    intros i inRun.
  - constructor.
  - rewrite lowerFrom_dotted. constructor; [reflexivity|].
    apply Forall_app. split; [|apply IH]. now repeat constructor.
  - rewrite lowerFrom_kelvin. constructor; [reflexivity|apply IH].
  - rewrite (lowerFrom_single U _ _ _ _ _ Hs).
    apply Forall_app. split; [|apply IH].
    destruct (isForeign a).
    + destruct inRun; [constructor|].
      apply foreign_no_upper, foreignRun_forall, lowerOther_foreign.
    + constructor; [apply lowerChar_not_upper|constructor].
Qed.

Lemma toLowerCase_no_upper U s :
  Forall (fun c => isUpper c = false) (toLowerCase U s).
Proof. apply lowerFrom_no_upper. Qed.

(** ** Shape of what the scan emits *)

Lemma inClass_not_dash c : inClass c = true -> isSeparator c = false.
Proof.
  intros H. destruct (isSeparator c) eqn:E; [|reflexivity].
  apply dash_not_inClass in E. congruence.
Qed.

Lemma replaceRuns_chars t b : forallb safeChar (replaceRuns b t) = true.
Proof.
  revert b. induction t as [|c t IH]; intros b; simpl; [reflexivity|].
  destruct (inClass c) eqn:Hk.
  - simpl. rewrite safeChar_code. now rewrite Hk, IH.
  - destruct b; simpl; auto.
Qed.

Lemma replaceRuns_true_start t : startsWithDash (replaceRuns true t) = false.
Proof.
  induction t as [|c t IH]; simpl; [reflexivity|].
  destruct (inClass c) eqn:Hk; [simpl; now apply inClass_not_dash|exact IH].
Qed.

Lemma singleDashes_cons c s :
  singleDashes (c :: s)
  = negb (isSeparator c && startsWithDash s) && singleDashes s.
Proof.
  destruct s as [|d s]; simpl; [now rewrite andb_false_r|reflexivity].
Qed.

Lemma replaceRuns_single t b : singleDashes (replaceRuns b t) = true.
Proof.
  revert b. induction t as [|c t IH]; intros b; simpl; [reflexivity|].
  destruct (inClass c) eqn:Hk.
  - rewrite singleDashes_cons, (inClass_not_dash c Hk). simpl. one_dash. apply IH.
  - destruct b; [apply IH|].
    rewrite singleDashes_cons, replaceRuns_true_start, andb_false_r.
    simpl. one_dash. apply IH.
Qed.


(** ** The second [replace] trims, and keeps the shape *)

Lemma forallb_stripLeading P s :
  forallb P s = true -> forallb P (stripLeading s) = true.
Proof.
  destruct s as [|c s]; simpl; [auto|]. one_dash.
  intros H. apply andb_prop in H as [Hc Hs].
  destruct (isSeparator c); simpl; [exact Hs|now rewrite Hc, Hs].
Qed.

Lemma forallb_stripTrailing P s :
  forallb P s = true -> forallb P (stripTrailing s) = true.
Proof.
  induction s as [|c [|d s] IH]; [auto| |].
  - simpl. one_dash. destruct (isSeparator c); auto.
  - intros H.
    change (forallb P (c :: d :: s)) with (P c && forallb P (d :: s)) in H.
    apply andb_prop in H as [Hc Hs].
    change (P c && forallb P (stripTrailing (d :: s)) = true).
    now rewrite Hc, (IH Hs).
Qed.

Lemma singleDashes_stripLeading s :
  singleDashes s = true ->
  singleDashes (stripLeading s) = true
  /\ startsWithDash (stripLeading s) = false.
Proof.
  destruct s as [|c s]; [auto|]. rewrite singleDashes_cons.
  intros H. apply andb_prop in H as [Hc Hs]. simpl. one_dash.
  destruct (isSeparator c) eqn:E.
  - split; [exact Hs|]. simpl in Hc. one_dash. now apply negb_true_iff in Hc.
  - split; [|exact E]. rewrite singleDashes_cons, E. exact Hs.
Qed.

Lemma stripTrailing_cons c d s :
  stripTrailing (c :: d :: s) = c :: stripTrailing (d :: s).
Proof. reflexivity. Qed.

Lemma stripTrailing_start s :
  startsWithDash s = false -> startsWithDash (stripTrailing s) = false.
Proof.
  destruct s as [|c [|d s]]; [auto| |]; simpl; one_dash; intros H; rewrite ?H; auto.
Qed.

Lemma startsWithDash_stripTrailing_le s :
  startsWithDash (stripTrailing s) = true -> startsWithDash s = true.
Proof.
  destruct (startsWithDash s) eqn:E; [auto|].
  now rewrite (stripTrailing_start s E).
Qed.

Lemma singleDashes_stripTrailing s :
  singleDashes s = true -> singleDashes (stripTrailing s) = true.
Proof.
  induction s as [|c [|d s] IH]; [auto| |].
  - simpl. one_dash. destruct (isSeparator c); auto.
  - rewrite stripTrailing_cons, !singleDashes_cons with (c := c).
    intros H. apply andb_prop in H as [Hc Hs].
    rewrite (IH Hs), andb_true_r.
    destruct (isSeparator c); [|reflexivity].
    rewrite andb_true_l in Hc |- *.
    apply negb_true_iff in Hc. apply negb_true_iff.
    destruct (startsWithDash (stripTrailing (d :: s))) eqn:E; [|reflexivity].
    apply startsWithDash_stripTrailing_le in E. congruence.
Qed.

Lemma endsWithDash_cons c s :
  endsWithDash (c :: s) = match s with [] => isSeparator c | _ => endsWithDash s end.
Proof. destruct s; reflexivity. Qed.

Lemma stripTrailing_end s :
  singleDashes s = true -> endsWithDash (stripTrailing s) = false.
Proof.
  induction s as [|c [|d s] IH]; [auto| |].
  - simpl. one_dash. destruct (isSeparator c) eqn:E; simpl; auto.
  - rewrite stripTrailing_cons, singleDashes_cons.
    intros H. apply andb_prop in H as [Hc Hs].
    rewrite endsWithDash_cons.
    destruct (stripTrailing (d :: s)) as [|e r] eqn:Ed; [|exact (IH Hs)].
    destruct s as [|d' s]; [|discriminate Ed].
    simpl in Ed. one_dash. destruct (isSeparator d) eqn:Hd; [|discriminate Ed].
    simpl in Hc. one_dash. rewrite Hd, andb_true_r in Hc. now apply negb_true_iff in Hc.
Qed.

Lemma sanitizeChars_safe U s : safeChars (sanitizeChars U s) = true.
Proof.
  unfold sanitizeChars, replaceEnds, safeChars.
  set (u := replaceRuns false (toLowerCase U s)).
  pose proof (replaceRuns_chars (toLowerCase U s) false) as Hchars.
  pose proof (replaceRuns_single (toLowerCase U s) false) as Hsingle.
  fold u in Hchars, Hsingle.
  destruct (singleDashes_stripLeading u Hsingle) as [Hs1 Hs2].
  rewrite (forallb_stripTrailing _ _ (forallb_stripLeading _ _ Hchars)).
  rewrite (singleDashes_stripTrailing _ Hs1).
  rewrite (stripTrailing_start _ Hs2).
  now rewrite (stripTrailing_end _ Hs1).
Qed.

(** ** A safe name is a fixed point *)

Lemma safe_not_special a rest :
  isForeign a = false -> startsSpecial (a :: rest) = false.
Proof.
  intros Ha. destruct (startsSpecial (a :: rest)) eqn:E; [|reflexivity].
  apply startsSpecial_inv in E as [[tl E]|[tl E]]; injection E as -> _;
    discriminate Ha.
Qed.

Lemma lowerFrom_safe U whole s i inRun :
  forallb safeChar s = true -> lowerFrom U whole i inRun s = s.
Proof.
  revert i inRun. induction s as [|c s IH]; intros i inRun; [auto|].
  simpl forallb. intros H. apply andb_prop in H as [Hc Hs].
  rewrite safeChar_code in Hc.
  pose proof (safe_not_foreign c Hc) as Hf.
  rewrite (lowerFrom_single U _ _ _ _ _ (safe_not_special c s Hf)).
  now rewrite Hf, (lowerChar_fixes_safe c Hc), IH.
Qed.

Lemma toLowerCase_safe U s : forallb safeChar s = true -> toLowerCase U s = s.
Proof. apply lowerFrom_safe. Qed.

Lemma replaceRuns_safe s b :
  forallb safeChar s = true ->
  singleDashes s = true ->
  (b = true -> startsWithDash s = false) ->
  replaceRuns b s = s.
Proof.
  revert b. induction s as [|c s IH]; intros b Hall Hsingle Hb; [reflexivity|].
  simpl in Hall. one_dash. apply andb_prop in Hall as [Hc Hs].
  rewrite singleDashes_cons in Hsingle.
  apply andb_prop in Hsingle as [Hcd Hss].
  simpl. one_dash. destruct (inClass c) eqn:Hk.
  - f_equal. apply IH; auto. discriminate.
  - rewrite safeChar_code, Hk in Hc. simpl in Hc. one_dash.
    rewrite Hc in Hcd. simpl in Hcd. one_dash. apply negb_true_iff in Hcd.
    destruct b.
    + specialize (Hb eq_refl). simpl in Hb. one_dash. congruence.
    + rewrite (isDash_eq c Hc). f_equal. apply IH; auto.
Qed.

Lemma stripLeading_id s : startsWithDash s = false -> stripLeading s = s.
Proof. destruct s as [|c s]; simpl; [auto|]. one_dash. now intros ->. Qed.

Lemma stripTrailing_id s : endsWithDash s = false -> stripTrailing s = s.
Proof.
  induction s as [|c [|d s] IH]; [auto| |].
  - simpl. one_dash. now intros ->.
  - rewrite stripTrailing_cons, endsWithDash_cons. intros H. now rewrite IH.
Qed.

Lemma sanitizeChars_fixes_safe U s :
  safeChars s = true -> sanitizeChars U s = s.
Proof.
  unfold safeChars. intros H.
  apply andb_prop in H as [H Hend]. apply andb_prop in H as [H Hstart].
  apply andb_prop in H as [Hall Hsingle].
  apply negb_true_iff in Hend, Hstart.
  unfold sanitizeChars, replaceEnds.
  rewrite (toLowerCase_safe U s Hall).
  rewrite (replaceRuns_safe s false Hall Hsingle) by discriminate.
  now rewrite (stripLeading_id s Hstart), (stripTrailing_id s Hend).
Qed.


(** ** On collapsed runs, removing one separator at each end trims *)

Lemma dropSeparators_id s : startsWithDash s = false -> dropSeparators s = s.
Proof. destruct s as [|c s]; simpl; [auto|]. one_dash. now intros ->. Qed.

Lemma stripLeading_drops s :
  singleDashes s = true -> stripLeading s = dropSeparators s.
Proof.
  destruct s as [|c s]; [auto|]. rewrite singleDashes_cons. simpl. one_dash.
  destruct (isSeparator c); [|reflexivity].
  rewrite andb_true_l. intros H. apply andb_prop in H as [H _].
  apply negb_true_iff in H. now rewrite dropSeparators_id.
Qed.

Lemma dropTrailingSeparators_nil s :
  dropTrailingSeparators s = [] -> forallb isSeparator s = true.
Proof.
  induction s as [|c s IH]; [auto|]. simpl. one_dash.
  destruct (dropTrailingSeparators s); [|discriminate].
  destruct (isSeparator c); [|discriminate]. intros _. now apply IH.
Qed.

Lemma stripTrailing_drops s :
  singleDashes s = true -> stripTrailing s = dropTrailingSeparators s.
Proof.
  induction s as [|c [|d s] IH]; [auto|auto|].
  rewrite stripTrailing_cons, singleDashes_cons.
  intros H. apply andb_prop in H as [Hc Hs].
  rewrite (IH Hs).
  change (dropTrailingSeparators (c :: d :: s))
    with (match dropTrailingSeparators (d :: s) with
          | [] => if isSeparator c then [] else [c]
          | kept => c :: kept
          end).
  destruct (dropTrailingSeparators (d :: s)) eqn:E; [|reflexivity].
  apply dropTrailingSeparators_nil in E.
  change (forallb isSeparator (d :: s)) with (isSeparator d && forallb isSeparator s) in E.
  apply andb_prop in E as [Hd _].
  change (startsWithDash (d :: s)) with (isSeparator d) in Hc.
  rewrite Hd, andb_true_r in Hc. apply negb_true_iff in Hc. now rewrite Hc.
Qed.

Lemma replaceEnds_trims s :
  singleDashes s = true -> replaceEnds s = trimSeparators s.
Proof.
  intros H. unfold replaceEnds, trimSeparators.
  rewrite <- (stripLeading_drops s H).
  apply stripTrailing_drops. now apply singleDashes_stripLeading.
Qed.

Lemma sanitizeChars_spec U s : sanitizeChars U s = spec_sanitizeChars U s.
Proof.
  unfold sanitizeChars, spec_sanitizeChars.
  rewrite <- toLowerCase_spec.
  destruct (replaceRuns_collapse _ (toLowerCase_no_upper U s)) as [<- _].
  apply replaceEnds_trims, replaceRuns_single.
Qed.

(** ** The case table of the runtime does not show in the derived name *)

Lemma replaceRuns_foreign out rest b :
  forallb isForeign out = true ->
  (out = [] -> b = true) ->
  replaceRuns b (out ++ rest)
  = (if b then [] else [dash]) ++ replaceRuns true rest.
Proof.
  revert b. induction out as [|c out IH]; intros b Hall Hb.
  - now rewrite (Hb eq_refl).
  - simpl in Hall. apply andb_prop in Hall as [Hc Hout].
    simpl. rewrite (foreign_not_inClass c Hc).
    rewrite (IH true Hout) by reflexivity.
    destruct b; reflexivity.
Qed.

Lemma replaceRuns_lowerFrom U U' whole whole' s i i' inRun b :
  (inRun = true -> b = true) ->
  replaceRuns b (lowerFrom U whole i inRun s)
  = replaceRuns b (lowerFrom U' whole' i' inRun s).
Proof.
  revert i i' inRun b.
  induction s as [|rest IH|rest IH|a rest Hs IH] using scan_ind;
    intros i i' inRun b Hb.
  - reflexivity.
  - rewrite !lowerFrom_dotted.
    change (replaceRuns b ("i"%char :: dotAbove ++ ?t))
      with ("i"%char :: dash :: replaceRuns true t).
    f_equal. f_equal. now apply IH.
  - rewrite !lowerFrom_kelvin.
    change (replaceRuns b ("k"%char :: ?t))
      with ("k"%char :: replaceRuns false t).
    f_equal. apply IH. discriminate.
  - rewrite !(lowerFrom_single _ _ _ _ _ _ Hs).
    destruct (isForeign a) eqn:Hf.
    + rewrite !replaceRuns_foreign.
      * f_equal. now apply IH.
      * destruct inRun; [reflexivity|].
        apply foreignRun_forall, lowerOther_foreign.
      * destruct inRun; [auto|]. intros E.
        pose proof (lowerOther_foreign U' whole' i') as Hne.
        rewrite E in Hne. discriminate Hne.
      * destruct inRun; [reflexivity|].
        apply foreignRun_forall, lowerOther_foreign.
      * destruct inRun; [auto|]. intros E.
        pose proof (lowerOther_foreign U whole i) as Hne.
        rewrite E in Hne. discriminate Hne.
    + change (replaceRuns b ([lowerChar a] ++ ?t))
        with (if inClass (lowerChar a) then lowerChar a :: replaceRuns false t
              else if b then replaceRuns true t
                   else dash :: replaceRuns true t).
      destruct (inClass (lowerChar a)).
      * f_equal. apply IH. discriminate.
      * destruct b; [|f_equal]; now apply IH.
Qed.

Lemma sanitizeChars_any_table U s : sanitizeChars U s = sanitizeChars anyTable s.
Proof.
  unfold sanitizeChars, toLowerCase.
  now rewrite (replaceRuns_lowerFrom U anyTable s s s 0 0 false false)
    by discriminate.
Qed.

(** C9.  Whatever the case table of the runtime, [sanitizeEventName] is
    the event name lower-cased ([spec_toLowerCase]: the capitals, the Kelvin
    sign and the dotted capital I by their table, other characters beyond
    ASCII by the runtime's), every maximal run of characters that are no
    ASCII letters or digits collapsed to one separator and the separators
    at both ends removed ([spec_sanitizeEventName]); it is idempotent, and
    its result holds only lowercase letters, digits and single interior
    separators ([safeName]).  The name the tracker derives is this one. *)
Theorem sanitizeEventName_derivation (U : CaseTable) (eventName : string) :
  sanitizeEventNameWith U eventName = spec_sanitizeEventName U eventName
  /\ sanitizeEventNameWith U (sanitizeEventNameWith U eventName)
     = sanitizeEventNameWith U eventName
  /\ safeName (sanitizeEventNameWith U eventName) = true
  /\ sanitizeEventName eventName = sanitizeEventNameWith U eventName.
Proof.
  unfold sanitizeEventName, sanitizeEventNameWith, spec_sanitizeEventName,
    safeName.
  rewrite !list_ascii_of_string_of_list_ascii.
  split; [now rewrite sanitizeChars_spec|].
  pose proof (sanitizeChars_safe U (list_ascii_of_string eventName)) as Hsafe.
  split; [now rewrite (sanitizeChars_fixes_safe U _ Hsafe)|].
  split; [exact Hsafe|].
  now rewrite (sanitizeChars_any_table U).
Qed.

Example sanitize_kelvin :
  sanitizeEventName "K" = "k"%string
  /\ spec_sanitizeEventName anyTable "K" = "k"%string.
Proof. split; reflexivity. Qed.

Example sanitize_dotted :
  sanitizeEventName "İstanbul" = "i-stanbul"%string
  /\ spec_sanitizeEventName anyTable "İstanbul" = "i-stanbul"%string.
Proof. split; reflexivity. Qed.

End SanitizeFacts.

(* ===================================================================== *)
(** * Properties of the tracker                                           *)
(* ===================================================================== *)

Module TrackerFacts.
Import Effect Effect.Notations Tracker.
Import Sanitize.

#[local] Arguments sanitizeEventName : simpl never.
#[local] Arguments Z.add : simpl never.
#[local] Arguments Z.sub : simpl never.
#[local] Arguments Z.ltb : simpl never.
#[local] Arguments Z.leb : simpl never.
#[local] Arguments Z.eqb : simpl never.

(** ** What each function does to the state, in closed form *)

Lemma loadEventData_run e s :
  loadEventData e s =
  match eventCache s !! e with
  | Some v => (Returned v, note (CacheGet e) (note (CacheHas e) s))
  | None =>
      match onDisk e s with
      | Some v =>
          (Returned v,
           set_eventCache (<[e := v]>)
             (note (CacheSet e)
                (note (ReadFile (sanitizeEventName e))
                   (note (CacheHas e) s))))
      | None =>
          (Returned (Other Null),
           note (ReadFile (sanitizeEventName e)) (note (CacheHas e) s))
      end
  end.
Proof.
  unfold loadEventData, cache_has, cache_get, cache_set, fs_readFile,
    JSON_parse, try_catch, bind, modify, gets, ret, throw, onDisk.
  simpl. destruct (eventCache s !! e) as [d|] eqn:E; simpl; rewrite ?E;
    [reflexivity|].
  destruct (files s !! sanitizeEventName e) as [[|d|v]|] eqn:F; simpl;
    rewrite ?F; reflexivity.
Qed.

Lemma saveEventData_run e d s :
  saveEventData e d s =
  (Returned tt,
   set_pendingWrites (<[sanitizeEventName e := nextTimer s]>)
     (set_nextTimer (fun _ => S (nextTimer s))
        (set_timers
           (fun held =>
              <[nextTimer s := scheduled e d s]>
                (match pendingWrites s !! sanitizeEventName e with
                 | Some handle => delete handle held
                 | None => held
                 end))
           (set_eventCache (<[e := Table d]>) (note (CacheSet e) s))))).
Proof.
  unfold saveEventData, cache_set, clearTimeout, setTimeout,
    bind, modify, gets, ret. simpl.
  destruct (pendingWrites s !! sanitizeEventName e); reflexivity.
Qed.

Lemma loadEventData_result e s :
  fst (loadEventData e s) = Returned (loaded e s).
Proof.
  rewrite loadEventData_run. unfold loaded.
  destruct (eventCache s !! e); [reflexivity|].
  destruct (onDisk e s); reflexivity.
Qed.

Lemma loadEventData_split e s :
  loadEventData e s = (Returned (loaded e s), exec (loadEventData e) s).
Proof.
  unfold exec. rewrite <- loadEventData_result.
  now destruct (loadEventData e s).
Qed.

Lemma consulted_record e p s :
  pilots (consulted e s) !! p = recordOf e p s.
Proof.
  unfold consulted, recordOf.
  destruct (tableOf e s); simpl; [reflexivity|apply lookup_empty].
Qed.

Lemma existing_own e p s r :
  existing e p s = Own r <-> recordOf e p s = Some r.
Proof.
  unfold existing, getPilot. rewrite consulted_record.
  destruct (recordOf e p s) as [r'|].
  - split; intros H; now injection H as ->.
  - destruct (inherited p); split; discriminate.
Qed.

Lemma existing_none e p s :
  recordOf e p s = None ->
  existing e p s = if inherited p then Inherited else Undefined.
Proof.
  unfold existing, getPilot. rewrite consulted_record. now intros ->.
Qed.

Lemma evaluates_candidate d s :
  evaluates d s = true ->
  exists lapTime, candidate d = Some lapTime /\ 0 < lapTime.
Proof.
  unfold evaluates. destruct (candidate d) as [lapTime|]; [|discriminate].
  intros H. exists lapTime. split; [reflexivity|].
  apply andb_prop in H as [H _]. apply negb_true_iff in H.
  apply orb_false_iff in H as [_ H]. apply Z.leb_gt in H. exact H.
Qed.

Lemma processBestLap_skip d s :
  evaluates d s = false -> processBestLap d s = (Returned tt, s).
Proof.
  unfold evaluates, processBestLap.
  destruct (candidate d) as [lapTime|]; [|reflexivity].
  destruct (negb (truthy (Some lapTime)) || (lapTime <=? 0)); [reflexivity|].
  simpl. unfold bind, Date_now, gets. simpl.
  intros H. apply negb_false_iff in H. now rewrite H.
Qed.

Lemma loadEventData_clock e s : clock (exec (loadEventData e) s) = clock s.
Proof.
  unfold exec. rewrite loadEventData_run.
  destruct (eventCache s !! e); [reflexivity|].
  destruct (onDisk e s); reflexivity.
Qed.

(** A call that reaches the improvement decision: the ledger is written
    and the event loaded; then the call throws where what is loaded is
    truthy and has no [pilots], and decides otherwise. *)
Lemma processBestLap_run d s lapTime :
  evaluates d s = true ->
  candidate d = Some lapTime ->
  processBestLap d s =
  let st := exec (loadEventData (eventNameOf d)) (ledgered d lapTime s) in
  match loaded (eventNameOf d) s with
  | Other (Pilotless _) => (Thrown noPilots, st)
  | _ =>
      if shouldUpdate (existing (eventNameOf d) (Types.pilot_name d) s) lapTime
      then saveEventData (eventNameOf d)
             (improved d lapTime (clock s) (consulted (eventNameOf d) s)) st
      else (Returned tt, st)
  end.
Proof.
  unfold evaluates, processBestLap. intros H Hc. rewrite Hc in *.
  apply andb_prop in H as [H1 H2].
  apply negb_true_iff in H1, H2. rewrite H1.
  unfold bind at 1. unfold Date_now, gets at 1.
  unfold bind at 1. unfold gets at 1. rewrite H2.
  unfold bind at 1. unfold modify at 1.
  fold (ledgered d lapTime s).
  unfold bind at 1. rewrite loadEventData_split.
  change (loaded (eventNameOf d) (ledgered d lapTime s))
    with (loaded (eventNameOf d) s).
  cbv zeta.
  set (st := exec (loadEventData (eventNameOf d)) (ledgered d lapTime s)).
  assert (Hclock : clock st = clock s).
  { subst st. now rewrite loadEventData_clock. }
  unfold existing, consulted, tableOf, improved.
  destruct (loaded (eventNameOf d) s) as [table|[| |name]]; simpl;
    unfold bind, gets, ret, pilotsOf, throw; simpl; rewrite ?Hclock;
    try reflexivity;
    match goal with |- context [shouldUpdate ?r lapTime] =>
      destruct (shouldUpdate r lapTime) end; simpl; rewrite ?Hclock;
    reflexivity.
Qed.

Lemma processBestLap_decides d s lapTime :
  evaluates d s = true ->
  candidate d = Some lapTime ->
  usable (eventNameOf d) s ->
  processBestLap d s =
  let st := exec (loadEventData (eventNameOf d)) (ledgered d lapTime s) in
  if shouldUpdate (existing (eventNameOf d) (Types.pilot_name d) s) lapTime
  then saveEventData (eventNameOf d)
         (improved d lapTime (clock s) (consulted (eventNameOf d) s)) st
  else (Returned tt, st).
Proof.
  intros He Hc Hu. rewrite (processBestLap_run d s lapTime He Hc).
  cbv zeta. specialize (Hu).
  destruct (loaded (eventNameOf d) s) as [table|[| |name]] eqn:E;
    try reflexivity.
  now destruct (Hu name).
Qed.

Lemma processBestLap_stray d s lapTime name :
  evaluates d s = true ->
  candidate d = Some lapTime ->
  loaded (eventNameOf d) s = Other (Pilotless name) ->
  processBestLap d s =
  (Thrown noPilots,
   exec (loadEventData (eventNameOf d)) (ledgered d lapTime s)).
Proof.
  intros He Hc Hl. rewrite (processBestLap_run d s lapTime He Hc).
  cbv zeta. now rewrite Hl.
Qed.

(** The state a call that reaches the decision leaves: the one after the
    load, or the one after the save that follows it. *)
Lemma processBestLap_exec_cases d s lapTime :
  evaluates d s = true ->
  candidate d = Some lapTime ->
  let st := exec (loadEventData (eventNameOf d)) (ledgered d lapTime s) in
  exec (processBestLap d) s = st
  \/ (usable (eventNameOf d) s
      /\ shouldUpdate (existing (eventNameOf d) (Types.pilot_name d) s) lapTime
         = true
      /\ exec (processBestLap d) s
         = exec (saveEventData (eventNameOf d)
                   (improved d lapTime (clock s) (consulted (eventNameOf d) s)))
             st).
Proof.
  intros He Hc. cbv zeta. unfold exec at 1 3.
  rewrite (processBestLap_run d s lapTime He Hc). cbv zeta.
  destruct (loaded (eventNameOf d) s) as [table|[| |name]] eqn:E;
    [| | |left; reflexivity];
    (destruct (shouldUpdate _ lapTime) eqn:Hs; [right|left; reflexivity]);
    (split; [intros name; rewrite E; discriminate|auto]).
Qed.

(** ** Frame of [loadEventData] and effect of [saveEventData] *)

Lemma loaded_loadEventData e e' s :
  loaded e' (exec (loadEventData e) s) = loaded e' s.
Proof.
  unfold exec. rewrite loadEventData_run. unfold loaded.
  destruct (eventCache s !! e) as [d|] eqn:E; [reflexivity|].
  destruct (onDisk e s) as [v|] eqn:F; try reflexivity.
  simpl. destruct (decide (e = e')) as [<-|Hne].
  - rewrite lookup_insert_eq, E.
    change (onDisk e (set_eventCache _ _)) with (onDisk e s) in *.
    unfold onDisk in *. simpl. now rewrite F.
  - now rewrite lookup_insert_ne.
Qed.

Lemma tableOf_loadEventData e e' s :
  tableOf e' (exec (loadEventData e) s) = tableOf e' s.
Proof. unfold tableOf. now rewrite loaded_loadEventData. Qed.

Lemma loadEventData_frame e s :
  let s' := exec (loadEventData e) s in
  pendingWrites s' = pendingWrites s /\ timers s' = timers s
  /\ nextTimer s' = nextTimer s /\ files s' = files s
  /\ written s' = written s /\ clock s' = clock s
  /\ lastProcessedLap s' = lastProcessedLap s
  /\ unwritable s' = unwritable s.
Proof.
  unfold exec. rewrite loadEventData_run.
  destruct (eventCache s !! e) as [d|]; [now repeat split|].
  destruct (onDisk e s); now repeat split.
Qed.

Lemma improves_shouldUpdate e p s lapTime :
  inherited p = false ->
  shouldUpdate (existing e p s) lapTime = true
  <-> improves (recordOf e p s) lapTime.
Proof.
  intros Hp. unfold improves.
  destruct (recordOf e p s) as [r|] eqn:E.
  - apply existing_own in E. rewrite E. simpl. rewrite Z.ltb_lt. split.
    + intros H. right. eauto.
    + intros [H|(r' & H & Hlt)]; [discriminate|]. now injection H as ->.
  - rewrite (existing_none e p s E), Hp. split; auto.
Qed.

Lemma candidate_worded d : candidate d = wordedCandidate d.
Proof.
  unfold candidate, wordedCandidate, or_else, truthy.
  destruct (Types.bestLap d) as [lap|]; [|reflexivity].
  destruct (decide (lap = 0)) as [->|Hne]; [reflexivity|].
  apply Z.eqb_neq in Hne. now rewrite Hne.
Qed.

(** C4, as stated, fails.  A sample with [bestLap] zero and [bestTime]
    90000 has the candidate 0 by the specification's words ([bestLap]
    preferred), which is not positive; yet the call reads the disk, writes
    the cache and the ledger, records 90000 for the pilot and sets a
    write timer. *)
Lemma zero_bestLap_is_passed_over :
  let d := Scenario.ana (Some 0) (Some 90000) in
  let s' := exec (processBestLap d) (initial 1000) in
  claimedCandidate d = Some 0
  /\ accesses s' = [CacheHas "Cup A"; ReadFile "cup-a"; CacheSet "Cup A"]
  /\ eventCache s' !! "Cup A"%string = Some (Table (Scenario.cupA 1000 90000))
  /\ lastProcessedLap s' !! pilotKeyOf d
     = Some {| LastProcessed.lap := 90000; LastProcessed.timestamp := 1000 |}
  /\ timers s' !! 0%nat
     = Some (scheduled "Cup A" (Scenario.cupA 1000 90000) (initial 1000)).
Proof. cbv zeta. repeat split; vm_compute; reflexivity. Qed.

(** C4, amended.  The candidate lap value is [bestLap] unless the sample
    has none or has zero there, and [bestTime] then.  A sample whose
    candidate is absent or not positive leaves the whole state as it was:
    no ledger update, no use of the cache (the list of accesses is
    unchanged), no read of the disk, no timer set; and the call
    returns. *)
Theorem processBestLap_invalid_candidate d s :
  (wordedCandidate d = None
   \/ exists lapTime, wordedCandidate d = Some lapTime /\ lapTime <= 0) ->
  processBestLap d s = (Returned tt, s).
Proof.
  rewrite <- candidate_worded.
  intros H. apply processBestLap_skip. unfold evaluates.
  destruct H as [->|(lapTime & -> & Hle)]; [reflexivity|].
  apply Z.leb_le in Hle. rewrite Hle, orb_true_r. reflexivity.
Qed.

Lemma processBestLap_invalid_candidate_witness :
  (wordedCandidate (Scenario.ana (Some 0) (Some (-5))) = None
   \/ exists lapTime,
        wordedCandidate (Scenario.ana (Some 0) (Some (-5))) = Some lapTime
        /\ lapTime <= 0)
  /\ processBestLap (Scenario.ana (Some 0) (Some (-5))) (Scenario.saved)
     = (Returned tt, Scenario.saved).
Proof.
  assert (H : wordedCandidate (Scenario.ana (Some 0) (Some (-5))) = None
              \/ exists lapTime,
                   wordedCandidate (Scenario.ana (Some 0) (Some (-5)))
                   = Some lapTime /\ lapTime <= 0).
  { right. exists (-5). split; [reflexivity|lia]. }
  split; [exact H|].
  exact (processBestLap_invalid_candidate _ Scenario.saved H).
Defined.

(** The throttle as written: it holds a call back when the ledger entry
    is recent and equals [data.bestLap]. *)
Lemma processBestLap_throttled d s last lapTime :
  lastProcessedLap s !! pilotKeyOf d = Some last ->
  clock s - LastProcessed.timestamp last < MIN_PROCESS_INTERVAL_MS ->
  Types.bestLap d = Some lapTime ->
  LastProcessed.lap last = lapTime ->
  processBestLap d s = (Returned tt, s).
Proof.
  intros Hlast Hrecent Hlap Heq. apply processBestLap_skip.
  unfold evaluates. destruct (candidate d); [|reflexivity].
  rewrite Hlast. unfold throttles, sameLap. rewrite Hlap.
  apply Z.ltb_lt in Hrecent. apply Z.eqb_eq in Heq.
  rewrite Hrecent, Heq. simpl. now rewrite andb_false_r.
Qed.

(** A candidate that differs from the ledger entry is evaluated, within
    the window too. Ledger entries hold positive laps: the one write of
    the ledger comes after the candidate check. *)
Lemma processBestLap_not_throttled d s last lapTime :
  lastProcessedLap s !! pilotKeyOf d = Some last ->
  0 < LastProcessed.lap last ->
  candidate d = Some lapTime ->
  0 < lapTime ->
  LastProcessed.lap last <> lapTime ->
  evaluates d s = true.
Proof.
  intros Hlast Hledger Hc Hpos Hne. unfold evaluates. rewrite Hc, Hlast.
  assert (Ht : truthy (Some lapTime) = true).
  { simpl. apply negb_true_iff, Z.eqb_neq. lia. }
  rewrite Ht. apply Z.leb_gt in Hpos. rewrite Hpos. simpl.
  apply negb_true_iff. unfold throttles, sameLap.
  destruct (Types.bestLap d) as [v|] eqn:Hv; [|apply andb_false_r].
  assert (LastProcessed.lap last <> v) as Hv'.
  { unfold candidate, or_else in Hc. rewrite Hv in Hc.
    destruct (truthy (Some v)) eqn:Hz; [congruence|].
    simpl in Hz. apply negb_false_iff, Z.eqb_eq in Hz. lia. }
  apply Z.eqb_neq in Hv'. rewrite Hv'. apply andb_false_r.
Qed.

(** C1, on the code.  A producer that reports its best lap in [bestTime]
    sends the same value twice, one second apart. The first call wrote
    the ledger; the second finds the entry, recent and equal to its
    candidate, and is processed all the same: the ledger is written again
    and the cache is read. With the value in [bestLap] the second call
    changes nothing. *)
Theorem throttle_misses_bestTime :
  let d := Scenario.ana None (Some 90000) in
  let s := Scenario.afterFirst d in
  let s' := exec (processBestLap d) s in
  let d2 := Scenario.ana (Some 90000) None in
  candidate d = Some 90000
  /\ lastProcessedLap s !! pilotKeyOf d
     = Some {| LastProcessed.lap := 90000; LastProcessed.timestamp := 1000 |}
  /\ clock s - 1000 < MIN_PROCESS_INTERVAL_MS
  /\ lastProcessedLap s' !! pilotKeyOf d
     = Some {| LastProcessed.lap := 90000; LastProcessed.timestamp := 2000 |}
  /\ accesses s' = accesses s ++ [CacheHas "Cup A"; CacheGet "Cup A"]
  /\ s' <> s
  /\ processBestLap d2 (Scenario.afterFirst d2)
     = (Returned tt, Scenario.afterFirst d2).
Proof.
  assert (Hs' : lastProcessedLap
                  (exec (processBestLap (Scenario.ana None (Some 90000)))
                     (Scenario.afterFirst (Scenario.ana None (Some 90000))))
                !! pilotKeyOf (Scenario.ana None (Some 90000))
                = Some {| LastProcessed.lap := 90000;
                          LastProcessed.timestamp := 2000 |})
    by (vm_compute; reflexivity).
  assert (Hs : lastProcessedLap
                 (Scenario.afterFirst (Scenario.ana None (Some 90000)))
               !! pilotKeyOf (Scenario.ana None (Some 90000))
               = Some {| LastProcessed.lap := 90000;
                         LastProcessed.timestamp := 1000 |})
    by (vm_compute; reflexivity).
  cbv zeta.
  split; [vm_compute; reflexivity|].
  split; [exact Hs|].
  split; [vm_compute; reflexivity|].
  split; [exact Hs'|].
  split; [vm_compute; reflexivity|].
  split.
  - intros Heq. rewrite Heq, Hs in Hs'. discriminate Hs'.
  - apply processBestLap_throttled
      with (last := {| LastProcessed.lap := 90000;
                       LastProcessed.timestamp := 1000 |})
           (lapTime := 90000);
      vm_compute; reflexivity.
Qed.

(** ** The improvement decision *)

Lemma saveEventData_exec e d s :
  let s' := exec (saveEventData e d) s in
  eventCache s' = <[e := Table d]> (eventCache s)
  /\ pendingWrites s' = <[sanitizeEventName e := nextTimer s]> (pendingWrites s)
  /\ timers s'
     = <[nextTimer s := scheduled e d s]>
         (match pendingWrites s !! sanitizeEventName e with
          | Some handle => delete handle (timers s)
          | None => timers s
          end)
  /\ nextTimer s' = S (nextTimer s)
  /\ files s' = files s /\ written s' = written s /\ clock s' = clock s
  /\ lastProcessedLap s' = lastProcessedLap s
  /\ unwritable s' = unwritable s
  /\ accesses s' = accesses s ++ [CacheSet e].
Proof. unfold exec. rewrite saveEventData_run. now repeat split. Qed.

Lemma loaded_cached e v s : eventCache s !! e = Some v -> loaded e s = v.
Proof. unfold loaded. now intros ->. Qed.

Lemma tableOf_cached e d s :
  eventCache s !! e = Some (Table d) -> tableOf e s = Some d.
Proof. unfold tableOf, loaded. now intros ->. Qed.

Lemma improved_changes d lapTime now table :
  improves (pilots table !! Types.pilot_name d) lapTime ->
  improved d lapTime now table <> table.
Proof.
  intros Himp Heq.
  assert (Hp : pilots table !! Types.pilot_name d
               = Some (newRecord d lapTime now)).
  { rewrite <- Heq at 1. simpl. apply lookup_insert_eq. }
  destruct Himp as [Hn|(r & Hr & Hlt)]; [congruence|].
  rewrite Hp in Hr. injection Hr as <-. simpl in Hlt. lia.
Qed.

(** The decision for a pilot whose name is no property of
    [Object.prototype], where the event's loaded value has pilots to look
    among: the candidate is accepted exactly when the pilot has no record
    in the event's table or the candidate is strictly below the recorded
    best. On acceptance the record is replaced by one made of the current
    call's values, the table's [lastUpdated] is the instant of the call,
    the other pilots keep their records, and the table is handed to
    [saveEventData]: it is in the cache and a write of it is scheduled.
    Otherwise the table, the timers and the files are as before. *)
Lemma processBestLap_decision d s lapTime :
  evaluates d s = true ->
  candidate d = Some lapTime ->
  usable (eventNameOf d) s ->
  inherited (Types.pilot_name d) = false ->
  let e := eventNameOf d in
  let p := Types.pilot_name d in
  let s' := exec (processBestLap d) s in
  (improves (recordOf e p s) lapTime ->
     tableOf e s' = Some (improved d lapTime (clock s) (consulted e s))
     /\ tableOf e s' <> tableOf e s
     /\ recordOf e p s'
        = Some {| pilotName := p; bestLapTime := lapTime;
                  car := Types.car d; track := Types.track d;
                  timestamp := clock s; simNum := Types.simNum d |}
     /\ lastUpdated <$> tableOf e s' = Some (clock s)
     /\ (forall q, q <> p -> recordOf e q s' = recordOf e q s)
     /\ pendingWrites s' !! sanitizeEventName e = Some (nextTimer s)
     /\ timers s' !! nextTimer s
        = Some (scheduled e (improved d lapTime (clock s) (consulted e s)) s))
  /\ (~ improves (recordOf e p s) lapTime ->
     tableOf e s' = tableOf e s
     /\ pendingWrites s' = pendingWrites s
     /\ timers s' = timers s
     /\ files s' = files s).
Proof.
  intros Hev Hc Hu Hp e p s'. subst s'. unfold exec.
  rewrite (processBestLap_decides d s lapTime Hev Hc Hu). cbv zeta.
  fold e p.
  set (st := exec (loadEventData e) (ledgered d lapTime s)).
  destruct (loadEventData_frame e (ledgered d lapTime s))
    as (Hpw & Htm & Hnt & Hfl & Hwr & Hck & _ & _).
  fold st in Hpw, Htm, Hnt, Hfl, Hwr, Hck. simpl in Hpw, Htm, Hnt, Hfl, Hck.
  split.
  - intros Himp. pose proof Himp as Hsu.
    apply (improves_shouldUpdate e p s lapTime Hp) in Hsu. rewrite Hsu.
    set (table := improved d lapTime (clock s) (consulted e s)).
    destruct (saveEventData_exec e table st)
      as (Hc' & Hpw' & Htm' & _). unfold exec in Hc', Hpw', Htm'.
    assert (Htab : tableOf e (snd (saveEventData e table st)) = Some table).
    { apply tableOf_cached. rewrite Hc'. apply lookup_insert_eq. }
    assert (Hcons : forall q, pilots (consulted e s) !! q = recordOf e q s)
      by (intros q; apply consulted_record).
    repeat split.
    + exact Htab.
    + rewrite Htab. intros Heq.
      apply (improved_changes d lapTime (clock s) (consulted e s)).
      * fold p. now rewrite Hcons.
      * fold table. unfold consulted. rewrite <- Heq. reflexivity.
    + unfold recordOf. rewrite Htab. simpl. apply lookup_insert_eq.
    + now rewrite Htab.
    + intros q Hq. unfold recordOf at 1. rewrite Htab. simpl.
      rewrite lookup_insert_ne
        by (intros Heq; apply Hq; symmetry; exact Heq).
      apply Hcons.
    + rewrite Hpw', Hnt. apply lookup_insert_eq.
    + rewrite Htm', Hnt. rewrite lookup_insert_eq. unfold scheduled.
      now rewrite Hck.
  - intros Hno.
    destruct (shouldUpdate (existing e p s) lapTime) eqn:Hsu.
    + exfalso. apply Hno. now apply (improves_shouldUpdate e p s lapTime Hp).
    + simpl. repeat split; try assumption.
      subst st. now rewrite tableOf_loadEventData.
Qed.

(** C2, on the code.  A pilot called [toString] sends a valid lap to a
    tracker that has seen nothing.  The call reaches the improvement
    decision and no record exists for the pilot, so the candidate is to
    be accepted; but the lookup of the pilot's record finds the method
    every object inherits, and the candidate is rejected: nothing is
    cached, no write is scheduled, and a faster lap later fares no
    better.  The same sample under the name Ana is recorded. *)
Theorem prototype_named_pilot_not_recorded :
  let d := Scenario.entry "Cup A" "toString" 90000 in
  let s := initial 1000 in
  let s' := exec (processBestLap d) s in
  evaluates d s = true
  /\ candidate d = Some 90000
  /\ recordOf "Cup A" "toString" s = None
  /\ existing "Cup A" "toString" s = Inherited
  /\ processBestLap d s
     = (Returned tt,
        exec (loadEventData "Cup A") (ledgered d 90000 s))
  /\ recordOf "Cup A" "toString" s' = None
  /\ eventCache s' !! "Cup A"%string = None
  /\ pendingWrites s' !! "cup-a"%string = None
  /\ timers s' !! 0%nat = None
  /\ recordOf "Cup A" "toString"
       (replay [(7000, Scenario.entry "Cup A" "toString" 80000)] s') = None
  /\ recordOf "Cup A" "Ana"
       (exec (processBestLap (Scenario.entry "Cup A" "Ana" 90000)) s)
     = Some {| pilotName := "Ana"; bestLapTime := 90000;
               car := "Porsche 911"; track := "Monza";
               timestamp := 1000; simNum := 3 |}.
Proof.
  cbv zeta.
  assert (He : evaluates (Scenario.entry "Cup A" "toString" 90000)
                 (initial 1000) = true) by (vm_compute; reflexivity).
  assert (Hc : candidate (Scenario.entry "Cup A" "toString" 90000)
               = Some 90000) by reflexivity.
  split; [exact He|]. split; [exact Hc|].
  split; [vm_compute; reflexivity|].
  split; [vm_compute; reflexivity|].
  split.
  { rewrite (processBestLap_run _ _ 90000 He Hc). vm_compute. reflexivity. }
  repeat split; vm_compute; reflexivity.
Qed.

(** ** Timers *)

Lemma writeCallback_run f e d s :
  writeCallback f e d s = (Returned tt, writtenBack f d s).
Proof.
  unfold writeCallback, ensureDataDirectory, fs_writeFile, writtenBack,
    try_catch, bind, modify, gets, ret, throw. simpl.
  destruct (bool_decide (f ∈ unwritable s)); reflexivity.
Qed.

Lemma fire_run h s :
  fire h s =
  match timers s !! h with
  | Some t =>
      if due t <=? clock s
      then writtenBack (filename t) (payload t) (set_timers (delete h) s)
      else s
  | None => s
  end.
Proof.
  unfold fire. destruct (timers s !! h) as [t|]; [|reflexivity].
  destruct (due t <=? clock s); [|reflexivity].
  unfold exec. now rewrite writeCallback_run.
Qed.

Lemma writtenBack_frame f d s :
  let s' := writtenBack f d s in
  eventCache s' = eventCache s /\ lastProcessedLap s' = lastProcessedLap s
  /\ clock s' = clock s /\ accesses s' = accesses s
  /\ unwritable s' = unwritable s /\ nextTimer s' = nextTimer s
  /\ timers s' = timers s.
Proof.
  unfold writtenBack. destruct (bool_decide (f ∈ unwritable s));
    now repeat split.
Qed.

Lemma writtenBack_other f g d s :
  g <> f ->
  let s' := writtenBack g d s in
  files s' !! f = files s !! f /\ written s' !! f = written s !! f
  /\ pendingWrites s' !! f = pendingWrites s !! f.
Proof.
  intros Hne. unfold writtenBack.
  destruct (bool_decide (g ∈ unwritable s)); simpl;
    rewrite ?lookup_insert_ne, ?lookup_delete_ne by exact Hne;
    now repeat split.
Qed.

Lemma writtenBack_same f d s :
  let s' := writtenBack f d s in
  written s' !!! f = written s !!! f ++ [Table d]
  /\ files s' !! f = (if bool_decide (f ∈ unwritable s) then files s !! f
                      else Some (Document d))
  /\ pendingWrites s' !! f = (if bool_decide (f ∈ unwritable s)
                              then pendingWrites s !! f else None).
Proof.
  unfold writtenBack.
  destruct (bool_decide (f ∈ unwritable s)); simpl;
    rewrite ?lookup_total_insert_eq, ?lookup_insert_eq, ?lookup_delete_eq;
    now repeat split.
Qed.

Lemma fire_frame h s :
  let s' := fire h s in
  eventCache s' = eventCache s /\ lastProcessedLap s' = lastProcessedLap s
  /\ clock s' = clock s /\ accesses s' = accesses s
  /\ unwritable s' = unwritable s /\ nextTimer s' = nextTimer s.
Proof.
  cbv zeta. rewrite fire_run.
  destruct (timers s !! h) as [t|]; [|now repeat split].
  destruct (due t <=? clock s); [|now repeat split].
  destruct (writtenBack_frame (filename t) (payload t)
              (set_timers (delete h) s)) as (H1 & H2 & H3 & H4 & H5 & H6 & _).
  now repeat split.
Qed.

Lemma fire_timers h s h' :
  timers (fire h s) !! h' = timers s !! h'
  \/ (h' = h /\ timers (fire h s) !! h' = None
      /\ exists t, timers s !! h = Some t /\ due t <= clock s).
Proof.
  rewrite fire_run. destruct (timers s !! h) as [t|] eqn:Ht; [|now left].
  destruct (due t <=? clock s) eqn:Hdue; [|now left].
  destruct (writtenBack_frame (filename t) (payload t)
              (set_timers (delete h) s)) as (_ & _ & _ & _ & _ & _ & ->).
  simpl. destruct (decide (h' = h)) as [->|Hne].
  - right. rewrite lookup_delete_eq. apply Z.leb_le in Hdue. eauto.
  - left. now rewrite lookup_delete_ne.
Qed.

Lemma fire_timers_held h s h' t :
  timers (fire h s) !! h' = Some t -> timers s !! h' = Some t.
Proof.
  destruct (fire_timers h s h') as [->|(_ & -> & _)]; [auto|discriminate].
Qed.

Lemma fire_quiet f h s :
  (forall t, timers s !! h = Some t -> filename t = f -> clock s < due t) ->
  files (fire h s) !! f = files s !! f
  /\ written (fire h s) !! f = written s !! f
  /\ pendingWrites (fire h s) !! f = pendingWrites s !! f.
Proof.
  intros Hq. rewrite fire_run.
  destruct (timers s !! h) as [t|] eqn:Ht; [|now repeat split].
  destruct (due t <=? clock s) eqn:Hdue; [|now repeat split].
  apply Z.leb_le in Hdue.
  destruct (decide (filename t = f)) as [Hf|Hf].
  - specialize (Hq t eq_refl Hf). lia.
  - apply (writtenBack_other f (filename t) (payload t)
             (set_timers (delete h) s) Hf).
Qed.

Lemma fireAll_frame hs s :
  let s' := fireAll hs s in
  eventCache s' = eventCache s /\ lastProcessedLap s' = lastProcessedLap s
  /\ clock s' = clock s /\ accesses s' = accesses s
  /\ unwritable s' = unwritable s /\ nextTimer s' = nextTimer s.
Proof.
  revert s. induction hs as [|h hs IH]; intros s; [now repeat split|].
  simpl. destruct (IH (fire h s)) as (H1 & H2 & H3 & H4 & H5 & H6).
  destruct (fire_frame h s) as (G1 & G2 & G3 & G4 & G5 & G6).
  repeat split; congruence.
Qed.

Lemma fireAll_timers_held hs s h t :
  timers (fireAll hs s) !! h = Some t -> timers s !! h = Some t.
Proof.
  revert s. induction hs as [|k hs IH]; intros s; [auto|].
  simpl. intros H. eapply fire_timers_held, IH, H.
Qed.

(** Timers that are not due leave their file alone and stay held. *)
Lemma fireAll_quiet f hs s :
  (forall h t, timers s !! h = Some t -> filename t = f -> clock s < due t) ->
  files (fireAll hs s) !! f = files s !! f
  /\ written (fireAll hs s) !! f = written s !! f
  /\ pendingWrites (fireAll hs s) !! f = pendingWrites s !! f
  /\ (forall h t, timers s !! h = Some t -> filename t = f ->
                  timers (fireAll hs s) !! h = Some t).
Proof.
  revert s. induction hs as [|k hs IH]; intros s Hq; [now repeat split|].
  simpl. destruct (fire_frame k s) as (_ & _ & Hck & _).
  destruct (fire_quiet f k s (Hq k)) as (F1 & F2 & F3).
  assert (Hq' : forall h t, timers (fire k s) !! h = Some t ->
                            filename t = f -> clock (fire k s) < due t).
  { intros h t Ht Hf. rewrite Hck. eapply Hq; eauto using fire_timers_held. }
  destruct (IH (fire k s) Hq') as (G1 & G2 & G3 & G4).
  repeat split; try congruence.
  intros h t Ht Hf. apply G4; [|exact Hf].
  destruct (fire_timers k s h) as [->|(-> & _ & t' & Ht' & Hdue)]; [exact Ht|].
  assert (t' = t) as -> by congruence.
  specialize (Hq k t Ht Hf). lia.
Qed.

(** The one timer held for a file, when due, writes its payload once. *)
Lemma fireAll_due f hs s h t :
  NoDup hs -> h ∈ hs ->
  timers s !! h = Some t -> filename t = f -> due t <= clock s ->
  (forall h' t', timers s !! h' = Some t' -> filename t' = f -> h' = h) ->
  written (fireAll hs s) !!! f = written s !!! f ++ [Table (payload t)]
  /\ files (fireAll hs s) !! f
     = (if bool_decide (f ∈ unwritable s) then files s !! f
        else Some (Document (payload t)))
  /\ pendingWrites (fireAll hs s) !! f
     = (if bool_decide (f ∈ unwritable s) then pendingWrites s !! f else None)
  /\ (forall h' t', timers (fireAll hs s) !! h' = Some t' -> filename t' <> f).
Proof.
  revert s. induction hs as [|k hs IH]; intros s Hnd Hin Ht Hf Hdue Hsole.
  { now apply elem_of_nil in Hin. }
  apply NoDup_cons in Hnd as [Hk Hnd]. simpl.
  destruct (decide (k = h)) as [->|Hne].
  - assert (Hfire : fire h s
                    = writtenBack f (payload t) (set_timers (delete h) s)).
    { rewrite fire_run, Ht. apply Z.leb_le in Hdue. now rewrite Hdue, Hf. }
    assert (Hnone : forall h' t', timers (fire h s) !! h' = Some t' ->
                                  filename t' <> f).
    { intros h' t' Ht' Hf'.
      destruct (fire_timers h s h') as [E|(-> & E & _)]; [|congruence].
      rewrite E in Ht'. specialize (Hsole h' t' Ht' Hf') as ->.
      rewrite Hfire in E. 
      destruct (writtenBack_frame f (payload t) (set_timers (delete h) s))
        as (_ & _ & _ & _ & _ & _ & Htm).
      rewrite Htm in E. simpl in E. rewrite lookup_delete_eq in E.
      congruence. }
    destruct (fireAll_quiet f hs (fire h s)) as (G1 & G2 & G3 & _).
    { intros h' t' Ht' Hf'. now destruct (Hnone h' t' Ht'). }
    destruct (writtenBack_same f (payload t) (set_timers (delete h) s))
      as (W1 & W2 & W3).
    rewrite <- Hfire in W1, W2, W3. simpl in W1, W2, W3.
    split; [|split; [|split]].
    + rewrite lookup_total_alt, G2, <- lookup_total_alt. exact W1.
    + now rewrite G1.
    + now rewrite G3.
    + intros h' t' Ht'. apply (Hnone h' t').
      eapply fireAll_timers_held, Ht'.
  - apply elem_of_cons in Hin as [->|Hin]; [congruence|].
    destruct (fire_frame k s) as (_ & _ & Hck & _ & Hun & _).
    destruct (fire_quiet f k s) as (F1 & F2 & F3).
    { intros t' Ht' Hf'. now specialize (Hsole k t' Ht' Hf'). }
    destruct (IH (fire k s)) as (G1 & G2 & G3 & G4); auto.
    + destruct (fire_timers k s h) as [->|(-> & _)]; [exact Ht|congruence].
    + now rewrite Hck.
    + intros h' t' Ht' Hf'. eapply Hsole; eauto using fire_timers_held.
    + rewrite Hun in G2, G3.
      split; [|split; [|split]]; [| | |exact G4].
      * rewrite G1. now rewrite !lookup_total_alt, F2.
      * rewrite G2, F1. reflexivity.
      * rewrite G3, F3. reflexivity.
Qed.

Lemma firingOrder_elem held h : h ∈ firingOrder held <-> is_Some (held !! h).
Proof.
  unfold firingOrder.
  rewrite (merge_sort_Permutation firesBefore (map_to_list held)).
  rewrite list_elem_of_fmap. split.
  - intros ([h' t] & -> & Hin). apply elem_of_map_to_list in Hin. eauto.
  - intros [t Ht]. exists (h, t). split; [reflexivity|].
    now apply elem_of_map_to_list.
Qed.

Lemma firingOrder_NoDup held : NoDup (firingOrder held).
Proof.
  unfold firingOrder.
  rewrite (merge_sort_Permutation firesBefore (map_to_list held)).
  apply NoDup_fst_map_to_list.
Qed.

Lemma advance_frame now s :
  let s' := advance now s in
  eventCache s' = eventCache s /\ lastProcessedLap s' = lastProcessedLap s
  /\ clock s' = now /\ accesses s' = accesses s
  /\ unwritable s' = unwritable s /\ nextTimer s' = nextTimer s.
Proof.
  unfold advance.
  destruct (fireAll_frame (firingOrder (timers s)) (set_clock (fun _ => now) s))
    as (H1 & H2 & H3 & H4 & H5 & H6).
  now repeat split.
Qed.

Lemma advance_timers_held now s h t :
  timers (advance now s) !! h = Some t -> timers s !! h = Some t.
Proof. unfold advance. intros H. now apply fireAll_timers_held in H. Qed.

Lemma advance_quiet f now s :
  (forall h t, timers s !! h = Some t -> filename t = f -> now < due t) ->
  files (advance now s) !! f = files s !! f
  /\ written (advance now s) !! f = written s !! f
  /\ pendingWrites (advance now s) !! f = pendingWrites s !! f
  /\ (forall h t, timers s !! h = Some t -> filename t = f ->
                  timers (advance now s) !! h = Some t).
Proof.
  intros Hq. unfold advance.
  apply (fireAll_quiet f (firingOrder (timers s))
           (set_clock (fun _ => now) s) Hq).
Qed.

Lemma soleTimer_unique f s h h' t t' :
  soleTimer f s ->
  timers s !! h = Some t -> filename t = f ->
  timers s !! h' = Some t' -> filename t' = f ->
  h' = h.
Proof.
  intros Hsole Ht Hf Ht' Hf'.
  pose proof (Hsole h t Ht Hf). pose proof (Hsole h' t' Ht' Hf'). congruence.
Qed.

Lemma advance_due f now s h t :
  soleTimer f s ->
  timers s !! h = Some t -> filename t = f -> due t <= now ->
  written (advance now s) !!! f = written s !!! f ++ [Table (payload t)]
  /\ files (advance now s) !! f
     = (if bool_decide (f ∈ unwritable s) then files s !! f
        else Some (Document (payload t)))
  /\ pendingWrites (advance now s) !! f
     = (if bool_decide (f ∈ unwritable s) then pendingWrites s !! f else None)
  /\ (forall h' t', timers (advance now s) !! h' = Some t' -> filename t' <> f).
Proof.
  intros Hsole Ht Hf Hdue. unfold advance.
  apply (fireAll_due f (firingOrder (timers s))
           (set_clock (fun _ => now) s) h t); auto.
  - apply firingOrder_NoDup.
  - apply firingOrder_elem. eauto.
  - intros h' t' Ht' Hf'. eapply soleTimer_unique; eauto.
Qed.

Lemma soleTimer_initial f now : soleTimer f (initial now).
Proof. intros h t Ht. simpl in Ht. now rewrite lookup_empty in Ht. Qed.

(** ** [soleTimer] holds of every state the tracker reaches *)

Lemma soleTimer_fire f h s : soleTimer f s -> soleTimer f (fire h s).
Proof.
  intros Hsole. rewrite fire_run.
  destruct (timers s !! h) as [t|] eqn:Ht; [|exact Hsole].
  destruct (due t <=? clock s); [|exact Hsole].
  intros h' t' Ht' Hf'.
  destruct (writtenBack_frame (filename t) (payload t)
              (set_timers (delete h) s)) as (_ & _ & _ & _ & _ & _ & Htm).
  rewrite Htm in Ht'. simpl in Ht'.
  destruct (decide (h' = h)) as [->|Hne];
    [now rewrite lookup_delete_eq in Ht'|].
  rewrite lookup_delete_ne in Ht' by congruence.
  pose proof (Hsole h' t' Ht' Hf') as Hreg.
  destruct (decide (filename t = f)) as [Hf|Hf].
  - pose proof (Hsole h t Ht Hf). congruence.
  - destruct (writtenBack_other f (filename t) (payload t)
                (set_timers (delete h) s) Hf) as (_ & _ & ->).
    exact Hreg.
Qed.

Lemma soleTimer_fireAll f hs s : soleTimer f s -> soleTimer f (fireAll hs s).
Proof.
  revert s. induction hs as [|h hs IH]; intros s Hsole; [exact Hsole|].
  simpl. apply IH, soleTimer_fire, Hsole.
Qed.

Lemma soleTimer_advance f now s : soleTimer f s -> soleTimer f (advance now s).
Proof. intros Hsole. unfold advance. now apply soleTimer_fireAll. Qed.

Lemma soleTimer_frame f s s' :
  pendingWrites s' = pendingWrites s -> timers s' = timers s ->
  soleTimer f s -> soleTimer f s'.
Proof. intros Hpw Htm Hsole h t. rewrite Hpw, Htm. apply Hsole. Qed.

Lemma soleTimer_saveEventData f e d s :
  soleTimer f s -> soleTimer f (exec (saveEventData e d) s).
Proof.
  intros Hsole.
  destruct (saveEventData_exec e d s) as (_ & Hpw & Htm & _).
  intros h t Ht Hf. rewrite Hpw. rewrite Htm in Ht.
  destruct (decide (h = nextTimer s)) as [->|Hne].
  - rewrite lookup_insert_eq in Ht. injection Ht as <-. simpl in Hf.
    subst f. apply lookup_insert_eq.
  - rewrite lookup_insert_ne in Ht by congruence.
    assert (Hheld : timers s !! h = Some t).
    { destruct (pendingWrites s !! sanitizeEventName e) as [old|];
        [|exact Ht].
      destruct (decide (h = old)) as [->|Hne'];
        [now rewrite lookup_delete_eq in Ht|].
      now rewrite lookup_delete_ne in Ht by congruence. }
    pose proof (Hsole h t Hheld Hf) as Hreg.
    destruct (decide (sanitizeEventName e = f)) as [He|He].
    + exfalso. rewrite He in Ht. rewrite Hreg in Ht.
      now rewrite lookup_delete_eq in Ht.
    + now rewrite lookup_insert_ne.
Qed.

Lemma soleTimer_loadEventData f e s :
  soleTimer f s -> soleTimer f (exec (loadEventData e) s).
Proof.
  destruct (loadEventData_frame e s) as (Hpw & Htm & _).
  now apply soleTimer_frame.
Qed.

Lemma soleTimer_processBestLap f d s :
  soleTimer f s -> soleTimer f (exec (processBestLap d) s).
Proof.
  intros Hsole. destruct (evaluates d s) eqn:Hev.
  - destruct (evaluates_candidate d s Hev) as (lapTime & Hc & _).
    assert (Hl : soleTimer f (exec (loadEventData (eventNameOf d))
                                (ledgered d lapTime s)))
      by now apply soleTimer_loadEventData.
    destruct (processBestLap_exec_cases d s lapTime Hev Hc)
      as [->|(_ & _ & ->)]; [exact Hl|].
    now apply soleTimer_saveEventData.
  - unfold exec. now rewrite (processBestLap_skip d s Hev).
Qed.

Lemma soleTimer_invalidateCache f x s :
  soleTimer f s -> soleTimer f (exec (invalidateCache x) s).
Proof.
  destruct x as [name|]; simpl; [|now apply soleTimer_frame].
  destruct (String.eqb name ""); now apply soleTimer_frame.
Qed.

Lemma soleTimer_happen f h s : soleTimer f s -> soleTimer f (happen h s).
Proof.
  destruct h as [now|data|x|e|e]; simpl.
  - apply soleTimer_advance.
  - apply soleTimer_processBestLap.
  - apply soleTimer_invalidateCache.
  - intros Hsole. unfold reloadEventData, exec, bind, ret.
    pose proof (soleTimer_invalidateCache f (Some e) s Hsole) as H1.
    unfold exec in H1. destruct (invalidateCache (Some e) s) as [[[]|ex] s1];
      [|exact H1].
    pose proof (soleTimer_loadEventData f e s1 H1) as H2. unfold exec in H2.
    simpl in *. now destruct (loadEventData e s1) as [[o|ex] s2].
  - apply soleTimer_loadEventData.
Qed.

(** Whatever has happened since the tracker started, every timer the
    loop holds for a file is the one [pendingWrites] has for it. *)
Lemma soleTimer_reached f history now :
  soleTimer f (after history (initial now)).
Proof.
  unfold after. generalize (soleTimer_initial f now).
  generalize (initial now).
  induction history as [|h history IH]; intros s Hs; [exact Hs|].
  simpl. apply IH, soleTimer_happen, Hs.
Qed.

(** ** [saveEventData] arms one timer per file *)

Lemma saveEventData_arms e d s :
  soleTimer (sanitizeEventName e) s ->
  armedWith (sanitizeEventName e) d (exec (saveEventData e d) s).
Proof.
  intros Hsole.
  destruct (saveEventData_exec e d s)
    as (_ & Hpw & Htm & _ & _ & _ & Hck & _).
  split.
  - intros h t Ht Hf. rewrite Hpw, lookup_insert_eq. f_equal.
    rewrite Htm in Ht.
    destruct (decide (h = nextTimer s)) as [->|Hne]; [reflexivity|].
    rewrite lookup_insert_ne in Ht by congruence. exfalso.
    destruct (pendingWrites s !! sanitizeEventName e) as [old|] eqn:Hold.
    + destruct (decide (h = old)) as [->|Hne'].
      * rewrite lookup_delete_eq in Ht. discriminate.
      * rewrite lookup_delete_ne in Ht by congruence.
        specialize (Hsole h t Ht Hf). congruence.
    + specialize (Hsole h t Ht Hf). congruence.
  - exists (nextTimer s), (scheduled e d s).
    rewrite Hpw, Htm, Hck, !lookup_insert_eq. now repeat split.
Qed.

Lemma armedWith_advance_quiet f d now s :
  armedWith f d s -> now < clock s + WRITE_DEBOUNCE_MS ->
  soleTimer f (advance now s)
  /\ files (advance now s) !! f = files s !! f
  /\ written (advance now s) !! f = written s !! f.
Proof.
  intros (Hsole & h & t & Hh & Ht & Hf & _ & Hdue) Hnow.
  destruct (advance_quiet f now s) as (F1 & F2 & F3 & F4).
  { intros h' t' Ht' Hf'.
    assert (h' = h) as -> by (eapply soleTimer_unique; eauto).
    assert (t' = t) as -> by congruence. lia. }
  split; [|now split].
  intros h' t' Ht' Hf'. rewrite F3. apply (Hsole h' t'); [|exact Hf'].
  eapply advance_timers_held, Ht'.
Qed.

Lemma burst_arms e updates :
  forall d s,
    armedWith (sanitizeEventName e) d s ->
    spaced (clock s) updates ->
    let s' := burst e updates s in
    armedWith (sanitizeEventName e) (lastData d updates) s'
    /\ clock s' = lastInstant (clock s) updates
    /\ files s' !! sanitizeEventName e = files s !! sanitizeEventName e
    /\ written s' !! sanitizeEventName e = written s !! sanitizeEventName e
    /\ unwritable s' = unwritable s.
Proof.
  induction updates as [|[now d'] rest IH]; intros d s Harmed Hsp.
  { simpl. split; [exact Harmed|now repeat split]. }
  destruct Hsp as [[_ Hlt] Hsp]. simpl.
  destruct (armedWith_advance_quiet _ d now s Harmed Hlt) as (Hsole & F1 & F2).
  destruct (advance_frame now s) as (_ & _ & Hck & _ & Hun & _).
  set (s1 := advance now s) in *.
  destruct (saveEventData_exec e d' s1)
    as (_ & _ & _ & _ & Hfl & Hwr & Hck' & _ & Hun' & _).
  pose proof (saveEventData_arms e d' s1 Hsole) as Harmed'.
  set (s2 := exec (saveEventData e d') s1) in *.
  destruct (IH d' s2 Harmed') as (G1 & G2 & G3 & G4 & G5).
  { now rewrite Hck', Hck. }
  split; [exact G1|]. rewrite G2, G3, G4, G5, Hck', Hck, Hfl, Hwr, Hun'.
  now repeat split.
Qed.

Lemma armedWith_advance_due f d now s :
  armedWith f d s -> clock s + WRITE_DEBOUNCE_MS <= now ->
  written (advance now s) !!! f = written s !!! f ++ [Table d]
  /\ files (advance now s) !! f
     = (if bool_decide (f ∈ unwritable s) then files s !! f
        else Some (Document d)).
Proof.
  intros (Hsole & h & t & Hh & Ht & Hf & Hd & Hdue) Hnow.
  destruct (advance_due f now s h t Hsole Ht Hf) as (W1 & W2 & _); [lia|].
  now rewrite Hd in W1, W2.
Qed.

(** C7.  [saveEventData] replaces the cache entry at once: the next
    [loadEventData] returns the new table from the cache, with no read
    of the disk. The timer that was pending for the event's file is
    dropped and a new one is held in its place, the only one for that
    file. And when further updates of the same event follow, each less
    than the quiet period after the one before, the file is written
    once, a quiet period after the last update, with the last update's
    data. *)
Theorem saveEventData_debounce e d updates s T :
  soleTimer (sanitizeEventName e) s ->
  spaced (clock s) updates ->
  lastInstant (clock s) updates + WRITE_DEBOUNCE_MS <= T ->
  let f := sanitizeEventName e in
  let s1 := exec (saveEventData e d) s in
  let sN := advance T (burst e updates s1) in
  loadEventData e s1
  = (Returned (Table d), note (CacheGet e) (note (CacheHas e) s1))
  /\ pendingWrites s1 !! f = Some (nextTimer s)
  /\ timers s1 !! nextTimer s = Some (scheduled e d s)
  /\ (forall h t, timers s1 !! h = Some t -> filename t = f ->
                  h = nextTimer s /\ t = scheduled e d s)
  /\ written sN !!! f = written s !!! f ++ [Table (lastData d updates)]
  /\ files sN !! f
     = (if bool_decide (f ∈ unwritable s) then files s !! f
        else Some (Document (lastData d updates))).
Proof.
  intros Hsole Hsp HT f s1 sN. subst f.
  destruct (saveEventData_exec e d s)
    as (Hc & Hpw & Htm & _ & Hfl & Hwr & Hck & _ & Hun & _).
  fold s1 in Hc, Hpw, Htm, Hfl, Hwr, Hck, Hun.
  pose proof (saveEventData_arms e d s Hsole) as Harmed. fold s1 in Harmed.
  assert (Hnew : timers s1 !! nextTimer s = Some (scheduled e d s))
    by (rewrite Htm; apply lookup_insert_eq).
  assert (Hreg : pendingWrites s1 !! sanitizeEventName e = Some (nextTimer s))
    by (rewrite Hpw; apply lookup_insert_eq).
  split; [|split; [exact Hreg|split; [exact Hnew|split]]].
  - rewrite loadEventData_run, Hc, lookup_insert_eq. reflexivity.
  - intros h t Ht Hf. destruct Harmed as [Hsole1 _].
    pose proof (Hsole1 h t Ht Hf) as Hh. rewrite Hreg in Hh.
    injection Hh as <-. split; [reflexivity|congruence].
  - destruct (burst_arms e updates d s1 Harmed) as (G1 & G2 & G3 & G4 & G5).
    { now rewrite Hck. }
    destruct (armedWith_advance_due (sanitizeEventName e)
                (lastData d updates) T (burst e updates s1) G1) as [W1 W2].
    { rewrite G2, Hck. exact HT. }
    fold sN in W1, W2. rewrite G5, Hun, G3, Hfl in W2.
    split; [|exact W2].
    rewrite W1. f_equal. now rewrite !lookup_total_alt, G4, Hwr.
Qed.

Lemma saveEventData_debounce_witness :
  soleTimer (sanitizeEventName "Cup A") (initial 1000)
  /\ spaced (clock (initial 1000)) Scenario.twoMore
  /\ lastInstant (clock (initial 1000)) Scenario.twoMore
     + WRITE_DEBOUNCE_MS <= 9000
  /\ written
       (advance 9000
          (burst "Cup A" Scenario.twoMore
             (exec (saveEventData "Cup A" (Scenario.cupA 1000 90000))
                (initial 1000))))
     !!! sanitizeEventName "Cup A"
     = written (initial 1000) !!! sanitizeEventName "Cup A"
       ++ [Table (lastData (Scenario.cupA 1000 90000) Scenario.twoMore)].
Proof.
  assert (H1 : soleTimer (sanitizeEventName "Cup A") (initial 1000))
    by apply soleTimer_initial.
  assert (H2 : spaced (clock (initial 1000)) Scenario.twoMore)
    by (simpl; unfold WRITE_DEBOUNCE_MS; lia).
  assert (H3 : lastInstant (clock (initial 1000)) Scenario.twoMore
               + WRITE_DEBOUNCE_MS <= 9000)
    by (simpl; unfold WRITE_DEBOUNCE_MS; lia).
  split; [exact H1|]. split; [exact H2|]. split; [exact H3|].
  exact (proj1 (proj2 (proj2 (proj2 (proj2
           (saveEventData_debounce "Cup A" (Scenario.cupA 1000 90000)
              Scenario.twoMore (initial 1000) 9000 H1 H2 H3)))))).
Defined.

Lemma invalidateCache_frame x s :
  let s' := exec (invalidateCache x) s in
  pendingWrites s' = pendingWrites s /\ timers s' = timers s
  /\ nextTimer s' = nextTimer s /\ files s' = files s
  /\ written s' = written s /\ clock s' = clock s
  /\ unwritable s' = unwritable s
  /\ lastProcessedLap s' = lastProcessedLap s.
Proof.
  destruct x as [name|]; simpl; [|now repeat split].
  destruct (String.eqb name ""); now repeat split.
Qed.

Lemma invalidateCache_evicts x e s :
  x = None \/ x = Some e ->
  eventCache (exec (invalidateCache x) s) !! e = None.
Proof.
  intros [->| ->]; simpl; [apply lookup_empty|].
  destruct (String.eqb e ""); simpl;
    [apply lookup_empty|apply lookup_delete_eq].
Qed.

Lemma armedWith_frame f d s s' :
  pendingWrites s' = pendingWrites s -> timers s' = timers s ->
  clock s' = clock s ->
  armedWith f d s -> armedWith f d s'.
Proof.
  intros Hpw Htm Hck (Hsole & h & t & H). split.
  - intros h' t'. rewrite Hpw, Htm. apply Hsole.
  - exists h, t. now rewrite Hpw, Htm, Hck.
Qed.

(** C10.  [invalidateCache], for one event or for the whole cache,
    leaves [pendingWrites] and the timers of the event loop as they are.
    So a write that [saveEventData] scheduled before the invalidation
    fires a quiet period after it was scheduled and writes the table it
    was scheduled with, though the cache entry is gone. *)
Theorem invalidateCache_keeps_pending_writes x e d s T :
  soleTimer (sanitizeEventName e) s ->
  clock s + WRITE_DEBOUNCE_MS <= T ->
  let f := sanitizeEventName e in
  let saved := exec (saveEventData e d) s in
  let invalidated := exec (invalidateCache x) saved in
  (forall s0, pendingWrites (exec (invalidateCache x) s0) = pendingWrites s0
              /\ timers (exec (invalidateCache x) s0) = timers s0)
  /\ (x = None \/ x = Some e -> eventCache invalidated !! e = None)
  /\ written (advance T invalidated) !!! f = written s !!! f ++ [Table d]
  /\ files (advance T invalidated) !! f
     = (if bool_decide (f ∈ unwritable s) then files s !! f
        else Some (Document d)).
Proof.
  intros Hsole HT f saved invalidated. subst f.
  split; [|split].
  - intros s0. destruct (invalidateCache_frame x s0) as (H1 & H2 & _).
    now split.
  - apply invalidateCache_evicts.
  - destruct (saveEventData_exec e d s)
      as (_ & _ & _ & _ & Hfl & Hwr & Hck & _ & Hun & _).
    fold saved in Hfl, Hwr, Hck, Hun.
    destruct (invalidateCache_frame x saved)
      as (Hpw' & Htm' & _ & Hfl' & Hwr' & Hck' & Hun' & _).
    fold invalidated in Hpw', Htm', Hfl', Hwr', Hck', Hun'.
    pose proof (saveEventData_arms e d s Hsole) as Harmed.
    fold saved in Harmed.
    apply (armedWith_frame _ d saved invalidated Hpw' Htm' Hck') in Harmed.
    destruct (armedWith_advance_due _ d T invalidated Harmed) as [W1 W2].
    { rewrite Hck', Hck. exact HT. }
    rewrite Hun', Hun, Hfl', Hfl in W2. rewrite Hwr', Hwr in W1.
    now split.
Qed.

Lemma invalidateCache_keeps_pending_writes_witness :
  soleTimer (sanitizeEventName "Cup A") (initial 1000)
  /\ clock (initial 1000) + WRITE_DEBOUNCE_MS <= 6000
  /\ written
       (advance 6000
          (exec (invalidateCache (Some "Cup A"%string))
             (exec (saveEventData "Cup A" (Scenario.cupA 1000 90000))
                (initial 1000))))
     !!! sanitizeEventName "Cup A"
     = written (initial 1000) !!! sanitizeEventName "Cup A"
       ++ [Table (Scenario.cupA 1000 90000)].
Proof.
  assert (H1 : soleTimer (sanitizeEventName "Cup A") (initial 1000))
    by apply soleTimer_initial.
  assert (H2 : clock (initial 1000) + WRITE_DEBOUNCE_MS <= 6000)
    by (simpl; unfold WRITE_DEBOUNCE_MS; lia).
  split; [exact H1|]. split; [exact H2|].
  exact (proj1 (proj2 (proj2
           (invalidateCache_keeps_pending_writes (Some "Cup A"%string)
              "Cup A" (Scenario.cupA 1000 90000) (initial 1000) 6000
              H1 H2)))).
Defined.

Example first_lap_recorded :
  recordOf "Cup A" "Ana"
    (exec (processBestLap (Scenario.ana (Some 90000) None)) (initial 1000))
  = Some {| pilotName := "Ana"; bestLapTime := 90000;
            car := "Ferrari 458"; track := "Interlagos";
            timestamp := 1000; simNum := 1 |}.
Proof.
  assert (H1 : evaluates (Scenario.ana (Some 90000) None) (initial 1000)
               = true) by reflexivity.
  assert (H2 : candidate (Scenario.ana (Some 90000) None) = Some 90000)
    by reflexivity.
  assert (H3 : usable "Cup A" (initial 1000)) by (intros name; discriminate).
  destruct (processBestLap_decision (Scenario.ana (Some 90000) None)
              (initial 1000) 90000 H1 H2 H3 eq_refl) as [Haccept _].
  apply Haccept. left. reflexivity.
Qed.

(** ** Sequences of calls for one pilot of one event *)









(** ** What a call offers, in the code's terms *)


Lemma offer_invalid now d :
  (forall lapTime, candidate d = Some lapTime -> lapTime <= 0) ->
  offer (now, d) = None.
Proof.
  intros H. unfold offer. simpl. rewrite <- candidate_worded.
  destruct (candidate d) as [lapTime|]; [|reflexivity].
  destruct (decide (0 < lapTime)) as [Hpos|]; [|reflexivity].
  specialize (H lapTime eq_refl). lia.
Qed.

















Example afternoon_records :
  bestLapTime <$> offers Scenario.afternoon
  = [90000; 90000; 90000; 88000; 95000]
  /\ bestLapTime <$> accepted Scenario.afternoon (initial 0)
     = [90000; 90000; 88000; 95000]
  /\ (car <$> recordOf "Cup A" "Ana"
                (replay (take 3 Scenario.afternoon) (initial 0)))
     = Some "Ferrari 458"%string
  /\ (bestLapTime <$> recordOf "Cup A" "Ana"
                        (replay Scenario.afternoon (initial 0)))
     = Some 88000.
Proof. vm_compute. repeat split. Qed.

End TrackerFacts.

(* ===================================================================== *)
(** * The event store: loading, reloading, flushing, watching             *)
(* ===================================================================== *)

Module StoreFacts.
Import Effect Effect.Notations Tracker.
Import Sanitize.
Import TrackerFacts.

#[local] Arguments sanitizeEventName : simpl never.
#[local] Arguments Z.add : simpl never.
#[local] Arguments Z.sub : simpl never.
#[local] Arguments Z.ltb : simpl never.
#[local] Arguments Z.leb : simpl never.
#[local] Arguments Z.eqb : simpl never.
#[local] Arguments String.eqb : simpl never.

Lemma loaded_uncached e s :
  eventCache s !! e = None -> loaded e s = unwrap (onDisk e s).
Proof. unfold loaded. now intros ->. Qed.

Lemma loadEventData_cached e s :
  is_Some (eventCache s !! e) \/ is_Some (onDisk e s) ->
  eventCache (exec (loadEventData e) s) !! e = Some (loaded e s).
Proof.
  unfold loaded, exec. rewrite loadEventData_run.
  destruct (eventCache s !! e) as [c|] eqn:Ec; [simpl; congruence|].
  destruct (onDisk e s) as [c|].
  - intros _. simpl. apply lookup_insert_eq.
  - intros [[c H]|[c H]]; discriminate H.
Qed.

Lemma loadEventData_keeps e s d :
  tableOf e s = Some d ->
  eventCache (exec (loadEventData e) s) !! e = Some (Table d).
Proof.
  unfold tableOf. intros H.
  destruct (loaded e s) as [table|] eqn:E; [|discriminate].
  injection H as ->. rewrite <- E. apply loadEventData_cached.
  unfold loaded in E.
  destruct (eventCache s !! e); [left; eauto|].
  destruct (onDisk e s); [right; eauto|discriminate E].
Qed.

(** X1.  [loadEventData] returns the cached value, or else what the
    event's file parses to (a table, or whatever other value), which it
    then caches, so that the next call answers from the cache without a
    read of the disk. When the file is missing or does not parse it
    returns [null] and caches nothing, and the next call reads the disk
    again. It never throws and never changes a file or a timer. *)
Theorem loadEventData_caches e s :
  let s1 := exec (loadEventData e) s in
  fst (loadEventData e s) = Returned (loaded e s)
  /\ match eventCache s !! e, onDisk e s with
     | None, None =>
         loaded e s = Other Null
         /\ eventCache s1 = eventCache s
         /\ accesses (exec (loadEventData e) s1)
            = accesses s1 ++ [CacheHas e; ReadFile (sanitizeEventName e)]
     | _, _ =>
         eventCache s1 !! e = Some (loaded e s)
         /\ loadEventData e s1
            = (Returned (loaded e s),
               note (CacheGet e) (note (CacheHas e) s1))
     end
  /\ files s1 = files s /\ timers s1 = timers s
  /\ pendingWrites s1 = pendingWrites s.
Proof.
  cbv zeta. split; [apply loadEventData_result|].
  destruct (loadEventData_frame e s) as (Hpw & Htm & _ & Hfl & _).
  split; [|now repeat split].
  unfold exec. rewrite loadEventData_run. unfold loaded.
  destruct (eventCache s !! e) as [d|] eqn:Ec.
  - simpl. rewrite loadEventData_run. simpl. rewrite Ec.
    now destruct (onDisk e s).
  - destruct (onDisk e s) as [d|] eqn:Ef; simpl.
    + rewrite loadEventData_run. simpl. rewrite lookup_insert_eq.
      now split.
    + rewrite loadEventData_run. simpl. rewrite Ec.
      change (onDisk e (note _ (note _ s))) with (onDisk e s).
      rewrite Ef. simpl.
      split; [reflexivity|]. split; [reflexivity|].
      now rewrite <- app_assoc.
Qed.

Lemma not_unwritable f s :
  f ∉ unwritable s -> bool_decide (f ∈ unwritable s) = false.
Proof. intros H. now apply bool_decide_eq_false. Qed.

(** X2.  Round trip through the disk: a table handed to [saveEventData]
    is in the event's file once the quiet period has passed, and after the
    cache is invalidated [loadEventData] reads that very table back. *)
Theorem save_write_reload_round_trip e d x s T :
  soleTimer (sanitizeEventName e) s ->
  sanitizeEventName e ∉ unwritable s ->
  clock s + WRITE_DEBOUNCE_MS <= T ->
  x = None \/ x = Some e ->
  let written := advance T (exec (saveEventData e d) s) in
  let s1 := exec (invalidateCache x) written in
  onDisk e written = Some (Table d)
  /\ eventCache s1 !! e = None
  /\ fst (loadEventData e s1) = Returned (Table d)
  /\ eventCache (exec (loadEventData e) s1) !! e = Some (Table d).
Proof.
  intros Hsole Hw HT Hx wr s1.
  pose proof (saveEventData_arms e d s Hsole) as Harmed.
  destruct (saveEventData_exec e d s)
    as (_ & _ & _ & _ & _ & _ & Hck & _ & Hun & _).
  destruct (armedWith_advance_due _ d T _ Harmed) as [_ Hfile];
    [rewrite Hck; exact HT|].
  rewrite Hun, (not_unwritable _ _ Hw) in Hfile. fold wr in Hfile.
  assert (Hdisk : onDisk e wr = Some (Table d))
    by (unfold onDisk; now rewrite Hfile).
  destruct (invalidateCache_frame x wr) as (_ & _ & _ & Hfl & _).
  fold s1 in Hfl.
  pose proof (invalidateCache_evicts x e wr Hx) as Hev. fold s1 in Hev.
  assert (Hload : loaded e s1 = Table d).
  { rewrite (loaded_uncached e s1 Hev). unfold onDisk in *. rewrite Hfl.
    now rewrite Hdisk. }
  split; [exact Hdisk|]. split; [exact Hev|].
  split; [now rewrite loadEventData_result, Hload|].
  apply loadEventData_keeps. unfold tableOf. now rewrite Hload.
Qed.

Lemma save_write_reload_round_trip_witness :
  soleTimer (sanitizeEventName "Cup A") (initial 1000)
  /\ (sanitizeEventName "Cup A" ∉ unwritable (initial 1000))
  /\ clock (initial 1000) + WRITE_DEBOUNCE_MS <= 6000
  /\ (Some "Cup A"%string = None \/ Some "Cup A"%string = Some "Cup A"%string)
  /\ fst (loadEventData "Cup A"
            (exec (invalidateCache (Some "Cup A"%string))
               (advance 6000
                  (exec (saveEventData "Cup A" (Scenario.cupA 1000 90000))
                     (initial 1000)))))
     = Returned (Table (Scenario.cupA 1000 90000)).
Proof.
  assert (H1 : soleTimer (sanitizeEventName "Cup A") (initial 1000))
    by apply soleTimer_initial.
  assert (H2 : sanitizeEventName "Cup A" ∉ unwritable (initial 1000))
    by (simpl; apply not_elem_of_empty).
  assert (H3 : clock (initial 1000) + WRITE_DEBOUNCE_MS <= 6000)
    by (simpl; unfold WRITE_DEBOUNCE_MS; lia).
  assert (H4 : Some "Cup A"%string = None
               \/ Some "Cup A"%string = Some "Cup A"%string) by now right.
  split; [exact H1|]. split; [exact H2|]. split; [exact H3|].
  split; [exact H4|].
  exact (proj1 (proj2 (proj2
           (save_write_reload_round_trip "Cup A" (Scenario.cupA 1000 90000)
              (Some "Cup A"%string) (initial 1000) 6000 H1 H2 H3 H4)))).
Defined.

Lemma invalidateCache_named e s :
  e <> ""%string ->
  exec (invalidateCache (Some e)) s
  = set_eventCache (delete e) (note (CacheDelete e) s).
Proof.
  intros He. simpl. apply String.eqb_neq in He. now rewrite He.
Qed.

(** X3.  [reloadEventData] makes the cache entry of the event mirror the
    disk: the file's table if the file is there and parses, no entry
    otherwise (a table that was accepted but not yet written is dropped
    from the cache). The other entries, the pending timers and the files
    are untouched, and the call returns whether or not the file exists. *)
Theorem reloadEventData_mirrors_disk e s :
  e <> ""%string ->
  let s' := exec (reloadEventData e) s in
  returns (reloadEventData e) s = true
  /\ eventCache s' !! e = onDisk e s
  /\ (forall e', e' <> e -> eventCache s' !! e' = eventCache s !! e')
  /\ pendingWrites s' = pendingWrites s
  /\ timers s' = timers s
  /\ files s' = files s.
Proof.
  intros He s'. subst s'.
  pose proof (invalidateCache_named e s He) as Hinv.
  unfold reloadEventData, returns, exec, bind, ret in *.
  destruct (invalidateCache (Some e) s) as [[[]|ex] s1] eqn:E1.
  2:{ simpl in E1. apply String.eqb_neq in He. rewrite He in E1.
      discriminate E1. }
  simpl in Hinv. subst s1.
  set (s1 := set_eventCache (delete e) (note (CacheDelete e) s)).
  rewrite (loadEventData_split e s1). simpl.
  split; [reflexivity|].
  destruct (loadEventData_frame e s1) as (Hpw & Htm & _ & Hfl & _).
  assert (Hnone : eventCache s1 !! e = None) by apply lookup_delete_eq.
  split; [|split; [|now repeat split]].
  - unfold exec. rewrite loadEventData_run, Hnone.
    change (onDisk e s1) with (onDisk e s).
    destruct (onDisk e s); simpl; try exact Hnone.
    apply lookup_insert_eq.
  - intros e' Hne. unfold exec. rewrite loadEventData_run, Hnone.
    destruct (onDisk e s1); simpl;
      rewrite ?lookup_insert_ne by congruence;
      now apply lookup_delete_ne.
Qed.

Lemma reloadEventData_mirrors_disk_witness :
  "Cup A"%string <> ""%string
  /\ eventCache
       (exec (reloadEventData "Cup A")
          (exec (saveEventData "Cup A" (Scenario.cupA 1000 90000))
             (initial 1000))) !! "Cup A"
     = onDisk "Cup A"
         (exec (saveEventData "Cup A" (Scenario.cupA 1000 90000))
            (initial 1000)).
Proof.
  assert (H : "Cup A"%string <> ""%string) by discriminate.
  split; [exact H|].
  exact (proj1 (proj2 (reloadEventData_mirrors_disk "Cup A"
                         (exec (saveEventData "Cup A"
                                  (Scenario.cupA 1000 90000))
                               (initial 1000)) H))).
Defined.

(** ** [flushPendingWrites] *)

Lemma forOf_clearTimeout pending s :
  forOf (fun entry : string * nat => clearTimeout (snd entry)) pending s
  = (Returned tt, set_timers (cleared pending) s).
Proof.
  revert s. induction pending as [|entry pending IH]; intros s.
  - simpl. unfold ret. now destruct s.
  - simpl. unfold bind, clearTimeout, modify. rewrite IH. reflexivity.
Qed.

Lemma cleared_lookup pending held h :
  cleared pending held !! h
  = if bool_decide (h ∈ pending.*2) then None else held !! h.
Proof.
  revert held. induction pending as [|[f k] pending IH]; intros held.
  - unfold cleared. cbn [foldl]. case_bool_decide as Hin; [|reflexivity].
    now apply elem_of_nil in Hin.
  - unfold cleared. rewrite fmap_cons. cbn [foldl snd].
    fold (cleared pending (delete k held)). rewrite IH.
    destruct (decide (h = k)) as [->|Hne].
    + rewrite lookup_delete_eq.
      rewrite (bool_decide_eq_true_2 _ (list_elem_of_here k (pending.*2))).
      now case_bool_decide.
    + rewrite lookup_delete_ne by congruence.
      destruct (decide (h ∈ pending.*2)) as [Hin|Hnin].
      * rewrite (bool_decide_eq_true_2 _ Hin).
        now rewrite (bool_decide_eq_true_2 _ (list_elem_of_further h k _ Hin)).
      * rewrite (bool_decide_eq_false_2 _ Hnin).
        rewrite bool_decide_eq_false_2; [reflexivity|].
        intros Hin. apply elem_of_cons in Hin as [?|?]; congruence.
Qed.

Lemma flushEntry_run entry s : flushEntry entry s = (Returned tt, flushed entry s).
Proof.
  unfold flushEntry, flushed, fs_writeFile, try_catch, bind, modify, gets,
    ret, throw. simpl.
  destruct (bool_decide (sanitizeEventName (fst entry) ∈ unwritable s));
    reflexivity.
Qed.

Lemma flushed_frame entry s :
  let s' := flushed entry s in
  eventCache s' = eventCache s /\ pendingWrites s' = pendingWrites s
  /\ timers s' = timers s /\ nextTimer s' = nextTimer s
  /\ clock s' = clock s /\ unwritable s' = unwritable s
  /\ lastProcessedLap s' = lastProcessedLap s /\ accesses s' = accesses s.
Proof.
  unfold flushed.
  destruct (bool_decide (sanitizeEventName (fst entry) ∈ unwritable s));
    now repeat split.
Qed.

Lemma flushed_other f entry s :
  sanitizeEventName (fst entry) <> f ->
  files (flushed entry s) !! f = files s !! f
  /\ written (flushed entry s) !! f = written s !! f.
Proof.
  intros Hne. unfold flushed.
  destruct (bool_decide (sanitizeEventName (fst entry) ∈ unwritable s));
    simpl; rewrite ?lookup_insert_ne by exact Hne; now split.
Qed.

Lemma flushed_same entry s :
  let f := sanitizeEventName (fst entry) in
  written (flushed entry s) !!! f = written s !!! f ++ [snd entry]
  /\ files (flushed entry s) !! f
     = (if bool_decide (f ∈ unwritable s) then files s !! f
        else Some (JSON_stringify (snd entry))).
Proof.
  unfold flushed.
  destruct (bool_decide (sanitizeEventName (fst entry) ∈ unwritable s));
    simpl; rewrite ?lookup_total_insert_eq, ?lookup_insert_eq; now split.
Qed.

Lemma forOf_flushEntry_returns entries s :
  exists s', forOf flushEntry entries s = (Returned tt, s').
Proof.
  revert s. induction entries as [|entry entries IH]; intros s.
  - now exists s.
  - simpl. unfold bind. rewrite flushEntry_run. apply IH.
Qed.

Lemma forOf_flushEntry_cons entry entries s :
  exec (forOf flushEntry (entry :: entries)) s
  = exec (forOf flushEntry entries) (flushed entry s).
Proof. unfold exec. simpl. unfold bind. now rewrite flushEntry_run. Qed.

Lemma forOf_flushEntry_frame entries s :
  let s' := exec (forOf flushEntry entries) s in
  eventCache s' = eventCache s /\ pendingWrites s' = pendingWrites s
  /\ timers s' = timers s /\ nextTimer s' = nextTimer s
  /\ clock s' = clock s /\ unwritable s' = unwritable s
  /\ lastProcessedLap s' = lastProcessedLap s /\ accesses s' = accesses s.
Proof.
  revert s. induction entries as [|entry entries IH]; intros s.
  - now repeat split.
  - cbv zeta. rewrite forOf_flushEntry_cons.
    destruct (IH (flushed entry s)) as (H1 & H2 & H3 & H4 & H5 & H6 & H7 & H8).
    destruct (flushed_frame entry s) as (G1 & G2 & G3 & G4 & G5 & G6 & G7 & G8).
    repeat split; congruence.
Qed.

Lemma forOf_flushEntry_other f entries s :
  (forall entry, entry ∈ entries -> sanitizeEventName (fst entry) <> f) ->
  files (exec (forOf flushEntry entries) s) !! f = files s !! f
  /\ written (exec (forOf flushEntry entries) s) !! f = written s !! f.
Proof.
  revert s. induction entries as [|entry entries IH]; intros s Hno.
  - now split.
  - rewrite forOf_flushEntry_cons.
    destruct (IH (flushed entry s)) as [H1 H2].
    { intros entry' Hin. apply Hno. now apply list_elem_of_further. }
    destruct (flushed_other f entry s) as [G1 G2].
    { apply Hno, list_elem_of_here. }
    split; congruence.
Qed.

Lemma forOf_flushEntry_sole e d entries s :
  NoDup entries.*1 ->
  (e, d) ∈ entries ->
  (forall entry, entry ∈ entries ->
                 sanitizeEventName (fst entry) = sanitizeEventName e ->
                 fst entry = e) ->
  let f := sanitizeEventName e in
  let s' := exec (forOf flushEntry entries) s in
  written s' !!! f = written s !!! f ++ [d]
  /\ files s' !! f = (if bool_decide (f ∈ unwritable s) then files s !! f
                      else Some (JSON_stringify d)).
Proof.
  revert s. induction entries as [|entry entries IH]; intros s Hnd Hin Hsole.
  { now apply elem_of_nil in Hin. }
  cbv zeta. rewrite forOf_flushEntry_cons.
  rewrite fmap_cons in Hnd. apply NoDup_cons in Hnd as [Hfresh Hnd].
  apply elem_of_cons in Hin as [<-|Hin].
  - destruct (forOf_flushEntry_other (sanitizeEventName e) entries
                (flushed (e, d) s)) as [H1 H2].
    { intros entry Hentry Hf. apply Hfresh.
      rewrite <- (Hsole entry (list_elem_of_further _ _ _ Hentry) Hf).
      apply list_elem_of_fmap. now exists entry. }
    destruct (flushed_same (e, d) s) as [G1 G2]. simpl in G1, G2.
    split; [|now rewrite H1].
    now rewrite lookup_total_alt, H2, <- lookup_total_alt.
  - assert (Hne : sanitizeEventName (fst entry) <> sanitizeEventName e).
    { intros Hf. apply Hfresh.
      rewrite (Hsole entry (list_elem_of_here _ _) Hf).
      apply list_elem_of_fmap. now exists (e, d). }
    destruct (flushed_other (sanitizeEventName e) entry s Hne) as [G1 G2].
    destruct (flushed_frame entry s) as (_ & _ & _ & _ & _ & Hun & _).
    destruct (IH (flushed entry s) Hnd Hin) as [H1 H2].
    { intros entry' Hentry. apply Hsole. now apply list_elem_of_further. }
    rewrite Hun in H2. split.
    + rewrite H1. now rewrite !lookup_total_alt, G2.
    + now rewrite H2, G1.
Qed.

Lemma flushPendingWrites_run s :
  flushPendingWrites s
  = (Returned tt,
     set_pendingWrites (fun _ => ∅)
       (exec (forOf flushEntry (map_to_list (eventCache s)))
          (set_timers (cleared (map_to_list (pendingWrites s))) s))).
Proof.
  unfold flushPendingWrites.
  unfold bind at 1. unfold gets at 1. unfold bind at 1.
  rewrite forOf_clearTimeout.
  unfold bind at 1. unfold gets at 1. unfold bind at 1. unfold exec.
  change (eventCache (set_timers _ s)) with (eventCache s).
  destruct (forOf_flushEntry_returns (map_to_list (eventCache s))
              (set_timers (cleared (map_to_list (pendingWrites s))) s))
    as [s' ->].
  reflexivity.
Qed.

Lemma flushPendingWrites_exec s :
  exec flushPendingWrites s
  = set_pendingWrites (fun _ => ∅)
      (exec (forOf flushEntry (map_to_list (eventCache s)))
         (set_timers (cleared (map_to_list (pendingWrites s))) s)).
Proof. unfold exec at 1. now rewrite flushPendingWrites_run. Qed.

Lemma flushPendingWrites_frame s :
  let s' := exec flushPendingWrites s in
  eventCache s' = eventCache s /\ pendingWrites s' = ∅
  /\ timers s' = cleared (map_to_list (pendingWrites s)) (timers s)
  /\ nextTimer s' = nextTimer s /\ clock s' = clock s
  /\ unwritable s' = unwritable s
  /\ lastProcessedLap s' = lastProcessedLap s /\ accesses s' = accesses s.
Proof.
  cbv zeta. rewrite flushPendingWrites_exec.
  destruct (forOf_flushEntry_frame (map_to_list (eventCache s))
              (set_timers (cleared (map_to_list (pendingWrites s))) s))
    as (H1 & H2 & H3 & H4 & H5 & H6 & H7 & H8).
  cbn [snd eventCache pendingWrites timers nextTimer clock unwritable
       lastProcessedLap accesses set_pendingWrites set_timers] in *.
  now repeat split.
Qed.

Lemma cleared_registered s :
  timersRegistered s ->
  cleared (map_to_list (pendingWrites s)) (timers s) = ∅.
Proof.
  intros Hreg. apply map_eq. intros h.
  rewrite cleared_lookup, lookup_empty.
  case_bool_decide as Hin; [reflexivity|].
  destruct (timers s !! h) as [t|] eqn:Ht; [|reflexivity].
  exfalso. apply Hin. apply list_elem_of_fmap.
  exists (filename t, h). split; [reflexivity|].
  apply elem_of_map_to_list. now apply (Hreg (filename t) h t).
Qed.

Lemma advance_idle now s :
  timers s = ∅ ->
  files (advance now s) = files s /\ written (advance now s) = written s
  /\ eventCache (advance now s) = eventCache s.
Proof.
  intros Hnone.
  assert (Hq : forall f h t, timers s !! h = Some t -> filename t = f ->
                             now < due t).
  { intros f h t Ht. rewrite Hnone, lookup_empty in Ht. discriminate. }
  split; [|split].
  - apply map_eq. intros f. now destruct (advance_quiet f now s (Hq f)).
  - apply map_eq. intros f.
    now destruct (advance_quiet f now s (Hq f)) as (_ & ? & _).
  - now destruct (advance_frame now s).
Qed.

(** X4.  [flushPendingWrites] always returns, and when every timer the
    loop holds is the one [pendingWrites] registers for its file, it
    leaves no timer held and no write registered: the cache is as it
    was, and however much time passes afterwards nothing more is
    written and no file changes. *)
Theorem flushPendingWrites_leaves_nothing_pending s :
  timersRegistered s ->
  let s' := exec flushPendingWrites s in
  fst (flushPendingWrites s) = Returned tt
  /\ pendingWrites s' = ∅ /\ timers s' = ∅
  /\ eventCache s' = eventCache s
  /\ forall now, files (advance now s') = files s'
                 /\ written (advance now s') = written s'.
Proof.
  intros Hreg s'.
  destruct (flushPendingWrites_frame s) as (Hc & Hpw & Htm & _).
  fold s' in Hc, Hpw, Htm.
  rewrite (cleared_registered s Hreg) in Htm.
  split; [now rewrite flushPendingWrites_run|].
  split; [exact Hpw|]. split; [exact Htm|]. split; [exact Hc|].
  intros now. destruct (advance_idle now s' Htm) as (Hf & Hw & _).
  now split.
Qed.

Lemma flushPendingWrites_store s :
  let flushedState :=
    exec (forOf flushEntry (map_to_list (eventCache s)))
         (set_timers (cleared (map_to_list (pendingWrites s))) s) in
  files (exec flushPendingWrites s) = files flushedState
  /\ written (exec flushPendingWrites s) = written flushedState.
Proof. cbv zeta. now rewrite flushPendingWrites_exec. Qed.

(** X5.  [flushPendingWrites] writes the cache out: an event in the
    cache whose file name no other cached event shares has its cached
    value (a table, or whatever else was loaded) written exactly once,
    and, unless the write fails, the text of that value is what its file
    holds afterwards. *)
Theorem flushPendingWrites_writes_cache e d s :
  eventCache s !! e = Some d ->
  (forall e', is_Some (eventCache s !! e') ->
              sanitizeEventName e' = sanitizeEventName e -> e' = e) ->
  let f := sanitizeEventName e in
  let s' := exec flushPendingWrites s in
  written s' !!! f = written s !!! f ++ [d]
  /\ files s' !! f = (if bool_decide (f ∈ unwritable s) then files s !! f
                      else Some (JSON_stringify d)).
Proof.
  intros Hc Hsole f s'. subst s'.
  destruct (flushPendingWrites_store s) as [-> ->].
  apply (forOf_flushEntry_sole e d (map_to_list (eventCache s))
           (set_timers (cleared (map_to_list (pendingWrites s))) s)).
  - apply NoDup_fst_map_to_list.
  - now apply elem_of_map_to_list.
  - intros [e' d'] Hin. apply elem_of_map_to_list in Hin.
    apply Hsole. simpl. eauto.
Qed.

Lemma flushPendingWrites_writes_cache_witness :
  eventCache Scenario.saved !! "Cup A"
  = Some (Table (Scenario.cupA 1000 90000))
  /\ files (exec flushPendingWrites Scenario.saved)
       !! sanitizeEventName "Cup A"
     = Some (Document (Scenario.cupA 1000 90000)).
Proof.
  assert (Hc : eventCache Scenario.saved !! "Cup A"
               = Some (Table (Scenario.cupA 1000 90000)))
    by (vm_compute; reflexivity).
  split; [exact Hc|].
  refine (proj2 (flushPendingWrites_writes_cache "Cup A"
                   (Table (Scenario.cupA 1000 90000)) Scenario.saved Hc _)).
  intros e' [d' Hd'] _.
  destruct (decide (e' = "Cup A")) as [->|Hne]; [reflexivity|].
  exfalso. revert Hd'.
  destruct (saveEventData_exec "Cup A" (Scenario.cupA 1000 90000)
              (initial 1000)) as (Hsaved & _).
  fold Scenario.saved in Hsaved. rewrite Hsaved.
  rewrite lookup_insert_ne by congruence.
  unfold initial. cbn [eventCache]. now rewrite lookup_empty.
Defined.

Lemma flushPendingWrites_leaves_nothing_pending_witness :
  timersRegistered Scenario.saved
  /\ pendingWrites Scenario.saved !! sanitizeEventName "Cup A" = Some 0%nat
  /\ pendingWrites (exec flushPendingWrites Scenario.saved) = ∅
  /\ timers (exec flushPendingWrites Scenario.saved) = ∅.
Proof.
  assert (H : timersRegistered Scenario.saved).
  { intros f. apply soleTimer_saveEventData, soleTimer_initial. }
  split; [exact H|]. split; [vm_compute; reflexivity|].
  split.
  - exact (proj1 (proj2
             (flushPendingWrites_leaves_nothing_pending Scenario.saved H))).
  - exact (proj1 (proj2 (proj2
             (flushPendingWrites_leaves_nothing_pending Scenario.saved H)))).
Defined.

(** X6.  A pending write does not survive an eviction followed by a
    flush.  After [saveEventData] of an event, [invalidateCache] of that
    event and [flushPendingWrites], the timer of the save is cancelled
    and the table is no longer in the cache, so (no other cached event
    sharing the file name) the table is never written: at any later
    instant the file is as it was before the save, and a reader of the
    event gets what the disk held then. *)
Theorem flushPendingWrites_drops_evicted e d s :
  e <> "" ->
  timersRegistered s ->
  (forall e', is_Some (eventCache s !! e') -> e' <> e ->
              sanitizeEventName e' <> sanitizeEventName e) ->
  let f := sanitizeEventName e in
  let s' := exec flushPendingWrites
              (exec (invalidateCache (Some e))
                 (exec (saveEventData e d) s)) in
  forall now,
    files (advance now s') !! f = files s !! f
    /\ written (advance now s') !! f = written s !! f
    /\ loaded e (advance now s') = unwrap (onDisk e s).
Proof.
  intros Hne Hreg Hothers f s' now.
  set (s1 := exec (saveEventData e d) s) in *.
  set (s2 := exec (invalidateCache (Some e)) s1) in *.
  destruct (saveEventData_exec e d s)
    as (Hc1 & _ & _ & _ & Hf1 & Hw1 & _).
  fold s1 in Hc1, Hf1, Hw1.
  destruct (invalidateCache_frame (Some e) s1)
    as (_ & _ & _ & Hf2 & Hw2 & _).
  fold s2 in Hf2, Hw2.
  assert (Hc2 : eventCache s2 = delete e (eventCache s1)).
  { unfold s2. now rewrite invalidateCache_named. }
  assert (Hreg2 : timersRegistered s2).
  { intros g. apply soleTimer_invalidateCache, soleTimer_saveEventData, Hreg. }
  destruct (flushPendingWrites_frame s2) as (Hc3 & _ & Htm3 & _).
  fold s' in Hc3, Htm3. rewrite (cleared_registered s2 Hreg2) in Htm3.
  destruct (flushPendingWrites_store s2) as [Hf3 Hw3]. fold s' in Hf3, Hw3.
  destruct (forOf_flushEntry_other f (map_to_list (eventCache s2))
              (set_timers (cleared (map_to_list (pendingWrites s2))) s2))
    as [Hf4 Hw4].
  { intros [e' d'] Hin. apply elem_of_map_to_list in Hin.
    rewrite Hc2, Hc1 in Hin. simpl.
    destruct (decide (e' = e)) as [->|Hne'].
    - now rewrite lookup_delete_eq in Hin.
    - rewrite lookup_delete_ne, lookup_insert_ne in Hin by congruence.
      apply Hothers; eauto. }
  cbn [files written set_timers] in Hf4, Hw4.
  destruct (advance_idle now s' Htm3) as (Hfa & Hwa & Hca).
  assert (Hfile : files (advance now s') !! f = files s !! f).
  { now rewrite Hfa, Hf3, Hf4, Hf2, Hf1. }
  split; [exact Hfile|]. split.
  - now rewrite Hwa, Hw3, Hw4, Hw2, Hw1.
  - unfold loaded, onDisk. fold f. rewrite Hfile.
    now rewrite Hca, Hc3, Hc2, lookup_delete_eq.
Qed.

Lemma flushPendingWrites_drops_evicted_witness :
  "Cup A"%string <> ""%string
  /\ timersRegistered (initial 1000)
  /\ loaded "Cup A"
       (advance 60000
          (exec flushPendingWrites
             (exec (invalidateCache (Some "Cup A"%string)) Scenario.saved)))
     = Other Null.
Proof.
  assert (H1 : "Cup A"%string <> ""%string) by discriminate.
  assert (H2 : timersRegistered (initial 1000)).
  { intros f. apply soleTimer_initial. }
  split; [exact H1|]. split; [exact H2|].
  refine (proj2 (proj2
            (flushPendingWrites_drops_evicted "Cup A"
               (Scenario.cupA 1000 90000) (initial 1000) H1 H2 _ 60000))).
  intros e' [d' Hd']. unfold initial in Hd'. cbn [eventCache] in Hd'.
  now rewrite lookup_empty in Hd'.
Defined.

(** ** [reloadAllEvents] *)

Lemma declaredName_run v s :
  declaredName v s
  = match declares v with
    | Some name => (Returned name, s)
    | None => (Thrown (Error "Cannot read properties of null"), s)
    end.
Proof. now destruct v as [d|[| |name]]. Qed.

Lemma reloadFile_run file s :
  reloadFile file s =
  match files s !! file with
  | Some content =>
      match parsed content with
      | Some v =>
          match declares v with
          | Some name =>
              if String.eqb name ""
              then (Returned tt, note (ReadFile file) s)
              else (Returned tt,
                    set_eventCache (<[name := v]>)
                      (note (CacheSet name) (note (ReadFile file) s)))
          | None =>
              (Thrown (Error "Cannot read properties of null"),
               note (ReadFile file) s)
          end
      | None =>
          (Thrown (Error "Unexpected token in JSON"), note (ReadFile file) s)
      end
  | None =>
      (Thrown (Error "ENOENT: no such file or directory"),
       note (ReadFile file) s)
  end.
Proof.
  unfold reloadFile, fs_readFile, JSON_parse, cache_set, bind, modify, gets,
    ret, throw. simpl.
  destruct (files s !! file) as [[|d|[| |name]]|]; try reflexivity; simpl.
  - now destruct (String.eqb (eventName d) "").
  - now destruct (String.eqb name "").
Qed.

(** What one turn of the loop leaves: nothing but the cache and the
    record of accesses changes, and the cache gains at most the value of
    the file, under the name it declares. *)
Lemma reloadFile_exec file s :
  let s' := exec (reloadFile file) s in
  files s' = files s /\ timers s' = timers s
  /\ pendingWrites s' = pendingWrites s /\ written s' = written s
  /\ lastProcessedLap s' = lastProcessedLap s /\ clock s' = clock s
  /\ (eventCache s' = eventCache s
      \/ exists content v name,
           files s !! file = Some content /\ parsed content = Some v
           /\ declares v = Some name /\ name <> ""
           /\ eventCache s' = <[name := v]> (eventCache s)).
Proof.
  cbv zeta. unfold exec. rewrite reloadFile_run.
  destruct (files s !! file) as [content|] eqn:Hf;
    [|repeat split; now left].
  destruct (parsed content) as [v|] eqn:Hp; [|repeat split; now left].
  destruct (declares v) as [name|] eqn:Hd; [|repeat split; now left].
  destruct (String.eqb name "") eqn:He;
    [repeat split; now left|].
  repeat split. right. exists content, v, name.
  apply String.eqb_neq in He. now repeat split.
Qed.

Lemma forOf_reloadFile_exec_cons file listed s :
  exec (forOf reloadFile (file :: listed)) s
  = (if returns (reloadFile file) s
     then exec (forOf reloadFile listed) (exec (reloadFile file) s)
     else exec (reloadFile file) s).
Proof.
  unfold exec, returns. simpl. unfold bind.
  now destruct (reloadFile file s) as [[[]|x] s1].
Qed.

Lemma forOf_reloadFile_sound listed s :
  let s' := exec (forOf reloadFile listed) s in
  files s' = files s /\ timers s' = timers s
  /\ pendingWrites s' = pendingWrites s /\ written s' = written s
  /\ lastProcessedLap s' = lastProcessedLap s /\ clock s' = clock s
  /\ (forall e, is_Some (eventCache s !! e) -> is_Some (eventCache s' !! e))
  /\ (forall e v, eventCache s' !! e = Some v ->
        eventCache s !! e = Some v
        \/ (e <> "" /\ declares v = Some e
            /\ exists file content,
                 file ∈ listed /\ files s !! file = Some content
                 /\ parsed content = Some v)).
Proof.
  revert s. induction listed as [|file listed IH]; intros s.
  { cbv zeta. unfold exec. simpl. repeat split; auto. }
  cbv zeta. rewrite forOf_reloadFile_exec_cons.
  destruct (reloadFile_exec file s) as (G1 & G2 & G3 & G4 & G5 & G6 & Gc).
  set (s1 := exec (reloadFile file) s) in *.
  assert (Hkeep : forall e, is_Some (eventCache s !! e) ->
                            is_Some (eventCache s1 !! e)).
  { intros e He. destruct Gc as [->|(c & v & n & _ & _ & _ & _ & ->)];
      [exact He|].
    destruct (decide (n = e)) as [<-|Hne].
    - rewrite lookup_insert_eq. eauto.
    - now rewrite lookup_insert_ne. }
  assert (Hfrom : forall e v, eventCache s1 !! e = Some v ->
            eventCache s !! e = Some v
            \/ (e <> "" /\ declares v = Some e
                /\ exists content, files s !! file = Some content
                                   /\ parsed content = Some v)).
  { intros e v. destruct Gc as [->|(c & v' & n & Hf & Hp & Hd & Hn & ->)];
      [now left|].
    destruct (decide (n = e)) as [<-|Hne].
    - rewrite lookup_insert_eq. intros [= <-]. right. eauto.
    - rewrite lookup_insert_ne by exact Hne. now left. }
  destruct (returns (reloadFile file) s).
  - destruct (IH s1) as (H1 & H2 & H3 & H4 & H5 & H6 & Hk & Hs).
    split; [congruence|]. split; [congruence|]. split; [congruence|].
    split; [congruence|]. split; [congruence|]. split; [congruence|].
    split; [intros e He; apply Hk, Hkeep, He|].
    intros e v Hv.
    destruct (Hs e v Hv) as [Hc|(Hn & Hname & f & c & Hin & Hf & Hp)].
    + destruct (Hfrom e v Hc) as [?|(Hn & Hname & c & Hf & Hp)]; [now left|].
      right. split; [exact Hn|]. split; [exact Hname|].
      exists file, c. split; [apply list_elem_of_here|now split].
    + right. split; [exact Hn|]. split; [exact Hname|].
      exists f, c. split; [now apply list_elem_of_further|].
      split; [congruence|exact Hp].
  - repeat split; auto.
    intros e v Hv. destruct (Hfrom e v Hv) as [?|(Hn & Hname & c & Hf & Hp)];
      [now left|].
    right. split; [exact Hn|]. split; [exact Hname|].
    exists file, c. split; [apply list_elem_of_here|now split].
Qed.

Lemma readable_declares content :
  readable content ->
  exists v name, parsed content = Some v /\ declares v = Some name.
Proof.
  intros [H1 H2]. destruct content as [|d|[| |name]]; try congruence;
    simpl; eauto.
Qed.

Lemma forOf_reloadFile_complete listed s :
  (forall file, file ∈ listed ->
                exists content, files s !! file = Some content
                                /\ readable content) ->
  fst (forOf reloadFile listed s) = Returned tt
  /\ forall file content v name,
       file ∈ listed -> files s !! file = Some content ->
       parsed content = Some v -> declares v = Some name ->
       name <> "" ->
       is_Some (eventCache (exec (forOf reloadFile listed) s) !! name).
Proof.
  revert s. induction listed as [|file listed IH]; intros s Hdocs.
  { split; [reflexivity|]. intros file c v n Hin. now apply elem_of_nil in Hin. }
  destruct (Hdocs file (list_elem_of_here _ _)) as (c0 & Hc0 & Hr0).
  destruct (readable_declares c0 Hr0) as (v0 & n0 & Hp0 & Hd0).
  destruct (reloadFile_exec file s) as (G1 & _).
  assert (Hret : fst (reloadFile file s) = Returned tt).
  { rewrite reloadFile_run, Hc0, Hp0, Hd0. now destruct (String.eqb n0 ""). }
  assert (Hrest : forall file', file' ∈ listed ->
            exists content, files (exec (reloadFile file) s) !! file'
                            = Some content /\ readable content).
  { intros file' Hin. rewrite G1. apply Hdocs.
    now apply list_elem_of_further. }
  destruct (IH (exec (reloadFile file) s) Hrest) as [Hr Hall].
  assert (Hstep : forOf reloadFile (file :: listed) s
                  = forOf reloadFile listed (exec (reloadFile file) s)).
  { simpl. unfold bind, exec. destruct (reloadFile file s) as [[[]|x] s1];
      [reflexivity|discriminate]. }
  split; [now rewrite Hstep|].
  intros file' c v n Hin Hf Hp Hd Hn. unfold exec at 1. rewrite Hstep.
  fold (exec (forOf reloadFile listed) (exec (reloadFile file) s)).
  apply elem_of_cons in Hin as [->|Hin].
  - destruct (forOf_reloadFile_sound listed (exec (reloadFile file) s))
      as (_ & _ & _ & _ & _ & _ & Hk & _).
    apply Hk. unfold exec. rewrite reloadFile_run, Hf, Hp, Hd.
    apply String.eqb_neq in Hn. rewrite Hn. simpl.
    rewrite lookup_insert_eq. eauto.
  - apply (Hall file' c v n Hin); [now rewrite G1|exact Hp|exact Hd|exact Hn].
Qed.

Lemma reloadAllEvents_run s :
  reloadAllEvents s
  = (Returned tt,
     exec (forOf reloadFile (map_to_list (files s)).*1)
          (set_eventCache (fun _ => ∅) (note CacheClear s))).
Proof.
  unfold reloadAllEvents, invalidateCache, cache_clear, fs_readdir, try_catch,
    bind, modify, gets, ret, exec. simpl.
  now destruct (forOf reloadFile (map_to_list (files s)).*1
                  (set_eventCache (fun _ => ∅) (note CacheClear s)))
    as [[[]|x] s1].
Qed.

(** X7.  [reloadAllEvents] never throws and touches neither a file, a
    timer nor the table of pending writes; and whatever the cache holds
    afterwards was read from the disk in this call: each entry is what
    some file parses to (its document, when it is a table), stored under
    the non-empty event name that value declares.  Nothing of the cache
    from before survives unless the disk has it. *)
Theorem reloadAllEvents_cache_from_disk s :
  let s' := exec reloadAllEvents s in
  fst (reloadAllEvents s) = Returned tt
  /\ files s' = files s /\ timers s' = timers s
  /\ pendingWrites s' = pendingWrites s /\ written s' = written s
  /\ (forall e v, eventCache s' !! e = Some v ->
        e <> "" /\ declares v = Some e
        /\ exists file content, files s !! file = Some content
                                /\ parsed content = Some v)
  /\ (forall e d, eventCache s' !! e = Some (Table d) ->
        e <> "" /\ eventName d = e
        /\ exists file, files s !! file = Some (Document d)).
Proof.
  cbv zeta. unfold exec at 1 2 3 4. rewrite reloadAllEvents_run.
  destruct (forOf_reloadFile_sound (map_to_list (files s)).*1
              (set_eventCache (fun _ => ∅) (note CacheClear s)))
    as (H1 & H2 & H3 & H4 & _ & _ & _ & Hs).
  cbn [fst snd]. split; [reflexivity|].
  split; [exact H1|]. split; [exact H2|]. split; [exact H3|].
  split; [exact H4|].
  assert (Hfrom : forall e v,
            eventCache (exec reloadAllEvents s) !! e = Some v ->
            e <> "" /\ declares v = Some e
            /\ exists file content, files s !! file = Some content
                                    /\ parsed content = Some v).
  { unfold exec. rewrite reloadAllEvents_run. cbn [snd].
    intros e v Hv.
    destruct (Hs e v Hv) as [Hc|(Hn & Hname & f & c & _ & Hf & Hp)].
    - cbn [eventCache set_eventCache] in Hc. now rewrite lookup_empty in Hc.
    - repeat split; eauto. }
  split; [exact Hfrom|].
  intros e d Hd. destruct (Hfrom e (Table d) Hd) as (Hn & Hname & f & c & Hf & Hp).
  split; [exact Hn|]. split; [now injection Hname|].
  exists f. destruct c as [|d'|v]; try discriminate.
  now injection Hp as ->.
Qed.

(** X8.  When every file of the data directory parses, and to a value
    other than [null], [reloadAllEvents] loads them all: the cache
    afterwards has an entry for the event name every document declares,
    and that entry is the document when no other file declares the same
    name. *)
Theorem reloadAllEvents_loads_every_file file d s :
  (forall file' content, files s !! file' = Some content ->
                         content <> Malformed /\ content <> Foreign Null) ->
  files s !! file = Some (Document d) ->
  eventName d <> "" ->
  let s' := exec reloadAllEvents s in
  is_Some (eventCache s' !! eventName d)
  /\ ((forall file' content v,
         files s !! file' = Some content -> parsed content = Some v ->
         declares v = Some (eventName d) -> file' = file) ->
      eventCache s' !! eventName d = Some (Table d)).
Proof.
  intros Hparse Hf Hn. cbv zeta. unfold exec. rewrite reloadAllEvents_run.
  cbn [snd].
  set (s0 := set_eventCache (fun _ => ∅) (note CacheClear s)).
  assert (Hlisted : forall file', file' ∈ (map_to_list (files s)).*1 ->
                      exists content, files s0 !! file' = Some content
                                      /\ readable content).
  { intros file' Hin. apply list_elem_of_fmap in Hin as ([g c] & -> & Hin).
    apply elem_of_map_to_list in Hin. simpl.
    exists c. split; [exact Hin|exact (Hparse g c Hin)]. }
  destruct (forOf_reloadFile_complete _ s0 Hlisted) as [_ Hall].
  assert (Hsome : is_Some (eventCache
                    (exec (forOf reloadFile (map_to_list (files s)).*1) s0)
                    !! eventName d)).
  { apply (Hall file (Document d) (Table d));
      [|exact Hf|reflexivity|reflexivity|exact Hn].
    apply list_elem_of_fmap. exists (file, Document d).
    split; [reflexivity|]. now apply elem_of_map_to_list. }
  split; [exact Hsome|].
  intros Huniq. destruct Hsome as [v' Hv']. rewrite Hv'.
  destruct (forOf_reloadFile_sound (map_to_list (files s)).*1 s0)
    as (_ & _ & _ & _ & _ & _ & _ & Hs).
  destruct (Hs _ _ Hv') as [Hc|(_ & Hname & file' & c & _ & Hf' & Hp)].
  - cbn [eventCache set_eventCache s0] in Hc. now rewrite lookup_empty in Hc.
  - change (files s0) with (files s) in Hf'.
    rewrite (Huniq file' c v' Hf' Hp Hname) in Hf'.
    rewrite Hf in Hf'. injection Hf' as <-. simpl in Hp. congruence.
Qed.

Lemma reloadAllEvents_loads_every_file_witness :
  files Scenario.stored !! "cup-a" = Some (Document (Scenario.cupA 1000 90000))
  /\ eventName (Scenario.cupA 1000 90000) <> ""
  /\ is_Some (eventCache (exec reloadAllEvents Scenario.stored) !! "Cup A").
Proof.
  assert (H1 : forall file' content,
             files Scenario.stored !! file' = Some content ->
             content <> Malformed /\ content <> Foreign Null).
  { intros file' content. unfold Scenario.stored, externalEdit, initial.
    cbn [files set_files]. intros H.
    apply lookup_insert_Some in H as [[_ <-]|[_ H]]; [now split|].
    now rewrite lookup_empty in H. }
  assert (H2 : files Scenario.stored !! "cup-a"
               = Some (Document (Scenario.cupA 1000 90000)))
    by apply lookup_insert_eq.
  assert (H3 : eventName (Scenario.cupA 1000 90000) <> "") by discriminate.
  split; [exact H2|]. split; [exact H3|].
  exact (proj1 (reloadAllEvents_loads_every_file "cup-a"
                  (Scenario.cupA 1000 90000) Scenario.stored H1 H2 H3)).
Defined.

(** ** The file watcher *)

Lemma invalidate_then_set name (d : Value) s :
  name <> "" ->
  exec (cache_set name d) (exec (invalidateCache (Some name)) s)
  = set_eventCache (<[name := d]>)
      (note (CacheSet name) (note (CacheDelete name) s)).
Proof.
  intros Hn. rewrite invalidateCache_named by exact Hn.
  unfold exec, cache_set, bind, modify. cbn [fst snd].
  unfold set_eventCache, note, set_accesses. cbn.
  f_equal. apply insert_delete_eq.
Qed.

Lemma onChange_run filename s :
  onChange filename s =
  match files s !! filename ≫= parsed with
  | Some v =>
      match declares v with
      | Some declared =>
          let name := if String.eqb declared "" then filename else declared in
          (Returned tt,
           exec (cache_set name v)
             (exec (invalidateCache (Some name)) (note (ReadFile filename) s)))
      | None => (Returned tt, note (ReadFile filename) s)
      end
  | None => (Returned tt, note (ReadFile filename) s)
  end.
Proof.
  unfold onChange, fs_readFile, JSON_parse, try_catch, bind, modify, gets,
    ret, throw. cbn [fst snd files note set_accesses].
  destruct (files s !! filename) as [[|d|[| |declared]]|]; try reflexivity;
    cbn [mbind option_bind parsed declares declaredName]; cbv zeta;
    unfold exec, ret;
    match goal with
    | |- context [invalidateCache (Some ?n)] =>
        set (name := n);
        unfold invalidateCache, cache_clear, cache_delete, cache_set, bind,
          modify;
        now destruct (String.eqb name "")
    end.
Qed.

Lemma onChange_exec filename s :
  let s' := exec (onChange filename) s in
  fst (onChange filename s) = Returned tt
  /\ files s' = files s /\ timers s' = timers s
  /\ pendingWrites s' = pendingWrites s /\ written s' = written s
  /\ clock s' = clock s /\ unwritable s' = unwritable s
  /\ lastProcessedLap s' = lastProcessedLap s
  /\ match files s !! filename ≫= parsed with
     | Some v =>
         match declares v with
         | Some declared =>
             let name := if String.eqb declared "" then filename
                         else declared in
             name <> "" -> eventCache s' = <[name := v]> (eventCache s)
         | None => eventCache s' = eventCache s
         end
     | None => eventCache s' = eventCache s
     end.
Proof.
  cbv zeta. unfold exec. rewrite onChange_run.
  destruct (files s !! filename ≫= parsed) as [v|] eqn:Hf;
    try (now repeat split).
  destruct (declares v) as [declared|] eqn:Hd; try (now repeat split).
  cbv zeta.
  set (name := if String.eqb declared "" then filename else declared).
  cbn [fst snd].
  assert (Hfr : forall s0,
    let s1 := exec (cache_set name v) (exec (invalidateCache (Some name)) s0) in
    files s1 = files s0 /\ timers s1 = timers s0
    /\ pendingWrites s1 = pendingWrites s0 /\ written s1 = written s0
    /\ clock s1 = clock s0 /\ unwritable s1 = unwritable s0
    /\ lastProcessedLap s1 = lastProcessedLap s0).
  { intros s0. unfold exec, invalidateCache, cache_clear, cache_delete,
      cache_set, bind, modify.
    destruct (String.eqb name ""); now repeat split. }
  destruct (Hfr (note (ReadFile filename) s)) as (H1 & H2 & H3 & H4 & H5 & H6 & H7).
  split; [reflexivity|]. split; [exact H1|]. split; [exact H2|].
  split; [exact H3|]. split; [exact H4|]. split; [exact H5|].
  split; [exact H6|]. split; [exact H7|].
  intros Hn. now rewrite invalidate_then_set.
Qed.

(** X9.  The ["change"] listener never throws and changes no file, timer
    or pending write.  When the changed file parses, and to a value other
    than [null], the cache entry under the event name the value declares
    (under the file name if it declares none) becomes that value (the
    document, when the file holds a table) and every other entry stays;
    when the file is unreadable or does not parse, the cache is left as
    it was, stale entry included. *)
Theorem onChange_refreshes_cache filename s :
  let s' := exec (onChange filename) s in
  fst (onChange filename s) = Returned tt
  /\ files s' = files s /\ timers s' = timers s
  /\ pendingWrites s' = pendingWrites s /\ written s' = written s
  /\ clock s' = clock s /\ unwritable s' = unwritable s
  /\ match files s !! filename with
     | Some (Document d) =>
         let name := if String.eqb (eventName d) "" then filename
                     else eventName d in
         name <> "" -> eventCache s' = <[name := Table d]> (eventCache s)
     | Some (Foreign (Pilotless declared)) =>
         let name := if String.eqb declared "" then filename else declared in
         name <> "" ->
         eventCache s'
         = <[name := Other (Pilotless declared)]> (eventCache s)
     | Some (Foreign Falsy) =>
         filename <> "" ->
         eventCache s' = <[filename := Other Falsy]> (eventCache s)
     | Some (Foreign Null) | Some Malformed | None =>
         eventCache s' = eventCache s
     end.
Proof.
  destruct (onChange_exec filename s)
    as (H1 & H2 & H3 & H4 & H5 & H6 & H7 & _ & H8).
  cbv zeta. repeat (split; [assumption|]).
  destruct (files s !! filename) as [[|d|[| |declared]]|]; exact H8.
Qed.

(** X10.  An edit made from outside while a write is pending is lost on
    disk and kept in memory.  After [saveEventData] of table [d], an
    edit of the event's file to [d2] and the ["change"] notification,
    the cache holds [d2]; once the quiet period of the save has passed,
    the file holds [d] again, and the cache still holds [d2]. *)
Theorem external_edit_overwritten e d d2 s T :
  e <> "" ->
  soleTimer (sanitizeEventName e) s ->
  (sanitizeEventName e ∉ unwritable s) ->
  eventName d2 = e ->
  clock s + WRITE_DEBOUNCE_MS <= T ->
  let f := sanitizeEventName e in
  let s1 := exec (onChange f)
              (externalEdit f (Document d2) (exec (saveEventData e d) s)) in
  eventCache s1 !! e = Some (Table d2)
  /\ onDisk e s1 = Some (Table d2)
  /\ eventCache (advance T s1) !! e = Some (Table d2)
  /\ onDisk e (advance T s1) = Some (Table d).
Proof.
  intros Hne Hsole Hw Hname HT f s1.
  set (s0 := exec (saveEventData e d) s) in *.
  set (se := externalEdit f (Document d2) s0) in *.
  assert (Hfile : files se !! f = Some (Document d2)) by apply lookup_insert_eq.
  destruct (onChange_exec f se)
    as (_ & Hf1 & Ht1 & Hp1 & _ & Hc1 & Hu1 & _ & Hcache).
  fold s1 in Hf1, Ht1, Hp1, Hc1, Hu1, Hcache.
  rewrite Hfile in Hcache.
  cbn [mbind option_bind parsed declares] in Hcache.
  cbv zeta in Hcache. rewrite Hname in Hcache.
  apply String.eqb_neq in Hne as Hneb. rewrite Hneb in Hcache.
  specialize (Hcache Hne).
  assert (Hin : eventCache s1 !! e = Some (Table d2)).
  { rewrite Hcache. apply lookup_insert_eq. }
  assert (Harmed : armedWith f d s1).
  { apply (armedWith_frame f d s0 s1).
    - now rewrite Hp1.
    - now rewrite Ht1.
    - now rewrite Hc1.
    - now apply saveEventData_arms. }
  destruct (saveEventData_exec e d s) as (_ & _ & _ & _ & _ & _ & Hck & _ & Hun & _).
  fold s0 in Hck, Hun.
  assert (Hclock : clock s1 = clock s) by (rewrite Hc1; exact Hck).
  destruct (armedWith_advance_due f d T s1 Harmed) as [_ Hfiles];
    [rewrite Hclock; exact HT|].
  rewrite bool_decide_eq_false_2 in Hfiles
    by (rewrite Hu1; unfold se, externalEdit; cbn [unwritable set_files];
        rewrite Hun; exact Hw).
  destruct (advance_frame T s1) as (Hca & _).
  split; [exact Hin|]. split; [|split].
  - unfold onDisk. fold f. now rewrite Hf1, Hfile.
  - now rewrite Hca.
  - unfold onDisk. fold f. now rewrite Hfiles.
Qed.

Lemma external_edit_overwritten_witness :
  "Cup A"%string <> ""%string
  /\ soleTimer (sanitizeEventName "Cup A") (initial 1000)
  /\ (sanitizeEventName "Cup A" ∉ unwritable (initial 1000))
  /\ eventName (Scenario.cupA 2000 80000) = "Cup A"%string
  /\ clock (initial 1000) + WRITE_DEBOUNCE_MS <= 6000
  /\ onDisk "Cup A"
       (advance 6000
          (exec (onChange (sanitizeEventName "Cup A"))
             (externalEdit (sanitizeEventName "Cup A")
                (Document (Scenario.cupA 2000 80000)) Scenario.saved)))
     = Some (Table (Scenario.cupA 1000 90000)).
Proof.
  assert (H1 : "Cup A"%string <> ""%string) by discriminate.
  assert (H2 : soleTimer (sanitizeEventName "Cup A") (initial 1000))
    by apply soleTimer_initial.
  assert (H3 : sanitizeEventName "Cup A" ∉ unwritable (initial 1000))
    by (simpl; apply not_elem_of_empty).
  assert (H4 : eventName (Scenario.cupA 2000 80000) = "Cup A"%string)
    by reflexivity.
  assert (H5 : clock (initial 1000) + WRITE_DEBOUNCE_MS <= 6000)
    by (simpl; unfold WRITE_DEBOUNCE_MS; lia).
  split; [exact H1|]. split; [exact H2|]. split; [exact H3|].
  split; [exact H4|]. split; [exact H5|].
  exact (proj2 (proj2 (proj2
           (external_edit_overwritten "Cup A" (Scenario.cupA 1000 90000)
              (Scenario.cupA 2000 80000) (initial 1000) 6000
              H1 H2 H3 H4 H5)))).
Defined.

Lemma sanitizeEventName_nonempty e :
  sanitizeEventName e <> "" -> e <> "".
Proof. intros H ->. now apply H. Qed.

Lemma evictFirst_run inferredName names s :
  inferredName <> "" ->
  (Forall (fun name => sanitizeEventName name <> inferredName) names
   /\ evictFirst inferredName names s = (Returned tt, s))
  \/ exists name,
       name ∈ names /\ sanitizeEventName name = inferredName
       /\ evictFirst inferredName names s
          = (Returned tt,
             set_eventCache (delete name) (note (CacheDelete name) s)).
Proof.
  intros Hn. induction names as [|name names IH].
  - left. split; [constructor|reflexivity].
  - cbn [evictFirst].
    destruct (String.eqb (sanitizeEventName name) inferredName) eqn:Heq.
    + right. exists name. apply String.eqb_eq in Heq.
      split; [apply list_elem_of_here|]. split; [exact Heq|].
      assert (Hne : name <> "").
      { apply sanitizeEventName_nonempty. now rewrite Heq. }
      pose proof (invalidateCache_named name s Hne) as Hexec.
      unfold exec in Hexec. rewrite <- Hexec.
      unfold invalidateCache. apply String.eqb_neq in Hne. rewrite Hne.
      reflexivity.
    + apply String.eqb_neq in Heq.
      destruct IH as [[Hall ->]|(name' & Hin & Hs & ->)].
      * left. split; [now constructor|reflexivity].
      * right. exists name'. split; [now apply list_elem_of_further|].
        now split.
Qed.

(** X11.  The ["unlink"] listener, told that file [filename] is gone,
    evicts one cached event whose derived file name is [filename], and
    only that one; when no cached event derives that file name the cache
    is left as it was.  It never throws and changes no file, timer or
    pending write.  So when exactly one cached event has that file name,
    it is the one evicted. *)
Theorem onUnlink_evicts_one filename s :
  filename <> "" ->
  let s' := exec (onUnlink filename) s in
  fst (onUnlink filename s) = Returned tt
  /\ files s' = files s /\ timers s' = timers s
  /\ pendingWrites s' = pendingWrites s /\ written s' = written s
  /\ (((forall e, is_Some (eventCache s !! e) ->
                  sanitizeEventName e <> filename)
       /\ eventCache s' = eventCache s)
      \/ exists e, is_Some (eventCache s !! e)
                   /\ sanitizeEventName e = filename
                   /\ eventCache s' = delete e (eventCache s)).
Proof.
  intros Hn. cbv zeta. unfold exec, onUnlink, bind, gets. cbn [fst snd].
  destruct (evictFirst_run filename (map_to_list (eventCache s)).*1 s Hn)
    as [[Hall ->]|(e & Hin & Hs & ->)]; cbn [fst snd].
  - repeat split. left. split; [|reflexivity].
    intros e [d Hd]. rewrite Forall_forall in Hall. apply Hall.
    apply list_elem_of_fmap. exists (e, d). split; [reflexivity|].
    now apply elem_of_map_to_list.
  - repeat split. right. exists e. split; [|now split].
    apply list_elem_of_fmap in Hin as ([e' d] & -> & Hin).
    apply elem_of_map_to_list in Hin. simpl. eauto.
Qed.

Lemma onUnlink_evicts_one_witness :
  "cup-a"%string <> ""%string
  /\ eventCache (exec (onUnlink "cup-a") Scenario.saved) = ∅.
Proof.
  assert (H : "cup-a"%string <> ""%string) by discriminate.
  split; [exact H|].
  assert (Hc : eventCache Scenario.saved
               = <["Cup A"%string := Table (Scenario.cupA 1000 90000)]> ∅).
  { exact (proj1 (saveEventData_exec "Cup A" (Scenario.cupA 1000 90000)
                    (initial 1000))). }
  destruct (onUnlink_evicts_one "cup-a" Scenario.saved H)
    as (_ & _ & _ & _ & _ & [[Hnone _]|(e & [d Hd] & Hs & ->)]).
  - exfalso. apply (Hnone "Cup A"); [|vm_compute; reflexivity].
    exists (Table (Scenario.cupA 1000 90000)). rewrite Hc.
    apply lookup_insert_eq.
  - rewrite Hc in *. apply lookup_insert_Some in Hd as [[<- _]|[_ Hd]].
    + rewrite delete_insert_eq. apply delete_empty.
    + now rewrite lookup_empty in Hd.
Defined.

(** ** [listEvents] and [getEventData] *)

Lemma listEvents_run s :
  listEvents s = (Returned (map_to_list (files s)).*1, s).
Proof. reflexivity. Qed.

(** X12.  [listEvents] never throws, changes nothing, and lists each
    file of the data directory once, by file name.  So an event that
    has just been saved for the first time can be read at once with
    [getEventData], but is not listed until its write has run, and is
    then listed under its derived file name. *)
Theorem saved_event_listed_after_write e d s T :
  soleTimer (sanitizeEventName e) s ->
  (sanitizeEventName e ∉ unwritable s) ->
  files s !! sanitizeEventName e = None ->
  clock s + WRITE_DEBOUNCE_MS <= T ->
  let f := sanitizeEventName e in
  let s1 := exec (saveEventData e d) s in
  (forall s0, exists names,
     listEvents s0 = (Returned names, s0) /\ NoDup names
     /\ forall g, g ∈ names <-> is_Some (files s0 !! g))
  /\ fst (getEventData e s1) = Returned (Table d)
  /\ (forall names, fst (listEvents s1) = Returned names -> f ∉ names)
  /\ (forall names, fst (listEvents (advance T s1)) = Returned names ->
                    f ∈ names).
Proof.
  intros Hsole Hw Hnone HT f s1.
  assert (Hlist : forall s0 g, g ∈ (map_to_list (files s0)).*1
                               <-> is_Some (files s0 !! g)).
  { intros s0 g. rewrite list_elem_of_fmap. split.
    - intros ([g' c] & -> & Hin). apply elem_of_map_to_list in Hin. eauto.
    - intros [c Hc]. exists (g, c). split; [reflexivity|].
      now apply elem_of_map_to_list. }
  destruct (saveEventData_exec e d s)
    as (Hc & _ & _ & _ & Hf & _ & Hck & _ & Hun & _).
  fold s1 in Hc, Hf, Hck, Hun.
  split; [|split; [|split]].
  - intros s0. exists (map_to_list (files s0)).*1.
    split; [apply listEvents_run|]. split; [apply NoDup_fst_map_to_list|].
    apply Hlist.
  - unfold getEventData. rewrite loadEventData_result.
    f_equal. apply loaded_cached. rewrite Hc. apply lookup_insert_eq.
  - intros names. rewrite listEvents_run. intros [= <-].
    rewrite Hlist, Hf. fold f in Hnone. rewrite Hnone.
    now intros [? ?].
  - intros names. rewrite listEvents_run. intros [= <-].
    rewrite Hlist.
    destruct (armedWith_advance_due f d T s1) as [_ Hfiles].
    { now apply saveEventData_arms. }
    { now rewrite Hck. }
    rewrite bool_decide_eq_false_2 in Hfiles by (rewrite Hun; exact Hw).
    rewrite Hfiles. eauto.
Qed.

Lemma saved_event_listed_after_write_witness :
  soleTimer (sanitizeEventName "Cup A") (initial 1000)
  /\ (sanitizeEventName "Cup A" ∉ unwritable (initial 1000))
  /\ files (initial 1000) !! sanitizeEventName "Cup A" = None
  /\ clock (initial 1000) + WRITE_DEBOUNCE_MS <= 6000
  /\ (forall names,
        fst (listEvents (advance 6000 Scenario.saved)) = Returned names ->
        sanitizeEventName "Cup A" ∈ names).
Proof.
  assert (H1 : soleTimer (sanitizeEventName "Cup A") (initial 1000))
    by apply soleTimer_initial.
  assert (H2 : sanitizeEventName "Cup A" ∉ unwritable (initial 1000))
    by (simpl; apply not_elem_of_empty).
  assert (H3 : files (initial 1000) !! sanitizeEventName "Cup A" = None)
    by apply lookup_empty.
  assert (H4 : clock (initial 1000) + WRITE_DEBOUNCE_MS <= 6000)
    by (simpl; unfold WRITE_DEBOUNCE_MS; lia).
  split; [exact H1|]. split; [exact H2|]. split; [exact H3|].
  split; [exact H4|].
  exact (proj2 (proj2 (proj2
           (saved_event_listed_after_write "Cup A" (Scenario.cupA 1000 90000)
              (initial 1000) 6000 H1 H2 H3 H4)))).
Defined.

(** ** What [processBestLap] leaves alone *)

Lemma loadEventData_cache_other e e' s :
  e' <> e ->
  eventCache (exec (loadEventData e) s) !! e' = eventCache s !! e'.
Proof.
  intros Hne. unfold exec. rewrite loadEventData_run.
  destruct (eventCache s !! e); [reflexivity|].
  destruct (onDisk e s); try reflexivity.
  simpl. now rewrite lookup_insert_ne by congruence.
Qed.

Lemma processBestLap_outcome d s :
  fst (processBestLap d s)
  = if evaluates d s && pilotless (loaded (eventNameOf d) s)
    then Thrown noPilots else Returned tt.
Proof.
  destruct (evaluates d s) eqn:Hev.
  2:{ now rewrite (processBestLap_skip d s Hev). }
  destruct (evaluates_candidate d s Hev) as (lapTime & Hc & Hpos).
  rewrite (processBestLap_run d s lapTime Hev Hc). cbv zeta.
  destruct (loaded (eventNameOf d) s) as [table|[| |name]]; cbn [andb pilotless];
    try reflexivity;
    (destruct (shouldUpdate _ lapTime); [|reflexivity]);
    now rewrite saveEventData_run.
Qed.

Lemma processBestLap_exec d s :
  let e := eventNameOf d in
  let p := Types.pilot_name d in
  let s' := exec (processBestLap d) s in
  files s' = files s /\ written s' = written s /\ clock s' = clock s
  /\ unwritable s' = unwritable s
  /\ (forall e', e' <> e -> eventCache s' !! e' = eventCache s !! e')
  /\ (forall key, key <> pilotKeyOf d ->
                  lastProcessedLap s' !! key = lastProcessedLap s !! key)
  /\ (forall p', p' <> p -> recordOf e p' s' = recordOf e p' s)
  /\ (forall g, g <> sanitizeEventName e ->
                pendingWrites s' !! g = pendingWrites s !! g).
Proof.
  cbv zeta. destruct (evaluates d s) eqn:Hev.
  2:{ unfold exec. rewrite (processBestLap_skip d s Hev). now repeat split. }
  destruct (evaluates_candidate d s Hev) as (lapTime & Hc & Hpos).
  set (e := eventNameOf d). set (p := Types.pilot_name d).
  set (st := exec (loadEventData e) (ledgered d lapTime s)).
  destruct (loadEventData_frame e (ledgered d lapTime s))
    as (Lpw & Ltm & Lnt & Lfl & Lwr & Lck & Llp & Lun).
  fold st in Lpw, Ltm, Lnt, Lfl, Lwr, Lck, Llp, Lun.
  cbn [ledgered pendingWrites timers nextTimer files written clock
       lastProcessedLap unwritable set_lastProcessedLap] in *.
  assert (Lc : forall e', e' <> e ->
                 eventCache st !! e' = eventCache s !! e').
  { intros e' Hne. unfold st. now rewrite loadEventData_cache_other. }
  assert (Ll : forall key, key <> pilotKeyOf d ->
                 lastProcessedLap st !! key = lastProcessedLap s !! key).
  { intros key Hne. rewrite Llp. now apply lookup_insert_ne. }
  assert (Lt : tableOf e st = tableOf e s).
  { unfold st. now rewrite tableOf_loadEventData. }
  destruct (processBestLap_exec_cases d s lapTime Hev Hc)
    as [->|(_ & _ & ->)]; fold e st.
  - split; [exact Lfl|].
    split; [exact Lwr|]. split; [exact Lck|]. split; [exact Lun|].
    split; [exact Lc|]. split; [exact Ll|]. split.
    + intros p' _. unfold recordOf. now rewrite Lt.
    + intros g _. now rewrite Lpw.
  - destruct (saveEventData_exec e
                (improved d lapTime (clock s) (consulted e s)) st)
      as (Sc & Spw & _ & _ & Sfl & Swr & Sck & Slp & Sun & _).
    split; [now rewrite Sfl|].
    split; [now rewrite Swr|]. split; [now rewrite Sck|].
    split; [now rewrite Sun|].
    split.
    { intros e' Hne. rewrite Sc, lookup_insert_ne by (now intros Heq; apply Hne).
      now apply Lc. }
    split; [intros key Hne; rewrite Slp; now apply Ll|].
    split.
    + intros p' Hne. unfold recordOf at 1.
      rewrite (tableOf_cached e (improved d lapTime (clock s) (consulted e s)))
        by (rewrite Sc; apply lookup_insert_eq).
      cbn [mbind option_bind improved setLastUpdated setPilot pilots].
      rewrite lookup_insert_ne by (now intros Heq; apply Hne).
      apply consulted_record.
    + intros g Hne.
      rewrite Spw, lookup_insert_ne by (now intros Heq; apply Hne).
      now rewrite Lpw.
Qed.

(** X13.  A call of [processBestLap] that is done before another one
    starts.  It throws exactly when it reaches the improvement decision
    and what is loaded for its event is truthy and has no pilots (a
    [TypeError], once the throttle entry is written and the value
    cached); otherwise it returns.  Either way it writes no file in the
    call itself, and whatever it does is confined to its own pilot and
    event: the cache entries of other events, the pending writes of
    other files, the throttle entries under other keys and the records
    of the other pilots of the event are as before. *)
Theorem processBestLap_touches_one_record d s :
  let e := eventNameOf d in
  let p := Types.pilot_name d in
  let s' := exec (processBestLap d) s in
  fst (processBestLap d s)
  = (if evaluates d s && pilotless (loaded e s)
     then Thrown noPilots else Returned tt)
  /\ files s' = files s /\ written s' = written s
  /\ (forall e', e' <> e -> eventCache s' !! e' = eventCache s !! e')
  /\ (forall key, key <> pilotKeyOf d ->
                  lastProcessedLap s' !! key = lastProcessedLap s !! key)
  /\ (forall p', p' <> p -> recordOf e p' s' = recordOf e p' s)
  /\ (forall g, g <> sanitizeEventName e ->
                pendingWrites s' !! g = pendingWrites s !! g).
Proof.
  destruct (processBestLap_exec d s)
    as (H2 & H3 & _ & _ & H4 & H5 & H6 & H7).
  cbv zeta. split; [apply processBestLap_outcome|].
  now repeat (split; [assumption|]).
Qed.

Example pilotless_file_makes_processBestLap_throw :
  let s := externalEdit "cup-a" (Foreign (Pilotless "")) (initial 1000) in
  let d := Scenario.entry "Cup A" "Ana" 90000 in
  processBestLap d s
  = (Thrown noPilots, exec (loadEventData "Cup A") (ledgered d 90000 s))
  /\ eventCache (exec (processBestLap d) s) !! "Cup A"%string
     = Some (Other (Pilotless ""))
  /\ processBestLap d
       (externalEdit "cup-a" (Foreign Null) (initial 1000))
     = (Returned tt,
        exec (saveEventData "Cup A"
                (improved d 90000 1000 (newEvent "Cup A" 1000 1000)))
          (exec (loadEventData "Cup A")
             (ledgered d 90000
                (externalEdit "cup-a" (Foreign Null) (initial 1000))))).
Proof.
  cbv zeta. split; [|split]; vm_compute; reflexivity.
Qed.

Lemma processBestLap_ledger d s lapTime :
  evaluates d s = true -> candidate d = Some lapTime ->
  let s' := exec (processBestLap d) s in
  lastProcessedLap s' !! pilotKeyOf d
  = Some {| LastProcessed.lap := lapTime;
            LastProcessed.timestamp := clock s |}.
Proof.
  intros Hev Hc. cbv zeta.
  set (st := exec (loadEventData (eventNameOf d)) (ledgered d lapTime s)).
  destruct (loadEventData_frame (eventNameOf d) (ledgered d lapTime s))
    as (_ & _ & _ & _ & _ & _ & Llp & _).
  fold st in Llp.
  destruct (processBestLap_exec_cases d s lapTime Hev Hc)
    as [->|(_ & _ & ->)]; fold st.
  - rewrite Llp. apply lookup_insert_eq.
  - unfold exec. rewrite saveEventData_run.
    cbn [snd lastProcessedLap set_pendingWrites
      set_nextTimer set_timers set_eventCache note set_accesses].
    rewrite Llp. apply lookup_insert_eq.
Qed.

(** X14.  The throttle is keyed on the text [event:pilot], not on the
    pair.  When two samples with different event and pilot names yield
    the same key and carry the same [bestLap], the second, arriving at
    any instant less than the throttle window after the first, is
    ignored: it changes nothing, and its pilot gets no record. *)
Theorem throttle_key_is_concatenation d1 d2 s lapTime T :
  pilotKeyOf d1 = pilotKeyOf d2 ->
  Types.bestLap d1 = Some lapTime ->
  Types.bestLap d2 = Some lapTime ->
  lapTime <> 0 ->
  evaluates d1 s = true ->
  T - clock s < MIN_PROCESS_INTERVAL_MS ->
  let s1 := advance T (exec (processBestLap d1) s) in
  processBestLap d2 s1 = (Returned tt, s1).
Proof.
  intros Hkey Hb1 Hb2 Hnz Hev HT s1.
  destruct (evaluates_candidate d1 s Hev) as (lap1 & Hc & Hpos).
  pose proof (processBestLap_ledger d1 s lap1 Hev Hc) as Hl.
  cbv zeta in Hl.
  destruct (advance_frame T (exec (processBestLap d1) s))
    as (_ & Hled & Hck & _).
  fold s1 in Hled, Hck. rewrite <- Hled in Hl.
  assert (lap1 = lapTime) as ->.
  { unfold candidate, or_else in Hc. rewrite Hb1 in Hc.
    apply Z.eqb_neq in Hnz. cbn [truthy] in Hc. rewrite Hnz in Hc.
    cbn [negb] in Hc. congruence. }
  rewrite Hkey in Hl.
  apply (processBestLap_throttled d2 s1 _ lapTime Hl);
    [|exact Hb2|reflexivity].
  cbn [LastProcessed.timestamp]. rewrite Hck. exact HT.
Qed.

Lemma throttle_key_is_concatenation_witness :
  pilotKeyOf (Scenario.entry "a:b" "c" 90000)
  = pilotKeyOf (Scenario.entry "a" "b:c" 90000)
  /\ 90000 <> 0
  /\ evaluates (Scenario.entry "a:b" "c" 90000) (initial 1000) = true
  /\ 4500 - clock (initial 1000) < MIN_PROCESS_INTERVAL_MS
  /\ recordOf "a" "b:c"
       (exec (processBestLap (Scenario.entry "a" "b:c" 90000))
          (advance 4500
             (exec (processBestLap (Scenario.entry "a:b" "c" 90000))
                (initial 1000))))
     = None.
Proof.
  assert (H1 : pilotKeyOf (Scenario.entry "a:b" "c" 90000)
               = pilotKeyOf (Scenario.entry "a" "b:c" 90000))
    by reflexivity.
  assert (H2 : evaluates (Scenario.entry "a:b" "c" 90000) (initial 1000)
               = true) by reflexivity.
  assert (H3 : 90000 <> 0) by discriminate.
  assert (H4 : 4500 - clock (initial 1000) < MIN_PROCESS_INTERVAL_MS)
    by (simpl; unfold MIN_PROCESS_INTERVAL_MS; lia).
  split; [exact H1|]. split; [exact H3|]. split; [exact H2|].
  split; [exact H4|].
  unfold exec at 1.
  rewrite (throttle_key_is_concatenation (Scenario.entry "a:b" "c" 90000)
             (Scenario.entry "a" "b:c" 90000) (initial 1000) 90000 4500
             H1 eq_refl eq_refl H3 H2 H4).
  vm_compute. reflexivity.
Defined.

(** ** A write that fails *)

(** X18.  A write that fails is not retried.  When the file of an event
    cannot be written, the save is attempted once, a quiet period after
    [saveEventData]; the failure is caught, the file stays as it was,
    the table stays in the cache and the entry stays in [pendingWrites],
    but no timer is left for the file: however much more time passes,
    nothing further is written. *)
Theorem failed_write_not_retried e d s T :
  soleTimer (sanitizeEventName e) s ->
  sanitizeEventName e ∈ unwritable s ->
  clock s + WRITE_DEBOUNCE_MS <= T ->
  let f := sanitizeEventName e in
  let s2 := advance T (exec (saveEventData e d) s) in
  written s2 !!! f = written s !!! f ++ [Table d]
  /\ files s2 !! f = files s !! f
  /\ is_Some (pendingWrites s2 !! f)
  /\ eventCache s2 !! e = Some (Table d)
  /\ forall T', files (advance T' s2) !! f = files s !! f
                /\ written (advance T' s2) !!! f
                   = written s !!! f ++ [Table d].
Proof.
  intros Hsole Hun HT f s2.
  set (s1 := exec (saveEventData e d) s) in *.
  destruct (saveEventData_exec e d s)
    as (Sc & _ & _ & _ & Sfl & Swr & Sck & _ & Sun & _).
  fold s1 in Sc, Sfl, Swr, Sck, Sun.
  destruct (saveEventData_arms e d s Hsole)
    as (Hsole1 & h & t & Hh & Ht & Hf & Hd & Hdue).
  fold s1 f in Hsole1, Hh, Ht, Hf, Hd, Hdue.
  destruct (advance_due f T s1 h t Hsole1 Ht Hf) as (W1 & W2 & W3 & W4);
    [rewrite Hdue, Sck; exact HT|].
  fold s2 in W1, W2, W3, W4.
  rewrite bool_decide_eq_true_2 in W2, W3 by (rewrite Sun; exact Hun).
  rewrite Hd, Swr in W1. rewrite Sfl in W2.
  destruct (advance_frame T s1) as (Hc & _). fold s2 in Hc.
  split; [exact W1|]. split; [exact W2|].
  split; [rewrite W3, Hh; eauto|].
  split; [rewrite Hc, Sc; apply lookup_insert_eq|].
  intros T'. destruct (advance_quiet f T' s2) as (Q1 & Q2 & _).
  { intros h' t' Ht' Hf'. now destruct (W4 h' t' Ht'). }
  split; [now rewrite Q1|].
  now rewrite lookup_total_alt, Q2, <- lookup_total_alt.
Qed.

Lemma failed_write_not_retried_witness :
  soleTimer (sanitizeEventName "Cup A") Scenario.readOnly
  /\ sanitizeEventName "Cup A" ∈ unwritable Scenario.readOnly
  /\ clock Scenario.readOnly + WRITE_DEBOUNCE_MS <= 6000
  /\ files (advance 6000
              (exec (saveEventData "Cup A" (Scenario.cupA 1000 90000))
                 Scenario.readOnly)) !! sanitizeEventName "Cup A"
     = None.
Proof.
  assert (H1 : soleTimer (sanitizeEventName "Cup A") Scenario.readOnly).
  { intros h t Ht. cbn [Scenario.readOnly timers] in Ht.
    now rewrite lookup_empty in Ht. }
  assert (H2 : sanitizeEventName "Cup A" ∈ unwritable Scenario.readOnly).
  { unfold Scenario.readOnly. cbn [unwritable].
    apply elem_of_singleton_2. vm_compute. reflexivity. }
  assert (H3 : clock Scenario.readOnly + WRITE_DEBOUNCE_MS <= 6000)
    by (simpl; unfold WRITE_DEBOUNCE_MS; lia).
  split; [exact H1|]. split; [exact H2|]. split; [exact H3|].
  exact (proj1 (proj2
           (failed_write_not_retried "Cup A" (Scenario.cupA 1000 90000)
              Scenario.readOnly 6000 H1 H2 H3))).
Defined.
End StoreFacts.

(* ===================================================================== *)
(** * What holds of the store whatever happens to it                      *)
(* ===================================================================== *)

Module CourseFacts.
Import Effect Effect.Notations Tracker.
Import Sanitize.
Import TrackerFacts StoreFacts.

#[local] Arguments sanitizeEventName : simpl never.
#[local] Arguments String.eqb : simpl never.

Lemma reloadEventData_exec e s :
  exec (reloadEventData e) s
  = exec (loadEventData e) (exec (invalidateCache (Some e)) s).
Proof.
  unfold reloadEventData, exec, bind, ret.
  assert (Hinv : exists s1, invalidateCache (Some e) s = (Returned tt, s1)).
  { unfold invalidateCache. destruct (String.eqb e ""); eauto. }
  destruct Hinv as [s1 ->]. cbn [snd].
  rewrite (loadEventData_split e s1). reflexivity.
Qed.

Lemma invalidateCache_subset x s e d :
  eventCache (exec (invalidateCache x) s) !! e = Some d ->
  eventCache s !! e = Some d.
Proof.
  destruct x as [name|]; simpl; [|now rewrite lookup_empty].
  destruct (String.eqb name ""); simpl; [now rewrite lookup_empty|].
  intros H. now apply lookup_delete_Some in H.
Qed.

Lemma evictFirst_exec inferredName names s :
  let s' := exec (evictFirst inferredName names) s in
  pendingWrites s' = pendingWrites s /\ timers s' = timers s
  /\ files s' = files s /\ lastProcessedLap s' = lastProcessedLap s
  /\ forall e d, eventCache s' !! e = Some d -> eventCache s !! e = Some d.
Proof.
  induction names as [|name names IH]; [now repeat split|].
  cbv zeta. unfold exec. cbn [evictFirst].
  destruct (String.eqb (sanitizeEventName name) inferredName); [|exact IH].
  destruct (invalidateCache_frame (Some name) s)
    as (H1 & H2 & _ & H3 & _ & _ & _ & H4).
  split; [exact H1|]. split; [exact H2|]. split; [exact H3|].
  split; [exact H4|]. intros e d. apply invalidateCache_subset.
Qed.

Lemma onUnlink_exec filename s :
  let s' := exec (onUnlink filename) s in
  pendingWrites s' = pendingWrites s /\ timers s' = timers s
  /\ files s' = files s /\ lastProcessedLap s' = lastProcessedLap s
  /\ forall e d, eventCache s' !! e = Some d -> eventCache s !! e = Some d.
Proof.
  pose proof (evictFirst_exec filename (map_to_list (eventCache s)).*1 s)
    as H.
  cbv zeta in *. unfold exec, onUnlink, bind, gets in *. exact H.
Qed.

Lemma onChange_cache_from filename s e v :
  eventCache (exec (onChange filename) s) !! e = Some v ->
  eventCache s !! e = Some v
  \/ exists content, files s !! filename = Some content
                     /\ parsed content = Some v.
Proof.
  unfold exec. rewrite onChange_run.
  destruct (files s !! filename) as [content|] eqn:Hf; [|now left].
  cbn [mbind option_bind].
  destruct (parsed content) as [v0|] eqn:Hp; [|now left].
  destruct (declares v0) as [declared|]; [|now left].
  cbv zeta.
  set (name := if String.eqb declared "" then filename else declared).
  unfold exec, invalidateCache, cache_clear, cache_delete, cache_set, bind,
    modify.
  destruct (String.eqb name ""); cbn [snd eventCache set_eventCache note
    set_accesses]; intros H;
    apply lookup_insert_Some in H as [[_ <-]|[_ H]]; eauto.
  - now rewrite lookup_empty in H.
  - apply lookup_delete_Some in H as [_ H]. now left.
Qed.

Lemma reloadAllEvents_exec s :
  let s' := exec reloadAllEvents s in
  pendingWrites s' = pendingWrites s /\ timers s' = timers s
  /\ files s' = files s /\ lastProcessedLap s' = lastProcessedLap s
  /\ forall e v, eventCache s' !! e = Some v ->
       exists file content, files s !! file = Some content
                            /\ parsed content = Some v.
Proof.
  cbv zeta. unfold exec. rewrite reloadAllEvents_run. cbn [snd].
  destruct (forOf_reloadFile_sound (map_to_list (files s)).*1
              (set_eventCache (fun _ => ∅) (note CacheClear s)))
    as (H1 & H2 & H3 & _ & H5 & _ & _ & Hs).
  split; [exact H3|]. split; [exact H2|]. split; [exact H1|].
  split; [exact H5|].
  intros e v Hv. destruct (Hs e v Hv) as [Hc|(_ & _ & f & c & _ & Hf & Hp)].
  - cbn [eventCache set_eventCache] in Hc. now rewrite lookup_empty in Hc.
  - eauto.
Qed.

(** ** Timers stay registered *)

Lemma timersRegistered_frame s s' :
  pendingWrites s' = pendingWrites s -> timers s' = timers s ->
  timersRegistered s -> timersRegistered s'.
Proof. intros Hpw Htm Hreg f. now apply (soleTimer_frame f s s'). Qed.

Lemma timersRegistered_occur o s :
  timersRegistered s -> timersRegistered (occur o s).
Proof.
  intros Hreg. destruct o as [h| | |filename|filename|filename content|filename];
    cbn [occur].
  - intros f. apply soleTimer_happen, Hreg.
  - destruct (flushPendingWrites_frame s) as (_ & Hpw & Htm & _).
    rewrite (cleared_registered s Hreg) in Htm.
    intros f h t Ht. now rewrite Htm, lookup_empty in Ht.
  - destruct (reloadAllEvents_exec s) as (Hpw & Htm & _).
    now apply (timersRegistered_frame s).
  - destruct (onChange_exec filename s) as (_ & _ & Htm & Hpw & _).
    now apply (timersRegistered_frame s).
  - destruct (onUnlink_exec filename s) as (Hpw & Htm & _).
    now apply (timersRegistered_frame s).
  - now apply (timersRegistered_frame s).
  - now apply (timersRegistered_frame s).
Qed.

Lemma course_invariant (P : State -> Prop) os s :
  (forall o s, P s -> P (occur o s)) -> P s -> P (course os s).
Proof.
  intros Hstep. unfold course. revert s.
  induction os as [|o os IH]; intros s Hs; [exact Hs|].
  simpl. apply IH, Hstep, Hs.
Qed.

(** X15.  Whatever happens to the store after start-up (samples, time
    passing, invalidations, reloads, flushes, watcher notifications,
    files edited or removed from outside), every timer the event loop
    holds is the one [pendingWrites] registers for its file: no file
    ever has two writes pending, and a cancelled write never fires. *)
Theorem timers_registered_throughout os now :
  timersRegistered (course os (initial now)).
Proof.
  apply course_invariant.
  - apply timersRegistered_occur.
  - intros f. apply soleTimer_initial.
Qed.

(** ** The throttle ledger holds positive laps *)

Lemma ledgerPositive_frame s s' :
  lastProcessedLap s' = lastProcessedLap s ->
  ledgerPositive s -> ledgerPositive s'.
Proof. intros Hl Hpos key last. rewrite Hl. apply Hpos. Qed.

Lemma ledgerPositive_processBestLap d s :
  ledgerPositive s -> ledgerPositive (exec (processBestLap d) s).
Proof.
  intros Hpos. destruct (evaluates d s) eqn:Hev.
  2:{ unfold exec. now rewrite (processBestLap_skip d s Hev). }
  destruct (evaluates_candidate d s Hev) as (lapTime & Hc & Hlap).
  intros key last Hkey.
  destruct (decide (key = pilotKeyOf d)) as [->|Hne].
  - rewrite (processBestLap_ledger d s lapTime Hev Hc) in Hkey.
    now injection Hkey as <-.
  - destruct (processBestLap_exec d s) as (_ & _ & _ & _ & _ & Hl & _).
    rewrite (Hl key Hne) in Hkey. now apply (Hpos key).
Qed.

Lemma ledgerPositive_occur o s :
  ledgerPositive s -> ledgerPositive (occur o s).
Proof.
  intros Hpos.
  destruct o as [[now|data|x|e|e]| | |filename|filename|filename content|filename];
    cbn [occur happen].
  - destruct (advance_frame now s) as (_ & Hl & _).
    now apply (ledgerPositive_frame s).
  - now apply ledgerPositive_processBestLap.
  - destruct (invalidateCache_frame x s) as (_ & _ & _ & _ & _ & _ & _ & Hl).
    now apply (ledgerPositive_frame s).
  - rewrite reloadEventData_exec.
    destruct (invalidateCache_frame (Some e) s)
      as (_ & _ & _ & _ & _ & _ & _ & Hl).
    destruct (loadEventData_frame e (exec (invalidateCache (Some e)) s))
      as (_ & _ & _ & _ & _ & _ & Hl' & _).
    apply (ledgerPositive_frame s); [congruence|exact Hpos].
  - destruct (loadEventData_frame e s) as (_ & _ & _ & _ & _ & _ & Hl & _).
    now apply (ledgerPositive_frame s).
  - destruct (flushPendingWrites_frame s) as (_ & _ & _ & _ & _ & _ & Hl & _).
    now apply (ledgerPositive_frame s).
  - destruct (reloadAllEvents_exec s) as (_ & _ & _ & Hl & _).
    now apply (ledgerPositive_frame s).
  - destruct (onChange_exec filename s)
      as (_ & _ & _ & _ & _ & _ & _ & Hl & _).
    now apply (ledgerPositive_frame s).
  - destruct (onUnlink_exec filename s) as (_ & _ & _ & Hl & _).
    now apply (ledgerPositive_frame s).
  - now apply (ledgerPositive_frame s).
  - now apply (ledgerPositive_frame s).
Qed.

(** X16.  Whatever happens to the store after start-up, every lap the
    throttle remembers is positive: [processBestLap] records a lap only
    after the check that rejects candidates that are missing, zero or
    negative. *)
Theorem ledger_positive_throughout os now :
  ledgerPositive (course os (initial now)).
Proof.
  apply course_invariant.
  - apply ledgerPositive_occur.
  - intros key last H. unfold initial in H. cbn [lastProcessedLap] in H.
    now rewrite lookup_empty in H.
Qed.

(** ** Tables stay well keyed *)

Lemma wellKeyed_newEvent name created updated :
  wellKeyed (newEvent name created updated).
Proof.
  intros p r Hp. cbn [newEvent pilots] in Hp. now rewrite lookup_empty in Hp.
Qed.

Lemma wellKeyed_improved d lapTime now table :
  0 < lapTime -> wellKeyed table -> wellKeyed (improved d lapTime now table).
Proof.
  intros Hpos Htable p r.
  cbn [improved setLastUpdated setPilot pilots].
  intros H. apply lookup_insert_Some in H as [[<- <-]|[_ H]].
  - now split.
  - now apply Htable.
Qed.

Lemma consistent_tableOf e s d :
  consistent s -> tableOf e s = Some d -> wellKeyed d.
Proof.
  intros (Hc & Hf & _). unfold tableOf, loaded, onDisk.
  destruct (eventCache s !! e) as [c|] eqn:Ec.
  - destruct c as [c|]; [|discriminate]. intros [= <-]. now apply (Hc e).
  - destruct (files s !! sanitizeEventName e) as [[|c|v]|] eqn:Ef;
      try discriminate.
    intros [= <-]. now apply (Hf (sanitizeEventName e)).
Qed.

Lemma consistent_consulted e s : consistent s -> wellKeyed (consulted e s).
Proof.
  intros Hs. unfold consulted.
  destruct (tableOf e s) as [d|] eqn:Ht; simpl.
  - now apply (consistent_tableOf e s).
  - apply wellKeyed_newEvent.
Qed.

Lemma consistent_writtenBack f d s :
  wellKeyed d -> consistent s -> consistent (writtenBack f d s).
Proof.
  intros Hd (Hc & Hf & Ht). unfold writtenBack.
  destruct (bool_decide (f ∈ unwritable s)); (split; [|split]);
    cbn [eventCache files timers set_written set_files set_pendingWrites];
    try assumption.
  intros g c H. apply lookup_insert_Some in H as [[_ [= <-]]|[_ H]];
    [exact Hd|now apply (Hf g)].
Qed.

Lemma consistent_fire h s : consistent s -> consistent (fire h s).
Proof.
  intros Hs. rewrite fire_run.
  destruct (timers s !! h) as [t|] eqn:Ht; [|exact Hs].
  destruct (due t <=? clock s); [|exact Hs].
  destruct Hs as (Hc & Hf & Htm).
  apply consistent_writtenBack; [now apply (Htm h)|].
  split; [exact Hc|]. split; [exact Hf|].
  intros h' t' H. cbn [timers set_timers] in H.
  apply lookup_delete_Some in H as [_ H]. now apply (Htm h').
Qed.

Lemma consistent_fireAll hs s : consistent s -> consistent (fireAll hs s).
Proof.
  revert s. induction hs as [|h hs IH]; intros s Hs; [exact Hs|].
  simpl. apply IH, consistent_fire, Hs.
Qed.

Lemma consistent_loadEventData e s :
  consistent s -> consistent (exec (loadEventData e) s).
Proof.
  intros Hs. destruct (loadEventData_frame e s) as (_ & Htm & _ & Hfl & _).
  pose proof Hs as (Hc & Hf & Ht).
  split; [|split; [now rewrite Hfl|now rewrite Htm]].
  intros e' d. destruct (decide (e' = e)) as [->|Hne].
  - unfold exec. rewrite loadEventData_run.
    destruct (eventCache s !! e) as [c|] eqn:Ec.
    + cbn [snd eventCache note set_accesses]. rewrite Ec. intros [= ->].
      now apply (Hc e).
    + unfold onDisk.
      destruct (files s !! sanitizeEventName e) as [[|c|v]|] eqn:Ef;
        cbn [mbind option_bind parsed snd eventCache note set_accesses
             set_eventCache]; rewrite ?Ec, ?lookup_insert_eq;
        try discriminate.
      intros [= <-]. now apply (Hf (sanitizeEventName e)).
  - rewrite (loadEventData_cache_other e e' s Hne). apply Hc.
Qed.

Lemma consistent_saveEventData e d s :
  wellKeyed d -> consistent s -> consistent (exec (saveEventData e d) s).
Proof.
  intros Hd (Hc & Hf & Ht).
  destruct (saveEventData_exec e d s) as (Sc & _ & Stm & _ & Sfl & _).
  split; [|split].
  - intros e' c. rewrite Sc. intros H.
    apply lookup_insert_Some in H as [[_ [= <-]]|[_ H]];
      [exact Hd|now apply (Hc e')].
  - now rewrite Sfl.
  - intros h t. rewrite Stm. intros H.
    apply lookup_insert_Some in H as [[_ <-]|[_ H]]; [exact Hd|].
    destruct (pendingWrites s !! sanitizeEventName e).
    + apply lookup_delete_Some in H as [_ H]. now apply (Ht h).
    + now apply (Ht h).
Qed.

Lemma consistent_processBestLap d s :
  consistent s -> consistent (exec (processBestLap d) s).
Proof.
  intros Hs. destruct (evaluates d s) eqn:Hev.
  2:{ unfold exec. now rewrite (processBestLap_skip d s Hev). }
  destruct (evaluates_candidate d s Hev) as (lapTime & Hc & Hpos).
  assert (Hl : consistent (exec (loadEventData (eventNameOf d))
                                (ledgered d lapTime s))).
  { apply consistent_loadEventData. exact Hs. }
  destruct (processBestLap_exec_cases d s lapTime Hev Hc)
    as [->|(_ & _ & ->)]; [exact Hl|].
  apply consistent_saveEventData; [|exact Hl].
  apply wellKeyed_improved; [exact Hpos|now apply consistent_consulted].
Qed.

Lemma consistent_invalidateCache x s :
  consistent s -> consistent (exec (invalidateCache x) s).
Proof.
  intros (Hc & Hf & Ht).
  destruct (invalidateCache_frame x s) as (_ & Htm & _ & Hfl & _).
  split; [|split; [now rewrite Hfl|now rewrite Htm]].
  intros e d H. apply invalidateCache_subset in H. now apply (Hc e).
Qed.

Lemma forOf_flushEntry_files entries s f c :
  files (exec (forOf flushEntry entries) s) !! f = Some c ->
  files s !! f = Some c
  \/ exists entry, entry ∈ entries /\ c = JSON_stringify (snd entry).
Proof.
  revert s. induction entries as [|entry entries IH]; intros s; [now left|].
  rewrite forOf_flushEntry_cons. intros H.
  destruct (IH _ H) as [Hin|(entry' & Hin & ->)].
  - unfold flushed in Hin.
    destruct (bool_decide (sanitizeEventName (fst entry) ∈ unwritable s));
      cbn [files set_files set_written] in Hin; [now left|].
    apply lookup_insert_Some in Hin as [[_ <-]|[_ Hin]]; [|now left].
    right. exists entry. split; [apply list_elem_of_here|reflexivity].
  - right. exists entry'. split; [now apply list_elem_of_further|reflexivity].
Qed.

Lemma consistent_flushPendingWrites s :
  consistent s -> consistent (exec flushPendingWrites s).
Proof.
  intros (Hc & Hf & Ht).
  destruct (flushPendingWrites_frame s) as (Fc & _ & Ftm & _).
  destruct (flushPendingWrites_store s) as [Ffl _].
  split; [now rewrite Fc|split].
  - intros f d. rewrite Ffl. intros H.
    apply forOf_flushEntry_files in H as [H|([e c] & Hin & Heq)].
    + now apply (Hf f).
    + apply elem_of_map_to_list in Hin.
      destruct c as [c|v]; [|discriminate Heq].
      injection Heq as ->. now apply (Hc e).
  - intros h t. rewrite Ftm, cleared_lookup.
    case_bool_decide; [discriminate|]. apply Ht.
Qed.

Lemma consistent_occur o s :
  benign o -> consistent s -> consistent (occur o s).
Proof.
  intros Hb Hs.
  destruct o as [[now|data|x|e|e]| | |filename|filename|filename content|filename];
    cbn [occur happen].
  - unfold advance. apply consistent_fireAll.
    destruct Hs as (Hc & Hf & Ht).
    split; [exact Hc|split; [exact Hf|exact Ht]].
  - now apply consistent_processBestLap.
  - now apply consistent_invalidateCache.
  - rewrite reloadEventData_exec.
    now apply consistent_loadEventData, consistent_invalidateCache.
  - now apply consistent_loadEventData.
  - now apply consistent_flushPendingWrites.
  - destruct Hs as (Hc & Hf & Ht).
    destruct (reloadAllEvents_exec s) as (_ & Htm & Hfl & _ & Hfrom).
    split; [|split; [now rewrite Hfl|now rewrite Htm]].
    intros e d H. destruct (Hfrom e _ H) as (f & c & Hd & Hp).
    destruct c as [|c|v]; try discriminate Hp.
    injection Hp as ->. now apply (Hf f).
  - destruct Hs as (Hc & Hf & Ht).
    destruct (onChange_exec filename s) as (_ & Hfl & Htm & _).
    split; [|split; [now rewrite Hfl|now rewrite Htm]].
    intros e d H. apply onChange_cache_from in H as [H|(c & H & Hp)];
      [now apply (Hc e)|].
    destruct c as [|c|v]; try discriminate Hp.
    injection Hp as ->. now apply (Hf filename).
  - destruct Hs as (Hc & Hf & Ht).
    destruct (onUnlink_exec filename s) as (_ & Htm & Hfl & _ & Hsub).
    split; [|split; [now rewrite Hfl|now rewrite Htm]].
    intros e d H. apply (Hc e), Hsub, H.
  - destruct Hs as (Hc & Hf & Ht).
    split; [exact Hc|split; [|exact Ht]].
    intros f d. unfold externalEdit. cbn [files set_files]. intros H.
    apply lookup_insert_Some in H as [[_ ->]|[_ H]];
      [exact Hb|now apply (Hf f)].
  - destruct Hs as (Hc & Hf & Ht).
    split; [exact Hc|split; [|exact Ht]].
    intros f d. unfold externalRemove. cbn [files set_files]. intros H.
    apply lookup_delete_Some in H as [_ H]. now apply (Hf f).
Qed.

Lemma consistent_course os s :
  Forall benign os -> consistent s -> consistent (course os s).
Proof.
  unfold course. revert s.
  induction os as [|o os IH]; intros s Hb Hs; [exact Hs|].
  apply Forall_cons in Hb as [Ho Hb]. simpl.
  apply IH; [exact Hb|]. now apply consistent_occur.
Qed.

Lemma consistent_initial now : consistent (initial now).
Proof.
  unfold initial. split; [|split]; intros k v H;
    cbn [eventCache files timers] in H; now rewrite lookup_empty in H.
Qed.

(** X17.  Whatever happens to the store after start-up, as long as the
    files put in the data directory from outside hold well-keyed
    tables, every record the tracker stores, in its cache or on disk,
    is filed under the name of its own pilot and has a positive lap
    time. *)
Theorem records_well_keyed_throughout os now e p r :
  Forall benign os ->
  recordOf e p (course os (initial now)) = Some r ->
  pilotName r = p /\ 0 < bestLapTime r.
Proof.
  intros Hb. unfold recordOf.
  destruct (tableOf e (course os (initial now))) as [d|] eqn:Ht;
    [|discriminate].
  cbn [mbind option_bind]. intros Hr.
  apply (consistent_tableOf e _ d) in Ht; [now apply Ht|].
  apply consistent_course; [exact Hb|apply consistent_initial].
Qed.

Lemma records_well_keyed_throughout_witness :
  Forall benign [Happens (Sample (Scenario.ana (Some 90000) None));
                 Happens (Tick 7000); Flush; Changed "cup-a"]
  /\ recordOf "Cup A" "Ana"
       (course [Happens (Sample (Scenario.ana (Some 90000) None));
                Happens (Tick 7000); Flush; Changed "cup-a"]
               (initial 1000))
     = Some (newRecord (Scenario.ana (Some 90000) None) 90000 1000)
  /\ 0 < bestLapTime (newRecord (Scenario.ana (Some 90000) None) 90000 1000).
Proof.
  assert (H1 : Forall benign
                 [Happens (Sample (Scenario.ana (Some 90000) None));
                  Happens (Tick 7000); Flush; Changed "cup-a"])
    by (repeat constructor).
  assert (H2 : recordOf "Cup A" "Ana"
       (course [Happens (Sample (Scenario.ana (Some 90000) None));
                Happens (Tick 7000); Flush; Changed "cup-a"]
               (initial 1000))
     = Some (newRecord (Scenario.ana (Some 90000) None) 90000 1000))
    by (vm_compute; reflexivity).
  split; [exact H1|]. split; [exact H2|].
  exact (proj2 (records_well_keyed_throughout _ 1000 "Cup A" "Ana" _ H1 H2)).
Defined.
End CourseFacts.

(* ===================================================================== *)
(** * Properties of the broadcast                                         *)
(* ===================================================================== *)

Module ManagerFacts.
Import Effect Effect.Notations Manager.

#[local] Arguments Logger.log : simpl never.
#[local] Arguments Z.add : simpl never.

Lemma shouldLog_error configured :
  Logger.shouldLog configured Logger.error = true.
Proof. now destruct configured. Qed.

Lemma log_error configured message data console :
  Logger.log configured Logger.error message data console
  = console ++ [{| Logger.level := Logger.error; Logger.message := message;
                   Logger.data := data |}].
Proof. unfold Logger.log. now rewrite shouldLog_error. Qed.

(** The callback on one client: it returns, also when [send] throws. *)
Lemma sendTo_run text sentCount client s :
  sendTo text sentCount client s =
  (Returned
     (if eligible client then
        match sendThrows (ws client) with
        | None => S sentCount
        | Some _ => sentCount
        end
      else sentCount,
      served text (clock s) client),
   set_console (fun log => log ++ failures [client]) s).
Proof.
  unfold sendTo, served, failures.
  fold (eligible client). destruct (eligible client).
  - unfold try_catch, bind, send, logger_log, Date_now, gets, modify, ret,
      throw.
    destruct (sendThrows (ws client)) as [reason|]; simpl;
      unfold set_console; rewrite ?log_error, ?app_nil_r;
      destruct s; reflexivity.
  - unfold ret, set_console. rewrite app_nil_r. destruct s; reflexivity.
Qed.

Lemma failures_app l1 l2 : failures (l1 ++ l2) = failures l1 ++ failures l2.
Proof.
  induction l1 as [|c l1 IH]; [reflexivity|]. simpl.
  destruct (eligible c); [|exact IH].
  destruct (sendThrows (ws c)); [|exact IH]. simpl. now rewrite IH.
Qed.

Lemma reached_cons c rest :
  reached (c :: rest)
  = Nat.add
      (if eligible c then
         match sendThrows (ws c) with None => 1%nat | Some _ => 0%nat end
       else 0%nat)
      (reached rest).
Proof.
  simpl. destruct (eligible c); [|reflexivity].
  now destruct (sendThrows (ws c)).
Qed.

(** The loop over the entries from index [length visited] on. *)
Lemma forEachFrom_run text todo :
  forall visited sentCount s,
    clients s = visited ++ todo ->
    forEachFrom (length visited) (length todo) (sendTo text) sentCount s =
    (Returned (sentCount + reached todo)%nat,
     set_console (fun log => log ++ failures todo)
       (set_clients (fun _ => visited ++ (served text (clock s) <$> todo)) s)).
Proof.
  induction todo as [|c rest IH]; intros visited sentCount s Hs.
  - simpl. unfold ret. f_equal; [f_equal; lia|].
    unfold set_console, set_clients. simpl. rewrite <- Hs, app_nil_r.
    now destruct s.
  - simpl length. cbn [forEachFrom].
    unfold bind at 1. unfold gets at 1.
    assert (Hc : clients s !! length visited = Some c)
      by (rewrite Hs; now apply list_lookup_middle).
    rewrite Hc. unfold bind at 1. unfold bind at 1.
    rewrite sendTo_run. unfold bind at 1. unfold modify at 1.
    unfold ret at 1. cbn [fst snd].
    set (s1 := set_clients _ _).
    assert (Hs1 : clients s1 = (visited ++ [served text (clock s) c]) ++ rest).
    { subst s1. simpl. rewrite Hs, <- app_assoc. simpl.
      rewrite insert_app_r_alt by lia.
      now rewrite Nat.sub_diag. }
    replace (S (length visited))
      with (length (visited ++ [served text (clock s) c]))
      by (rewrite length_app; simpl; lia).
    rewrite (IH _ _ s1 Hs1). f_equal.
    + f_equal. rewrite reached_cons.
      destruct (eligible c); [destruct (sendThrows (ws c))|]; lia.
    + subst s1. unfold set_console, set_clients. simpl.
      rewrite <- !app_assoc. simpl.
      destruct (eligible c); [destruct (sendThrows (ws c))|]; reflexivity.
Qed.

(** [broadcastToOutputs] in closed form: it returns, every client is
    served, the errors are logged, and the counter goes up by one. *)
Lemma broadcastToOutputs_run data s :
  broadcastToOutputs data s =
  (Returned tt,
   {| clients := served (payloadOf data (clock s)) (clock s) <$> clients s;
      startTime := startTime s;
      messageCount := messageCount s + 1;
      clock := clock s;
      logLevel := logLevel s;
      console :=
        Logger.log (logLevel s) Logger.debug
          (summary data (reached (clients s))) None
          (console s ++ failures (clients s)) |}).
Proof.
  unfold broadcastToOutputs, forEach.
  unfold bind at 1. unfold Date_now, gets at 1.
  unfold bind at 1. unfold bind at 1. unfold gets at 1.
  fold (payloadOf data (clock s)).
  rewrite (forEachFrom_run _ (clients s) [] 0%nat s eq_refl).
  reflexivity.
Qed.

Lemma getStats_run s :
  exists stats,
    getStats s = (Returned stats, s) /\ totalMessages stats = messageCount s.
Proof.
  unfold getStats, bind, gets, Date_now, ret. cbv zeta.
  eexists. split; reflexivity.
Qed.

Lemma served_lookup text now (all : list Client) (i : nat) c :
  all !! i = Some c ->
  (served text now <$> all) !! i = Some (served text now c).
Proof. intros H. now rewrite list_lookup_fmap, H. Qed.

Lemma served_ineligible text now (all : list Client) :
  (forall c, c ∈ all -> eligible c = false) ->
  served text now <$> all = all.
Proof.
  induction all as [|c all IH]; intros H; [reflexivity|].
  simpl. unfold served at 1.
  rewrite (H c) by apply list_elem_of_here.
  f_equal. apply IH. intros c' Hc'. apply H. now apply list_elem_of_further.
Qed.

Lemma failures_elem (all : list Client) (i : nat) c reason :
  all !! i = Some c -> eligible c = true ->
  sendThrows (ws c) = Some reason ->
  sendError c reason ∈ failures all.
Proof.
  revert i. induction all as [|c' all IH]; intros [|i] Hi He Hr;
    try discriminate.
  - injection Hi as ->. simpl. rewrite He, Hr. apply list_elem_of_here.
  - simpl in Hi. specialize (IH i Hi He Hr). simpl.
    destruct (eligible c'); [|exact IH].
    destruct (sendThrows (ws c')); [|exact IH].
    now apply list_elem_of_further.
Qed.

Lemma log_keeps configured level message data console e :
  e ∈ console -> e ∈ Logger.log configured level message data console.
Proof.
  unfold Logger.log. destruct (Logger.shouldLog configured level); [|auto].
  intros H. apply elem_of_app. now left.
Qed.

(** C5.  A broadcast wraps the sample with the type
    ["simulator-update"] and the instant of the call and serializes it
    once; every registered client of role output whose socket is open has
    that one text handed to its socket (appended to its outbox when the
    send returns), whatever the number of such clients, none included;
    the other clients are left as they are; and [messageCount], which
    [getStats] reports as [totalMessages], goes up by exactly one. *)
Theorem broadcastToOutputs_delivers data s :
  let s' := exec (broadcastToOutputs data) s in
  let text := JSON_stringify {| Types.type := "simulator-update";
                                Types.data := data;
                                Types.timestamp := clock s |} in
  messageCount s' = messageCount s + 1
  /\ (exists before after,
        getStats s = (Returned before, s)
        /\ getStats s' = (Returned after, s')
        /\ totalMessages after = totalMessages before + 1)
  /\ length (clients s') = length (clients s)
  /\ (forall i c,
        clients s !! i = Some c -> eligible c = true ->
        sendThrows (ws c) = None ->
        exists c',
          clients s' !! i = Some c'
          /\ outbox (ws c') = outbox (ws c) ++ [text]
          /\ lastActivity c' = Some (clock s)
          /\ id c' = id c /\ type c' = type c
          /\ readyState (ws c') = readyState (ws c))
  /\ (forall i c,
        clients s !! i = Some c -> eligible c = false ->
        clients s' !! i = Some c)
  /\ ((forall c, c ∈ clients s -> eligible c = false) ->
      clients s' = clients s).
Proof.
  cbv zeta. unfold exec. rewrite broadcastToOutputs_run. cbn [snd].
  split; [reflexivity|]. split.
  - destruct (getStats_run s) as (before & Hb & Hbm).
    match goal with |- context [getStats (Build_State ?a ?b ?c ?d ?e ?f)] =>
      destruct (getStats_run (Build_State a b c d e f))
        as (after & Ha & Ham) end.
    exists before, after. split; [exact Hb|]. split; [exact Ha|].
    rewrite Ham, Hbm. reflexivity.
  - cbn [clients]. split; [apply length_fmap|]. split; [|split].
    + intros i c Hi He Hr. eexists. split; [apply served_lookup, Hi|].
      unfold served. rewrite He, Hr. now repeat split.
    + intros i c Hi He. rewrite (served_lookup _ _ _ _ _ Hi).
      unfold served. now rewrite He.
    + apply served_ineligible.
Qed.

(** C6.  [broadcastToOutputs] never throws. When [send] throws for a
    client, the client is left as it was and one error naming it is
    written to the console, for each such client in order; every other
    open output client has the text handed to its socket all the same. *)
Theorem broadcastToOutputs_never_throws data s :
  let s' := exec (broadcastToOutputs data) s in
  let text := JSON_stringify {| Types.type := "simulator-update";
                                Types.data := data;
                                Types.timestamp := clock s |} in
  fst (broadcastToOutputs data s) = Returned tt
  /\ (forall i c reason,
        clients s !! i = Some c -> eligible c = true ->
        sendThrows (ws c) = Some reason ->
        clients s' !! i = Some c /\ sendError c reason ∈ console s')
  /\ console s'
     = Logger.log (logLevel s) Logger.debug
         (summary data (reached (clients s))) None
         (console s ++ failures (clients s))
  /\ (forall i c,
        clients s !! i = Some c -> eligible c = true ->
        sendThrows (ws c) = None ->
        clients s' !! i = Some (delivered text (clock s) c))
  /\ messageCount s' = messageCount s + 1.
Proof.
  cbv zeta. unfold exec. rewrite broadcastToOutputs_run. cbn [fst snd].
  split; [reflexivity|]. cbn [clients console messageCount].
  split; [|split; [reflexivity|split; [|reflexivity]]].
  - intros i c reason Hi He Hr. split.
    + rewrite (served_lookup _ _ _ _ _ Hi). unfold served.
      now rewrite He, Hr.
    + apply log_keeps, elem_of_app. right.
      eapply failures_elem; eauto.
  - intros i c Hi He Hr. rewrite (served_lookup _ _ _ _ _ Hi).
    unfold served. now rewrite He, Hr.
Qed.

Example room_broadcast :
  let s' := exec (broadcastToOutputs (Scenario.ana (Some 90000) None))
              ScenarioClients.room in
  (length ∘ outbox ∘ ws <$> clients s') = [0; 1; 0; 0; 1]%nat
  /\ messageCount s' = 42
  /\ console s'
     = [{| Logger.level := Logger.error;
           Logger.message := "Erro ao enviar para cliente display-2";
           Logger.data := Some "socket hang up"%string |}].
Proof. vm_compute. repeat split. Qed.
End ManagerFacts.

(* ===================================================================== *)
(** * The registry of clients                                             *)
(* ===================================================================== *)

Module RegistryFacts.
Import Effect Effect.Notations Manager.
Import ManagerFacts.

#[local] Arguments Logger.log : simpl never.
#[local] Arguments String.eqb : simpl never.

(** ** The map as a list *)

Lemma mapGet_Some key all c :
  mapGet key all = Some c -> c ∈ all /\ id c = key.
Proof.
  unfold mapGet. induction all as [|c' all IH]; [discriminate|].
  simpl. destruct (String.eqb (id c') key) eqn:E.
  - intros [= <-]. apply String.eqb_eq in E.
    split; [apply list_elem_of_here|exact E].
  - intros H. destruct (IH H) as [Hin Hid].
    split; [now apply list_elem_of_further|exact Hid].
Qed.

Lemma mapGet_None key all :
  mapGet key all = None <-> key ∉ id <$> all.
Proof.
  unfold mapGet. induction all as [|c all IH].
  - split; [intros _; apply not_elem_of_nil|reflexivity].
  - simpl. destruct (String.eqb (id c) key) eqn:E.
    + apply String.eqb_eq in E. split; [discriminate|].
      intros H. destruct H. rewrite E. apply list_elem_of_here.
    + apply String.eqb_neq in E. rewrite IH. rewrite not_elem_of_cons.
      split; [intros H; split; [congruence|exact H]|now intros [_ H]].
Qed.

Lemma mapDelete_ids key all :
  key ∉ id <$> mapDelete key all.
Proof.
  unfold mapDelete. intros H. apply list_elem_of_fmap in H as (c & -> & Hc).
  apply list_elem_of_filter in Hc as [Hne _]. now apply Hne.
Qed.

Lemma mapDelete_absent key all :
  key ∉ id <$> all -> mapDelete key all = all.
Proof.
  unfold mapDelete. induction all as [|c all IH]; intros H; [reflexivity|].
  rewrite fmap_cons in H. apply not_elem_of_cons in H as [Hne H].
  rewrite filter_cons_True by congruence. f_equal. now apply IH.
Qed.

Lemma mapSet_absent client all :
  id client ∉ id <$> all -> mapSet client all = all ++ [client].
Proof.
  induction all as [|c all IH]; intros H; [reflexivity|].
  rewrite fmap_cons in H. apply not_elem_of_cons in H as [Hne H].
  simpl. assert (E : String.eqb (id c) (id client) = false)
    by (apply String.eqb_neq; congruence).
  rewrite E. f_equal. now apply IH.
Qed.

Lemma mapSet_ids client all :
  id client ∈ id <$> all -> id <$> mapSet client all = id <$> all.
Proof.
  induction all as [|c all IH]; intros H.
  - now apply elem_of_nil in H.
  - simpl. destruct (String.eqb (id c) (id client)) eqn:E.
    + apply String.eqb_eq in E. simpl. now rewrite E.
    + apply String.eqb_neq in E. simpl. f_equal. apply IH.
      rewrite fmap_cons in H. apply elem_of_cons in H as [H|H];
        [congruence|exact H].
Qed.

Lemma mapGet_mapSet client all :
  mapGet (id client) (mapSet client all) = Some client.
Proof.
  unfold mapGet. induction all as [|c all IH]; simpl.
  - now rewrite String.eqb_refl.
  - destruct (String.eqb (id c) (id client)) eqn:E; simpl.
    + now rewrite String.eqb_refl.
    + now rewrite E.
Qed.

Lemma mapGet_mapSet_other key client all :
  key <> id client -> mapGet key (mapSet client all) = mapGet key all.
Proof.
  intros Hne. unfold mapGet. induction all as [|c all IH]; simpl.
  - assert (E : String.eqb (id client) key = false)
      by (apply String.eqb_neq; congruence).
    now rewrite E.
  - destruct (String.eqb (id c) (id client)) eqn:E; simpl.
    + apply String.eqb_eq in E.
      assert (E1 : String.eqb (id c) key = false)
        by (apply String.eqb_neq; congruence).
      assert (E2 : String.eqb (id client) key = false)
        by (apply String.eqb_neq; congruence).
      now rewrite E1, E2.
    + destruct (String.eqb (id c) key); [reflexivity|exact IH].
Qed.

(** ** [removeClient] *)

Lemma removeClient_run key s :
  removeClient key s =
  match mapGet key (clients s) with
  | None => (Returned tt, s)
  | Some client =>
      (Returned tt,
       set_clients (mapDelete key)
         (set_console
            (Logger.log (logLevel s) Logger.info
               ("Cliente " +:+ upper (type client) +:+ " desconectado")
               (Some key)) s))
  end.
Proof.
  unfold removeClient, bind, gets, logger_log, modify, ret. cbn [fst snd].
  now destruct (mapGet key (clients s)).
Qed.

(** X19.  [removeClient] never throws.  For an identifier that is not
    registered it does nothing at all, not even log; for a registered
    one it logs the disconnection once and removes the entry, leaving
    the other clients in their order.  Afterwards the identifier is not
    registered, so a second call (the socket's ["close"] event after an
    ["error"], say) changes nothing. *)
Theorem removeClient_idempotent key s :
  let s' := exec (removeClient key) s in
  fst (removeClient key s) = Returned tt
  /\ (mapGet key (clients s) = None -> s' = s)
  /\ clients s' = filter (fun c => id c <> key) (clients s)
  /\ fst (getClient key s') = Returned None
  /\ removeClient key s' = (Returned tt, s').
Proof.
  cbv zeta. unfold exec. rewrite removeClient_run.
  destruct (mapGet key (clients s)) as [client|] eqn:Hget; cbn [fst snd].
  - split; [reflexivity|]. split; [discriminate|]. split; [reflexivity|].
    assert (Hgone : mapGet key (mapDelete key (clients s)) = None).
    { apply mapGet_None, mapDelete_ids. }
    split.
    + unfold getClient, gets. cbn [fst clients set_clients set_console].
      now rewrite Hgone.
    + rewrite removeClient_run. cbn [clients set_clients set_console].
      now rewrite Hgone.
  - split; [reflexivity|]. split; [reflexivity|].
    apply mapGet_None in Hget as Habsent.
    split; [symmetry; now apply mapDelete_absent|].
    split.
    + unfold getClient, gets. cbn [fst]. now rewrite Hget.
    + rewrite removeClient_run. now rewrite Hget.
Qed.

(** ** [getStats] *)

Lemma getStats_value s :
  getStats s
  = (Returned
       {| inputClients :=
            length (filter (fun c => isInput (type c) = true) (clients s));
          outputClients :=
            length (filter (fun c => isOutput (type c) = true) (clients s));
          totalMessages := messageCount s;
          uptime := (clock s - startTime s) / 1000;
          activeSimulators :=
            distinct (omap simulatorId
                        (filter (fun c => isInput (type c) = true)
                                (clients s))) |},
     s).
Proof. reflexivity. Qed.

Lemma distinct_from (values seen : list Z) :
  NoDup seen ->
  let result :=
    foldl (fun seen v => if bool_decide (v ∈ seen) then seen else seen ++ [v])
          seen values in
  NoDup result /\ forall v, v ∈ result <-> v ∈ seen \/ v ∈ values.
Proof.
  revert seen. induction values as [|x values IH]; intros seen Hnd.
  - cbv zeta. simpl. split; [exact Hnd|]. intros v. split; [now left|].
    intros [H|H]; [exact H|now apply elem_of_nil in H].
  - cbv zeta. simpl. case_bool_decide as Hx.
    + destruct (IH seen Hnd) as [H1 H2]. split; [exact H1|].
      intros v. rewrite H2, elem_of_cons. split.
      * intros [H|H]; auto.
      * intros [H|[->|H]]; auto.
    + assert (Hnd' : NoDup (seen ++ [x])).
      { apply NoDup_app. split; [exact Hnd|]. split.
        - intros y Hy Hy'. apply list_elem_of_singleton in Hy'. congruence.
        - apply NoDup_singleton. }
      destruct (IH (seen ++ [x]) Hnd') as [H1 H2]. split; [exact H1|].
      intros v. rewrite H2, elem_of_app, list_elem_of_singleton, elem_of_cons.
      tauto.
Qed.

Lemma distinct_spec (values : list Z) :
  NoDup (distinct values) /\ forall v, v ∈ distinct values <-> v ∈ values.
Proof.
  destruct (distinct_from values [] (NoDup_nil_2)) as [H1 H2].
  split; [exact H1|]. intros v. unfold distinct. rewrite H2.
  split; [intros [H|H]; [now apply elem_of_nil in H|exact H]|now right].
Qed.

Lemma roles_partition (all : list Client) :
  (length (filter (fun c => isInput (type c) = true) all)
   + length (filter (fun c => isOutput (type c) = true) all))%nat
  = length all.
Proof.
  induction all as [|c all IH]; [reflexivity|].
  destruct (type c) eqn:Ht.
  - rewrite filter_cons_True by (now rewrite Ht).
    rewrite (filter_cons_False (fun c => isOutput (type c) = true))
      by (now rewrite Ht).
    simpl. now rewrite IH.
  - rewrite filter_cons_False by (now rewrite Ht).
    rewrite (filter_cons_True (fun c => isOutput (type c) = true))
      by (now rewrite Ht).
    simpl. rewrite <- IH. lia.
Qed.

Lemma activeSimulators_elem (all : list Client) (n : Z) :
  n ∈ omap simulatorId (filter (fun c => isInput (type c) = true) all)
  <-> exists c, c ∈ all /\ type c = input /\ simulatorId c = Some n.
Proof.
  rewrite list_elem_of_omap. split.
  - intros (c & Hc & Hn). apply list_elem_of_filter in Hc as [Ht Hc].
    exists c. split; [exact Hc|]. split; [|exact Hn].
    now destruct (type c).
  - intros (c & Hc & Ht & Hn). exists c. split; [|exact Hn].
    apply list_elem_of_filter. split; [now rewrite Ht|exact Hc].
Qed.

(** X20.  [getStats] changes nothing and never throws.  Every client is
    counted once, as a producer or as a display; [activeSimulators]
    lists, without repetition, exactly the simulator numbers associated
    with the registered producers; [totalMessages] is the message
    counter and [uptime] the whole seconds since the manager was
    created. *)
Theorem getStats_counts s :
  exists stats,
    getStats s = (Returned stats, s)
    /\ (inputClients stats + outputClients stats)%nat = length (clients s)
    /\ NoDup (activeSimulators stats)
    /\ (forall n, n ∈ activeSimulators stats
                  <-> exists c, c ∈ clients s /\ type c = input
                                /\ simulatorId c = Some n)
    /\ totalMessages stats = messageCount s
    /\ uptime stats = (clock s - startTime s) / 1000.
Proof.
  eexists. split; [apply getStats_value|].
  cbn [inputClients outputClients activeSimulators totalMessages uptime].
  split; [apply roles_partition|].
  split; [apply distinct_spec|].
  split; [|now split].
  intros n. rewrite <- activeSimulators_elem. apply distinct_spec.
Qed.

(** ** [addClient] *)

Lemma addClient_run socket type uuid s :
  addClient socket type uuid s
  = (Returned uuid,
     set_console
       (Logger.log (logLevel s) Logger.info
          ("Cliente " +:+ upper type +:+ " conectado") (Some uuid))
       (set_clients
          (mapSet {| id := uuid; ws := socket; type := type;
                     connectedAt := clock s; simulatorId := None;
                     lastActivity := Some (clock s) |}) s)).
Proof. reflexivity. Qed.

(** X21.  [addClient] with an identifier that is not yet registered
    returns that identifier and appends one client to the registry,
    with the given socket and role, no simulator, and the instant of
    the call as connection time and last activity.  The clients already
    registered keep their places; [getClient] finds the new one; and in
    [getStats] the count of its role goes up by one while the other
    count and the active simulators stay. *)
Theorem addClient_registers socket type uuid s :
  uuid ∉ id <$> clients s ->
  let client := {| id := uuid; ws := socket; type := type;
                   connectedAt := clock s; simulatorId := None;
                   lastActivity := Some (clock s) |} in
  let s' := exec (addClient socket type uuid) s in
  fst (addClient socket type uuid s) = Returned uuid
  /\ clients s' = clients s ++ [client]
  /\ fst (getClient uuid s') = Returned (Some client)
  /\ (uniqueIds s -> uniqueIds s')
  /\ exists before after,
       fst (getStats s) = Returned before
       /\ fst (getStats s') = Returned after
       /\ inputClients after
          = (inputClients before + if isInput type then 1 else 0)%nat
       /\ outputClients after
          = (outputClients before + if isOutput type then 1 else 0)%nat
       /\ activeSimulators after = activeSimulators before.
Proof.
  intros Hfresh client s'.
  assert (Hs' : clients s' = clients s ++ [client]).
  { unfold s', exec. rewrite addClient_run.
    cbn [snd clients set_clients set_console].
    now apply (mapSet_absent client). }
  split; [reflexivity|]. split; [exact Hs'|]. split; [|split].
  - unfold getClient, gets. cbn [fst].
    unfold s', exec. rewrite addClient_run.
    cbn [snd clients set_clients set_console].
    now rewrite (mapGet_mapSet client).
  - unfold uniqueIds. rewrite Hs', fmap_app. intros Hnd.
    apply NoDup_app. split; [exact Hnd|]. split; [|apply NoDup_singleton].
    intros x Hx Hx'. apply list_elem_of_singleton in Hx'. simpl in Hx'.
    congruence.
  - eexists. eexists.
    split; [rewrite getStats_value; reflexivity|].
    split; [rewrite getStats_value; reflexivity|].
    cbn [inputClients outputClients activeSimulators].
    rewrite Hs', !filter_app, !length_app, omap_app.
    destruct type; cbn [isInput isOutput].
    + rewrite (filter_cons_True _ client) by reflexivity.
      rewrite (filter_cons_False (fun c => isOutput (Manager.type c) = true)
                 client) by discriminate.
      rewrite !filter_nil. cbn [length omap simulatorId client].
      rewrite app_nil_r. repeat split; lia.
    + rewrite (filter_cons_False _ client) by discriminate.
      rewrite (filter_cons_True (fun c => isOutput (Manager.type c) = true)
                 client) by reflexivity.
      rewrite !filter_nil. cbn [length omap].
      rewrite app_nil_r. repeat split; lia.
Qed.

Lemma addClient_registers_witness :
  ("display-5"%string ∉ id <$> clients ScenarioClients.room)
  /\ length (clients
               (exec (addClient (ScenarioClients.socket Types.OPEN None)
                        output "display-5") ScenarioClients.room))
     = 6%nat.
Proof.
  assert (H : "display-5"%string ∉ id <$> clients ScenarioClients.room).
  { intros Hin. vm_compute in Hin.
    repeat (apply elem_of_cons in Hin as [Hin|Hin]; [discriminate|]).
    now apply elem_of_nil in Hin. }
  split; [exact H|].
  rewrite (proj1 (proj2 (addClient_registers
                           (ScenarioClients.socket Types.OPEN None)
                           output "display-5" ScenarioClients.room H))).
  reflexivity.
Defined.

(** ** [setSimulatorId] *)

Lemma setSimulatorId_run clientId n s :
  setSimulatorId clientId n s =
  match mapGet clientId (clients s) with
  | Some client =>
      if isInput (type client) then
        (Returned tt,
         set_console
           (Logger.log (logLevel s) Logger.debug
              ("Cliente " +:+ clientId +:+ " associado ao simulador "
               +:+ pretty n) None)
           (set_clients (mapSet (withSimulatorId n client)) s))
      else (Returned tt, s)
  | None => (Returned tt, s)
  end.
Proof.
  unfold setSimulatorId, bind, gets, logger_log, modify, ret. cbn [fst snd].
  destruct (mapGet clientId (clients s)) as [client|]; [|reflexivity].
  now destruct (isInput (type client)).
Qed.

(** X22.  [setSimulatorId] never throws and acts on producers only: for
    an identifier that is not registered, or that of a display, nothing
    changes and nothing is logged.  For a producer the simulator number
    is stored on its entry, which keeps its place, socket, role and
    times; [getClient] returns the updated entry and [getStats] lists
    the number among the active simulators. *)
Theorem setSimulatorId_producers_only clientId n s :
  let s' := exec (setSimulatorId clientId n) s in
  fst (setSimulatorId clientId n s) = Returned tt
  /\ match mapGet clientId (clients s) with
     | Some client =>
         if isInput (type client) then
           id <$> clients s' = id <$> clients s
           /\ fst (getClient clientId s')
              = Returned (Some (withSimulatorId n client))
           /\ (forall key, key <> clientId ->
                 fst (getClient key s') = fst (getClient key s))
           /\ exists stats, fst (getStats s') = Returned stats
                            /\ n ∈ activeSimulators stats
         else s' = s
     | None => s' = s
     end.
Proof.
  cbv zeta. unfold exec. rewrite setSimulatorId_run.
  destruct (mapGet clientId (clients s)) as [client|] eqn:Hget;
    [|now split].
  destruct (isInput (type client)) eqn:Hrole; [|now split].
  cbn [fst snd]. split; [reflexivity|].
  destruct (mapGet_Some _ _ _ Hget) as [Hin Hid].
  assert (Hid' : id (withSimulatorId n client) = clientId) by exact Hid.
  assert (Hgot : mapGet clientId
                   (mapSet (withSimulatorId n client) (clients s))
                 = Some (withSimulatorId n client)).
  { rewrite <- Hid'. apply mapGet_mapSet. }
  split; [|split; [|split]].
  - cbn [clients set_clients set_console]. apply mapSet_ids.
    rewrite Hid', <- Hid. apply list_elem_of_fmap. now exists client.
  - unfold getClient, gets. cbn [fst clients set_clients set_console].
    now rewrite Hgot.
  - intros key Hne. unfold getClient, gets.
    cbn [fst clients set_clients set_console].
    rewrite mapGet_mapSet_other; [reflexivity|]. now rewrite Hid'.
  - eexists. split; [rewrite getStats_value; reflexivity|].
    cbn [activeSimulators clients set_clients set_console].
    apply distinct_spec, activeSimulators_elem.
    exists (withSimulatorId n client).
    split; [now apply (mapGet_Some clientId)|].
    split; [|reflexivity].
    cbn [withSimulatorId type]. now destruct (type client).
Qed.

(** ** Broadcasts in a row *)

Lemma served_reached text now c :
  eligible c = true -> sendThrows (ws c) = None ->
  let c' := served text now c in
  eligible c' = true /\ sendThrows (ws c') = None
  /\ outbox (ws c') = outbox (ws c) ++ [text] /\ id c' = id c.
Proof.
  intros He Hs. cbv zeta. unfold served. rewrite He, Hs.
  unfold eligible in *. now repeat split.
Qed.

(** X23.  Broadcasts reach a display in the order they are made: after
    any series of broadcasts, a client that was an open display whose
    [send] works has had exactly the texts of those broadcasts handed
    to its socket, one per broadcast and in order, each stamped with
    the instant of its broadcast; and the message counter has gone up
    by the number of broadcasts. *)
Theorem broadcasts_arrive_in_order series :
  forall s (i : nat) c,
    clients s !! i = Some c ->
    eligible c = true ->
    sendThrows (ws c) = None ->
    let s' := broadcasts series s in
    messageCount s' = messageCount s + Z.of_nat (length series)
    /\ exists c',
         clients s' !! i = Some c'
         /\ id c' = id c
         /\ outbox (ws c')
            = outbox (ws c)
              ++ ((fun call => payloadOf (snd call) (fst call)) <$> series).
Proof.
  induction series as [|[now data] series IH]; intros s i c Hi He Hs.
  - cbv zeta. simpl. split; [lia|]. exists c. rewrite app_nil_r. now split.
  - cbv zeta. unfold broadcasts. cbn [foldl fst snd].
    fold (broadcasts series
            (exec (broadcastToOutputs data) (set_clock (fun _ => now) s))).
    set (s1 := exec (broadcastToOutputs data) (set_clock (fun _ => now) s)).
    assert (Hs1 : s1 = snd (broadcastToOutputs data
                              (set_clock (fun _ => now) s))) by reflexivity.
    rewrite broadcastToOutputs_run in Hs1. cbn [snd] in Hs1.
    cbn [clients clock set_clock messageCount] in Hs1.
    destruct (served_reached (payloadOf data now) now c He Hs)
      as (He1 & Hs1' & Hout & Hid).
    assert (Hi1 : clients s1 !! i
                  = Some (served (payloadOf data now) now c)).
    { rewrite Hs1. cbn [clients]. now apply served_lookup. }
    destruct (IH s1 i _ Hi1 He1 Hs1') as (Hcount & c' & Hc' & Hid' & Hout').
    split.
    + rewrite Hcount, Hs1. cbn [messageCount length]. lia.
    + exists c'. split; [exact Hc'|]. split; [congruence|].
      rewrite Hout', Hout, <- app_assoc. reflexivity.
Qed.

Lemma broadcasts_arrive_in_order_witness :
  clients ScenarioClients.room !! 1%nat
  = Some (ScenarioClients.client "display-1" output Types.OPEN None)
  /\ messageCount
       (broadcasts [(6000, Scenario.ana (Some 90000) None);
                    (7000, Scenario.ana (Some 89000) None)]
                   ScenarioClients.room)
     = 43.
Proof.
  assert (H : clients ScenarioClients.room !! 1%nat
              = Some (ScenarioClients.client "display-1" output
                        Types.OPEN None)) by reflexivity.
  split; [exact H|].
  exact (proj1 (broadcasts_arrive_in_order
                  [(6000, Scenario.ana (Some 90000) None);
                   (7000, Scenario.ana (Some 89000) None)]
                  ScenarioClients.room 1%nat _ H eq_refl eq_refl)).
Defined.

(** ** Whatever happens to the manager *)

Lemma served_id text now c : id (served text now c) = id c.
Proof.
  unfold served. destruct (eligible c); [|reflexivity].
  now destruct (sendThrows (ws c)).
Qed.

Lemma served_ids text now (all : list Client) :
  id <$> (served text now <$> all) = id <$> all.
Proof.
  induction all as [|c all IH]; [reflexivity|].
  rewrite !fmap_cons, served_id. now f_equal.
Qed.

Lemma mapDelete_NoDup key all :
  NoDup (id <$> all) -> NoDup (id <$> mapDelete key all).
Proof.
  unfold mapDelete. induction all as [|c all IH]; intros Hnd; [exact Hnd|].
  rewrite fmap_cons in Hnd. apply NoDup_cons in Hnd as [Hc Hnd].
  destruct (decide (id c <> key)) as [Hne|Heq].
  - rewrite filter_cons_True by exact Hne. rewrite fmap_cons.
    apply NoDup_cons. split; [|now apply IH].
    intros Hin. apply Hc. apply list_elem_of_fmap in Hin as (c' & -> & Hc').
    apply list_elem_of_filter in Hc' as [_ Hc'].
    apply list_elem_of_fmap. now exists c'.
  - rewrite filter_cons_False by exact Heq. now apply IH.
Qed.

Lemma mapSet_NoDup client all :
  NoDup (id <$> all) -> NoDup (id <$> mapSet client all).
Proof.
  intros Hnd. destruct (decide (id client ∈ id <$> all)) as [Hin|Hnin].
  - now rewrite mapSet_ids.
  - rewrite mapSet_absent by exact Hnin. rewrite fmap_app.
    apply NoDup_app. split; [exact Hnd|]. split; [|apply NoDup_singleton].
    intros x Hx Hx'. apply list_elem_of_singleton in Hx'. simpl in Hx'.
    congruence.
Qed.

Lemma step_keeps st s :
  let s' := step st s in
  messageCount s' = messageCount s + (if isBroadcast st then 1 else 0)
  /\ (uniqueIds s -> uniqueIds s').
Proof.
  destruct st as [socket type uuid|key|key reason|clientId n|data| |now];
    cbv zeta; cbn [step isBroadcast]; unfold uniqueIds.
  - unfold exec. rewrite addClient_run.
    cbn [snd clients messageCount set_clients set_console].
    split; [lia|apply mapSet_NoDup].
  - unfold onClose, exec. rewrite removeClient_run.
    destruct (mapGet key (clients s));
      cbn [snd clients messageCount set_clients set_console];
      (split; [lia|]); [apply mapDelete_NoDup|auto].
  - change (exec (onError key reason) s)
      with (exec (removeClient key)
              (set_console
                 (Logger.log (logLevel s) Logger.error
                    ("Erro no cliente " +:+ key) (Some reason)) s)).
    unfold exec. rewrite removeClient_run. cbn [clients set_console logLevel].
    destruct (mapGet key (clients s));
      cbn [snd clients messageCount set_clients set_console];
      (split; [lia|]); [apply mapDelete_NoDup|auto].
  - unfold exec. rewrite setSimulatorId_run.
    destruct (mapGet clientId (clients s)) as [client|];
      [|split; [cbn [snd]; lia|auto]].
    destruct (isInput (type client)); [|split; [cbn [snd]; lia|auto]].
    cbn [snd clients messageCount set_clients set_console].
    split; [lia|apply mapSet_NoDup].
  - unfold exec. rewrite broadcastToOutputs_run.
    cbn [snd clients messageCount]. split; [reflexivity|].
    now rewrite served_ids.
  - change (exec disconnectAll s)
      with (set_clients (fun _ => [])
              (set_console
                 (Logger.log (logLevel s) Logger.info
                    "Desconectando todos os clientes" None) s)).
    cbn [clients messageCount set_clients set_console].
    split; [lia|]. intros _. apply NoDup_nil_2.
  - cbn [clients messageCount set_clock]. split; [lia|auto].
Qed.

(** X24.  Whatever happens to a connection manager after it is
    created (clients connecting under whatever identifiers, sockets
    closing or failing, producers being associated with simulators,
    broadcasts, a disconnection of all), its message counter is the
    number of broadcasts made, whether or not any of them reached a
    client, and no two registered clients share an identifier. *)
Theorem totalMessages_counts_broadcasts steps now configured :
  let s := run steps (fresh now configured) in
  messageCount s = Z.of_nat (length (List.filter isBroadcast steps))
  /\ uniqueIds s.
Proof.
  cbv zeta.
  assert (Hgen : forall s,
    messageCount (run steps s)
    = messageCount s + Z.of_nat (length (List.filter isBroadcast steps))
    /\ (uniqueIds s -> uniqueIds (run steps s))).
  { unfold run. induction steps as [|st steps IH]; intros s.
    - simpl. split; [lia|auto].
    - simpl. destruct (IH (step st s)) as [Hcount Huniq].
      destruct (step_keeps st s) as [Hc Hu].
      split; [|auto].
      rewrite Hcount, Hc. destruct (isBroadcast st); simpl length; lia. }
  destruct (Hgen (fresh now configured)) as [Hcount Huniq].
  split; [rewrite Hcount; cbn [fresh messageCount]; lia|].
  apply Huniq. apply NoDup_nil_2.
Qed.
End RegistryFacts.

(* ===================================================================== *)
(** * The logger's history                                                *)
(* ===================================================================== *)

Module LoggerFacts.
Import Logger.

Lemma push_recent cap (event : LogEvent) (printed : list LogEvent) :
  (1 <= cap)%nat ->
  let kept := drop (length printed - cap) printed in
  (if Nat.ltb cap (length (kept ++ [event]))
   then tail (kept ++ [event]) else kept ++ [event])
  = drop (length (printed ++ [event]) - cap) (printed ++ [event]).
Proof.
  intros Hcap kept. rewrite !length_app. cbn [length].
  assert (Hk : length kept = Nat.min (length printed) cap).
  { unfold kept. rewrite length_drop. lia. }
  rewrite Hk.
  destruct (Nat.ltb_spec cap (Nat.min (length printed) cap + 1)) as [Hlt|Hge].
  - assert (Hn : (cap <= length printed)%nat) by lia.
    replace (length printed + 1 - cap)%nat
      with (S (length printed - cap)) by lia.
    rewrite drop_app_le by lia.
    assert (Htail : forall l : list LogEvent, tail l = drop 1 l)
      by (now intros [|? ?]).
    rewrite Htail, drop_app_le by lia.
    unfold kept. rewrite drop_drop.
    now replace (length printed - cap + 1)%nat
      with (S (length printed - cap)) by lia.
  - assert (Hn : (length printed < cap)%nat) by lia.
    unfold kept.
    replace (length printed - cap)%nat with 0%nat by lia.
    replace (length printed + 1 - cap)%nat with 0%nat by lia.
    reflexivity.
Qed.

Lemma write_recent event logger :
  history logger
  = drop (length (output logger) - maxHistorySize) (output logger) ->
  history (write event logger)
  = drop (length (output (write event logger)) - maxHistorySize)
         (output (write event logger)).
Proof.
  intros Hinv. unfold write, log.
  destruct (shouldLog (configured logger) (level event)); [|exact Hinv].
  cbn [history output]. unfold push. rewrite Hinv.
  destruct event as [lv msg dt]. cbn [level message data].
  apply push_recent. unfold maxHistorySize. lia.
Qed.

(** X25.  The logger's history is the tail of what it printed: after
    any series of calls on a new logger, [getHistory] returns the last
    [maxHistorySize] (1000) lines written to the console, all of them
    while fewer have been written, in order; a call below the
    configured level is neither printed nor recorded. *)
Theorem history_is_recent_output events logLevel :
  let logger := writes events (create logLevel) in
  getHistory logger
  = drop (length (output logger) - maxHistorySize) (output logger)
  /\ (length (getHistory logger) <= maxHistorySize)%nat
  /\ output logger
     = List.filter (fun event => shouldLog logLevel (level event)) events.
Proof.
  cbv zeta.
  assert (Hgen : forall logger,
    history logger
    = drop (length (output logger) - maxHistorySize) (output logger) ->
    history (writes events logger)
    = drop (length (output (writes events logger)) - maxHistorySize)
           (output (writes events logger))
    /\ configured (writes events logger) = configured logger
    /\ output (writes events logger)
       = output logger
         ++ List.filter
              (fun event => shouldLog (configured logger) (level event))
              events).
  { unfold writes. induction events as [|event events IH]; intros logger Hinv.
    - simpl. rewrite app_nil_r. now repeat split.
    - simpl. destruct (IH (write event logger) (write_recent _ _ Hinv))
        as (H1 & H2 & H3).
      split; [exact H1|].
      assert (Hc : configured (write event logger) = configured logger).
      { unfold write. now destruct (shouldLog _ _). }
      rewrite Hc in H2, H3. split; [exact H2|]. rewrite H3.
      unfold write, log.
      destruct (shouldLog (configured logger) (level event));
        cbn [output]; [|reflexivity].
      destruct event as [lv msg dt]. cbn [level message data].
      now rewrite <- app_assoc. }
  destruct (Hgen (create logLevel)) as (H1 & _ & H3); [reflexivity|].
  unfold getHistory. split; [exact H1|]. split; [|exact H3].
  rewrite H1, length_drop. lia.
Qed.
End LoggerFacts.

(* ===================================================================== *)
(** * Properties of the producer message handler                          *)
(* ===================================================================== *)

Module ServerFacts.
Import Effect Effect.Notations Server.

#[local] Arguments Logger.log : simpl never.
#[local] Arguments String.eqb : simpl never.

Example handles_update :
  calls (exec (onMessage "producer-1" ScenarioMessages.update)
           (fresh Logger.info))
  = [setSimulatorId "producer-1" (JNumber 1);
     processBestLap ScenarioMessages.sample;
     broadcastToOutputs ScenarioMessages.sample].
Proof. reflexivity. Qed.

Example replies_to_ping :
  calls (exec (onMessage "producer-1" ScenarioMessages.ping)
           (fresh Logger.info))
  = [ws_send (errorReply formatError)].
Proof. reflexivity. Qed.

Example replies_to_carless :
  calls (exec (onMessage "producer-1" ScenarioMessages.carless)
           (fresh Logger.info))
  = [ws_send (errorReply dataError)].
Proof. reflexivity. Qed.

Lemma validateSimulatorData_run data s :
  data <> JNull ->
  validateSimulatorData data s = (Returned (validData data), s).
Proof.
  intros Hnn. destruct data; try congruence; reflexivity.
Qed.

Lemma truthy_not_null data : truthy (Some data) = true -> data <> JNull.
Proof. intros H ->. discriminate H. Qed.

Ltac run_handler :=
  cbv [try_catch bind logger_log JSON_parse member send call gets modify
       throw ret negb orb];
  cbn [fst snd calls sendThrows logLevel console set_calls set_console].

Ltac finish_handler s :=
  run_handler;
  cbv [notSimulatorUpdate truthy negb orb];
  run_handler; destruct (sendThrows s); run_handler;
  rewrite ?app_nil_r; split; reflexivity.

(** A message that is no well-formed sample, whatever its text: the
    calls the handler makes. *)
Lemma onMessage_rejects clientId raw s :
  wellFormed raw = false ->
  calls (exec (onMessage clientId raw) s)
  = calls s ++
    (match raw with
     | NotJson | JsonText JNull => []
     | JsonText (JObject members) =>
         if notSimulatorUpdate (lookupMember "type" members)
            || negb (truthy (lookupMember "data" members))
         then [ws_send (errorReply formatError)]
         else [ws_send (errorReply dataError)]
     | JsonText _ => [ws_send (errorReply formatError)]
     end)
  /\ returns (onMessage clientId raw) s = true.
Proof.
  intros Hwf. unfold exec, returns, onMessage.
  destruct raw as [|value]; [finish_handler s|].
  destruct value as [|b|n|str|items|members]; try (finish_handler s).
  simpl in Hwf.
  destruct (notSimulatorUpdate (lookupMember "type" members)) eqn:Htype.
  { run_handler. rewrite Htype. finish_handler s. }
  destruct (lookupMember "data" members) as [data|] eqn:Hdata.
  2:{ run_handler. rewrite Htype, Hdata. finish_handler s. }
  destruct (truthy (Some data)) eqn:Htruthy.
  2:{ run_handler. rewrite Htype, Hdata. run_handler. rewrite Htruthy.
      finish_handler s. }
  simpl in Hwf. run_handler. rewrite Htype, Hdata. run_handler.
  rewrite Htruthy. run_handler.
  rewrite (validateSimulatorData_run data _ (truthy_not_null data Htruthy)).
  rewrite Hwf. finish_handler s.
Qed.

(** Text that is not JSON, or is [null]: the exception is caught and
    logged, and nothing else happens. *)
Lemma onMessage_unreadable clientId raw s :
  readable raw = false ->
  exists reason,
    exec (onMessage clientId raw) s
    = set_console
        (Logger.log (logLevel s) Logger.error
           "Erro ao processar mensagem INPUT" (Some reason))
        (set_console
           (Logger.log (logLevel s) Logger.debug
              "Mensagem recebida em /input" None) s).
Proof.
  intros Hr. unfold exec, onMessage.
  destruct raw as [|[|b|n|str|items|members]]; try discriminate Hr;
    eexists; run_handler; reflexivity.
Qed.

(** C8, on the code.  A message whose text is not JSON, and one whose
    text is [null], are no well-formed samples; for both the [catch] of
    the handler logs the error and hands nothing to the producer's
    socket, so the producer gets no error acknowledgment.  The two
    branches beside it do reply: a message of another type and a sample
    without its car both get one. *)
Theorem unparseable_message_gets_no_reply :
  wellFormed NotJson = false
  /\ wellFormed ScenarioMessages.null = false
  /\ calls (exec (onMessage "producer-1" NotJson) (fresh Logger.info)) = []
  /\ console (exec (onMessage "producer-1" NotJson) (fresh Logger.info))
     = [{| Logger.level := Logger.error;
           Logger.message := "Erro ao processar mensagem INPUT";
           Logger.data := Some "Unexpected token in JSON"%string |}]
  /\ calls (exec (onMessage "producer-1" ScenarioMessages.null)
              (fresh Logger.info)) = []
  /\ console (exec (onMessage "producer-1" ScenarioMessages.null)
                (fresh Logger.info))
     = [{| Logger.level := Logger.error;
           Logger.message := "Erro ao processar mensagem INPUT";
           Logger.data := Some "Cannot read properties of null"%string |}]
  /\ calls (exec (onMessage "producer-1" ScenarioMessages.ping)
              (fresh Logger.info))
     = [ws_send (errorReply formatError)]
  /\ calls (exec (onMessage "producer-1" ScenarioMessages.carless)
              (fresh Logger.info))
     = [ws_send (errorReply dataError)].
Proof. repeat split; reflexivity. Qed.

(** What the handler does with a message that is no well-formed sample:
    it never reaches the tracker or the broadcast, and the handler
    returns. If its text parses to a value other than [null], one error
    reply [{ type: "error", message: reason }] is handed to the
    producer's socket; if the text is not JSON or is [null], the error is
    logged and no reply is made. *)
Lemma onMessage_rejects_malformed clientId raw s :
  wellFormed raw = false ->
  let s' := exec (onMessage clientId raw) s in
  returns (onMessage clientId raw) s = true
  /\ (readable raw = true ->
      exists reason, calls s' = calls s ++ [ws_send (errorReply reason)])
  /\ (readable raw = false ->
      calls s' = calls s
      /\ exists reason,
           console s'
           = Logger.log (logLevel s) Logger.error
               "Erro ao processar mensagem INPUT" (Some reason)
               (Logger.log (logLevel s) Logger.debug
                  "Mensagem recebida em /input" None (console s)))
  /\ (forall c, c ∈ calls s' -> c ∈ calls s \/ isReply c = true).
Proof.
  intros Hwf s'. subst s'.
  destruct (onMessage_rejects clientId raw s Hwf) as [Hcalls Hret].
  split; [exact Hret|].
  assert (Hlog : readable raw = false ->
                 exists reason,
                   console (exec (onMessage clientId raw) s)
                   = Logger.log (logLevel s) Logger.error
                       "Erro ao processar mensagem INPUT" (Some reason)
                       (Logger.log (logLevel s) Logger.debug
                          "Mensagem recebida em /input" None (console s))).
  { intros Hr. destruct (onMessage_unreadable clientId raw s Hr) as [reason ->].
    now exists reason. }
  revert Hlog. rewrite Hcalls. clear Hcalls Hret Hwf. intros Hlog.
  destruct raw as [|[|b|n|str|items|members]]; simpl;
    try (split; [discriminate|split;
           [intros Hr; split; [apply app_nil_r|exact (Hlog Hr)]|]];
         intros c Hc; left; now rewrite app_nil_r in Hc);
    try (split; [intros _; eauto|split; [discriminate|]];
         intros c Hc; apply elem_of_app in Hc as [Hc|Hc]; [now left|right];
         apply list_elem_of_singleton in Hc; now subst c).
  destruct (notSimulatorUpdate (lookupMember "type" members)
            || negb (truthy (lookupMember "data" members)));
    (split; [intros _; eauto|split; [discriminate|]];
     intros c Hc; apply elem_of_app in Hc as [Hc|Hc]; [now left|right];
     apply list_elem_of_singleton in Hc; now subst c).
Qed.

Example carless_sample_rejected :
  exists reason,
    calls (exec (onMessage "producer-1" ScenarioMessages.carless)
             (fresh Logger.info))
    = calls (fresh Logger.info) ++ [ws_send (errorReply reason)].
Proof.
  assert (H : wellFormed ScenarioMessages.carless = false) by reflexivity.
  apply (proj1 (proj2 (onMessage_rejects_malformed "producer-1"
                         ScenarioMessages.carless (fresh Logger.info) H))).
  reflexivity.
Qed.

End ServerFacts.

(* ===================================================================== *)
(** * A sample that is relayed, and the HTTP endpoints                    *)
(* ===================================================================== *)

Module RelayFacts.
Import Effect Effect.Notations Server.
Import ServerFacts.




End RelayFacts.

Module HttpFacts.
Import Effect Effect.Notations Http.
Import TrackerFacts StoreFacts CourseFacts.

#[local] Arguments String.eqb : simpl never.

Lemma inTracker_getEventData name s :
  inTracker (Tracker.getEventData name) s
  = (Returned (Tracker.loaded name (tracker s)),
     set_tracker (fun _ => exec (Tracker.loadEventData name) (tracker s)) s).
Proof.
  unfold inTracker, Tracker.getEventData. cbv zeta.
  now rewrite (loadEventData_split name (tracker s)).
Qed.

Lemma reloadEventData_returns name t :
  fst (Tracker.reloadEventData name t) = Returned tt.
Proof.
  unfold Tracker.reloadEventData, bind, ret.
  assert (Hinv : exists t1,
             Tracker.invalidateCache (Some name) t = (Returned tt, t1)).
  { unfold Tracker.invalidateCache. destruct (String.eqb name ""); eauto. }
  destruct Hinv as [t1 ->].
  now rewrite (loadEventData_split name t1).
Qed.

Lemma inTracker_reloadEventData name s :
  inTracker (Tracker.reloadEventData name) s
  = (Returned tt,
     set_tracker (fun _ => exec (Tracker.reloadEventData name) (tracker s)) s).
Proof. unfold inTracker. cbv zeta. now rewrite reloadEventData_returns. Qed.

Lemma inTracker_reloadAllEvents s :
  inTracker Tracker.reloadAllEvents s
  = (Returned tt,
     set_tracker (fun _ => exec Tracker.reloadAllEvents (tracker s)) s).
Proof.
  unfold inTracker. cbv zeta. unfold exec.
  now rewrite (reloadAllEvents_run (tracker s)).
Qed.

Ltac run_request :=
  cbv [try_catch bind JSON_parse eventNameOf withEventName respond
       respondBare modify ret throw gets Server.truthy negb];
  rewrite ?inTracker_getEventData, ?inTracker_reloadEventData,
    ?inTracker_reloadAllEvents;
  cbn [fst snd tracker manager responses set_tracker set_manager
       set_responses Server.lookupMember];
  rewrite ?inTracker_getEventData, ?inTracker_reloadEventData,
    ?inTracker_reloadAllEvents;
  cbn [fst snd tracker manager responses set_tracker set_manager
       set_responses].

Lemma method_post req :
  method req = "POST"%string ->
  String.eqb (method req) "GET" = false
  /\ String.eqb (method req) "POST" = true.
Proof. now intros ->. Qed.

(** X27.  [POST /events] answers 200 with the table, or 404, by what
    [getEventData] returns for the requested name: the cached table or
    else the table of the event's file, which is thereby cached (and
    likewise 200 with any other truthy value cached or parsed for the
    name, 404 for a falsy one).  Every
    other body gets one 400 and leaves the tracker untouched: an empty
    or unparseable body, JSON [null], a missing or falsy [eventName],
    and also an [eventName] that is no string. *)
Theorem events_post_answers req s :
  method req = "POST"%string ->
  let s' := exec (handleEventsRequest req) s in
  fst (handleEventsRequest req s) = Returned tt
  /\ manager s' = manager s
  /\ match requested (payload req) with
     | Some (Server.JString name) =>
         tracker s' = exec (Tracker.loadEventData name) (tracker s)
         /\ responses s'
            = responses s
              ++ [match Tracker.loaded name (tracker s) with
                  | Tracker.Other Tracker.Null
                  | Tracker.Other Tracker.Falsy =>
                      answer 404 (NotFound "Evento não encontrado"
                                    (Server.JString name))
                  | data => answer 200 (Table data)
                  end]
     | _ =>
         tracker s' = tracker s
         /\ exists error detail,
              responses s' = responses s ++ [answer 400 (Failure error detail)]
     end.
Proof.
  intros Hm. destruct (method_post req Hm) as [Hget Hpost].
  cbv zeta. unfold exec, handleEventsRequest. rewrite Hget, Hpost.
  unfold requested.
  destruct (payload req) as [|[|[| | | | |members]]]; run_request;
    try (split; [reflexivity|split; [reflexivity|split; [reflexivity|]]];
         eexists; eexists; reflexivity).
  destruct (Server.lookupMember "eventName" members)
    as [[|[|]|n|name|items|fields]|]; run_request;
    try (split; [reflexivity|split; [reflexivity|split; [reflexivity|]]];
         eexists; eexists; reflexivity).
  - destruct (n =? 0); run_request;
      (split; [reflexivity|split; [reflexivity|split; [reflexivity|]]];
       eexists; eexists; reflexivity).
  - destruct (String.eqb name ""); run_request.
    + split; [reflexivity|split; [reflexivity|split; [reflexivity|]]].
      eexists; eexists; reflexivity.
    + destruct (Tracker.loaded name (tracker s)) as [table|[| |declared]];
        cbn [Tracker.falsy]; run_request; now repeat split.
Qed.

Lemma events_post_answers_witness :
  method {| method := "POST"; pathname := "/events";
            payload := Text (Server.JsonText
                               (Server.JObject
                                  [("eventName"%string,
                                    Server.JString "Cup A")])) |}
  = "POST"%string
  /\ responses
       (exec (handleEventsRequest
                {| method := "POST"; pathname := "/events";
                   payload := Text (Server.JsonText
                                      (Server.JObject
                                         [("eventName"%string,
                                           Server.JString "Cup A")])) |})
             (serving Scenario.stored ScenarioClients.room))
     = [answer 200 (Table (Tracker.Table (Scenario.cupA 1000 90000)))].
Proof.
  split; [reflexivity|].
  exact (proj2 (proj2 (proj2
           (events_post_answers
              {| method := "POST"; pathname := "/events";
                 payload := Text (Server.JsonText
                                    (Server.JObject
                                       [("eventName"%string,
                                         Server.JString "Cup A")])) |}
              (serving Scenario.stored ScenarioClients.room) eq_refl)))).
Defined.

(** X28.  [POST /reload] with a non-empty string as [eventName]
    reloads that event and always answers 200 with [success], whether
    or not the event has a file; with an empty body, or a body that has
    no truthy [eventName], it reloads all events and answers 200.  A
    body that does not parse or is [null], or an [eventName] that is no
    string, gets a 500 and leaves the tracker untouched. *)
Theorem reload_post_answers req s :
  method req = "POST"%string ->
  let s' := exec (handleReloadRequest req) s in
  fst (handleReloadRequest req s) = Returned tt
  /\ manager s' = manager s
  /\ match requested (payload req) with
     | Some (Server.JString name) =>
         tracker s' = exec (Tracker.reloadEventData name) (tracker s)
         /\ responses s'
            = responses s
              ++ [answer 200
                    (Success ("Evento '" +:+ name
                              +:+ "' recarregado com sucesso")
                       (Some (Server.JString name)))]
     | Some _ =>
         tracker s' = tracker s
         /\ exists detail,
              responses s'
              = responses s
                ++ [answer 500 (Failure "Erro ao recarregar dados" detail)]
     | None =>
         if reloadsAll (payload req) then
           tracker s' = exec Tracker.reloadAllEvents (tracker s)
           /\ responses s'
              = responses s
                ++ [answer 200
                      (Success "Todos os eventos recarregados com sucesso"
                         None)]
         else
           tracker s' = tracker s
           /\ exists detail,
                responses s'
                = responses s
                  ++ [answer 500 (Failure "Erro ao recarregar dados" detail)]
     end.
Proof.
  intros Hm. destruct (method_post req Hm) as [_ Hpost].
  cbv zeta. unfold exec, handleReloadRequest. rewrite Hpost.
  unfold requested, reloadsAll, destructurable.
  destruct (payload req) as [|[|[| | | | |members]]]; run_request;
    try (split; [reflexivity|split; [reflexivity|split; [reflexivity|]]];
         first [reflexivity | eexists; reflexivity]).
  destruct (Server.lookupMember "eventName" members)
    as [[|[|]|n|name|items|fields]|]; run_request;
    try (split; [reflexivity|split; [reflexivity|split; [reflexivity|]]];
         first [reflexivity | eexists; reflexivity]).
  - destruct (n =? 0); run_request;
      (split; [reflexivity|split; [reflexivity|split; [reflexivity|]]];
       first [reflexivity | eexists; reflexivity]).
  - destruct (String.eqb name ""); run_request;
      now repeat split.
Qed.

Lemma reload_post_answers_witness :
  method {| method := "POST"; pathname := "/reload";
            payload := Text (Server.JsonText
                               (Server.JObject
                                  [("eventName"%string,
                                    Server.JString "No Such Cup")])) |}
  = "POST"%string
  /\ Tracker.onDisk "No Such Cup" Scenario.stored = None
  /\ responses
       (exec (handleReloadRequest
                {| method := "POST"; pathname := "/reload";
                   payload := Text (Server.JsonText
                                      (Server.JObject
                                         [("eventName"%string,
                                           Server.JString "No Such Cup")])) |})
             (serving Scenario.stored ScenarioClients.room))
     = [answer 200
          (Success "Evento 'No Such Cup' recarregado com sucesso"
             (Some (Server.JString "No Such Cup")))].
Proof.
  split; [reflexivity|]. split; [vm_compute; reflexivity|].
  exact (proj2 (proj2 (proj2
           (reload_post_answers
              {| method := "POST"; pathname := "/reload";
                 payload := Text (Server.JsonText
                                    (Server.JObject
                                       [("eventName"%string,
                                         Server.JString "No Such Cup")])) |}
              (serving Scenario.stored ScenarioClients.room) eq_refl)))).
Defined.

(** ** Every request is answered *)

Lemma handleEventsRequest_answers req s :
  exists r t,
    handleEventsRequest req s
    = (Returned tt,
       {| tracker := t; manager := manager s;
          responses := responses s ++ [r] |})
    /\ (String.eqb (method req) "GET" = false ->
        String.eqb (method req) "POST" = false ->
        t = tracker s
        /\ r = answer 405 (Failure "Método não permitido" None)).
Proof.
  unfold handleEventsRequest.
  destruct (String.eqb (method req) "GET") eqn:Hget.
  { run_request. eexists. eexists. split; [reflexivity|discriminate]. }
  destruct (String.eqb (method req) "POST") eqn:Hpost.
  2:{ run_request. eexists. eexists. split; [reflexivity|now split]. }
  destruct (payload req) as [|[|[| | | | |members]]]; run_request;
    try (eexists; eexists; split; [reflexivity|discriminate]).
  destruct (Server.lookupMember "eventName" members)
    as [[|[|]|n|name|items|fields]|]; run_request;
    try (eexists; eexists; split; [reflexivity|discriminate]).
  - destruct (n =? 0); run_request;
      eexists; eexists; (split; [reflexivity|discriminate]).
  - destruct (String.eqb name ""); run_request.
    + eexists; eexists; split; [reflexivity|discriminate].
    + destruct (Tracker.loaded name (tracker s)) as [table|[| |declared]];
        cbn [Tracker.falsy]; run_request;
        eexists; eexists; (split; [reflexivity|discriminate]).
Qed.

Lemma handleReloadRequest_answers req s :
  exists r t,
    handleReloadRequest req s
    = (Returned tt,
       {| tracker := t; manager := manager s;
          responses := responses s ++ [r] |})
    /\ (String.eqb (method req) "POST" = false ->
        t = tracker s
        /\ r = answer 405 (Usage "Método não permitido. Use POST")).
Proof.
  unfold handleReloadRequest.
  destruct (String.eqb (method req) "POST") eqn:Hpost.
  2:{ run_request. eexists. eexists. split; [reflexivity|now split]. }
  destruct (payload req) as [|[|[| | | | |members]]]; run_request;
    try (eexists; eexists; split; [reflexivity|discriminate]).
  destruct (Server.lookupMember "eventName" members)
    as [[|[|]|n|name|items|fields]|]; run_request;
    try (eexists; eexists; split; [reflexivity|discriminate]).
  - destruct (n =? 0); run_request;
      eexists; eexists; (split; [reflexivity|discriminate]).
  - destruct (String.eqb name ""); run_request;
      eexists; eexists; (split; [reflexivity|discriminate]).
Qed.

(** X29.  [handleHttpRequest] never throws and writes exactly one
    response to every request, whatever its method, path and body, and
    leaves the connection manager as it was.  An [OPTIONS] request gets
    200 with the CORS headers and no body on any path; a path other
    than [/health], [/stats], [/events] and [/reload] gets a bare 404;
    [/stats] answers with what [getStats] returns; and a method other
    than [GET] or [POST] on [/events], or other than [POST] on
    [/reload], gets 405.  None of these touches the tracker. *)
Theorem every_request_answered_once req s :
  let s' := exec (handleHttpRequest req) s in
  fst (handleHttpRequest req s) = Returned tt
  /\ manager s' = manager s
  /\ exists r,
       responses s' = responses s ++ [r]
       /\ (if String.eqb (method req) "OPTIONS" then
             r = answer 200 NoBody /\ tracker s' = tracker s
           else if String.eqb (pathname req) "/health" then
             r = answer 200 Health /\ tracker s' = tracker s
           else if String.eqb (pathname req) "/stats" then
             (exists stats,
                fst (Manager.getStats (manager s)) = Returned stats
                /\ r = answer 200 (Stats stats))
             /\ tracker s' = tracker s
           else if String.eqb (pathname req) "/events" then
             String.eqb (method req) "GET" = false ->
             String.eqb (method req) "POST" = false ->
             r = answer 405 (Failure "Método não permitido" None)
             /\ tracker s' = tracker s
           else if String.eqb (pathname req) "/reload" then
             String.eqb (method req) "POST" = false ->
             r = answer 405 (Usage "Método não permitido. Use POST")
             /\ tracker s' = tracker s
           else
             r = {| status := 404; headers := false;
                    body := PlainText "Not Found" |}
             /\ tracker s' = tracker s).
Proof.
  cbv zeta. unfold exec, handleHttpRequest.
  destruct (String.eqb (method req) "OPTIONS").
  { run_request. split; [reflexivity|]. split; [reflexivity|].
    eexists. split; [reflexivity|now split]. }
  destruct (String.eqb (pathname req) "/health").
  { run_request. split; [reflexivity|]. split; [reflexivity|].
    eexists. split; [reflexivity|now split]. }
  destruct (String.eqb (pathname req) "/stats").
  { destruct (ManagerFacts.getStats_run (manager s)) as (stats & Hstats & _).
    unfold bind, inManager. cbv zeta. rewrite Hstats. run_request.
    split; [reflexivity|]. split; [reflexivity|].
    eexists. split; [reflexivity|]. split; [|reflexivity].
    exists stats. split; reflexivity. }
  destruct (String.eqb (pathname req) "/events").
  { destruct (handleEventsRequest_answers req s) as (r & t & -> & Hother).
    cbn [fst snd manager responses tracker].
    split; [reflexivity|]. split; [reflexivity|].
    exists r. split; [reflexivity|].
    intros Hget Hpost. destruct (Hother Hget Hpost) as [-> ->]. now split. }
  destruct (String.eqb (pathname req) "/reload").
  { destruct (handleReloadRequest_answers req s) as (r & t & -> & Hother).
    cbn [fst snd manager responses tracker].
    split; [reflexivity|]. split; [reflexivity|].
    exists r. split; [reflexivity|].
    intros Hpost. destruct (Hother Hpost) as [-> ->]. now split. }
  run_request. split; [reflexivity|]. split; [reflexivity|].
  eexists. split; [reflexivity|now split].
Qed.

(** ** Shutdown *)

Lemma stop_run s :
  stop s
  = (Returned tt,
     set_manager (fun _ => exec Manager.disconnectAll (manager s))
       (set_tracker (fun _ => exec Tracker.flushPendingWrites (tracker s))
          s)).
Proof.
  unfold stop, try_catch, bind, inTracker, inManager. cbv zeta.
  rewrite (flushPendingWrites_run (tracker s)). cbn [fst snd].
  unfold exec. rewrite (flushPendingWrites_run (tracker s)). reflexivity.
Qed.

(** X30.  [stop] saves before it disconnects: it never throws; when it
    is done no write is pending and no timer is held, every cached
    event whose file can be written and is shared with no other cached
    event has its table on disk, and no client is registered. *)
Theorem stop_saves_and_disconnects s :
  Tracker.timersRegistered (tracker s) ->
  let s' := exec stop s in
  fst (stop s) = Returned tt
  /\ Manager.clients (manager s') = []
  /\ Tracker.pendingWrites (tracker s') = ∅
  /\ Tracker.timers (tracker s') = ∅
  /\ responses s' = responses s
  /\ forall e d,
       Tracker.eventCache (tracker s) !! e = Some d ->
       (forall e', is_Some (Tracker.eventCache (tracker s) !! e') ->
                   Sanitize.sanitizeEventName e'
                   = Sanitize.sanitizeEventName e -> e' = e) ->
       (Sanitize.sanitizeEventName e ∉ Tracker.unwritable (tracker s)) ->
       Tracker.onDisk e (tracker s') = Some d.
Proof.
  intros Hreg. cbv zeta. unfold exec at 1 2 3 4 5. rewrite stop_run.
  cbn [fst snd tracker manager responses set_tracker set_manager].
  destruct (flushPendingWrites_frame (tracker s)) as (_ & Hpw & Htm & _).
  rewrite (cleared_registered (tracker s) Hreg) in Htm.
  split; [reflexivity|]. split; [reflexivity|]. split; [exact Hpw|].
  split; [exact Htm|]. split; [reflexivity|].
  intros e d Hc Hsole Hw.
  destruct (flushPendingWrites_store (tracker s)) as [Hfl _].
  destruct (forOf_flushEntry_sole e d
              (map_to_list (Tracker.eventCache (tracker s)))
              (Tracker.set_timers
                 (Tracker.cleared
                    (map_to_list (Tracker.pendingWrites (tracker s))))
                 (tracker s))) as [_ Hfile].
  - apply NoDup_fst_map_to_list.
  - now apply elem_of_map_to_list.
  - intros [e' d'] Hin. apply elem_of_map_to_list in Hin.
    apply Hsole. simpl. eauto.
  - unfold Tracker.onDisk. rewrite Hfl, Hfile.
    cbn [Tracker.unwritable Tracker.set_timers].
    rewrite bool_decide_eq_false_2 by exact Hw.
    now destruct d.
Qed.

Lemma stop_saves_and_disconnects_witness :
  Tracker.timersRegistered Scenario.saved
  /\ Manager.clients
       (manager (exec stop (serving Scenario.saved ScenarioClients.room)))
     = []
  /\ Tracker.timers
       (tracker (exec stop (serving Scenario.saved ScenarioClients.room)))
     = ∅.
Proof.
  assert (H : Tracker.timersRegistered Scenario.saved).
  { intros f. apply soleTimer_saveEventData, soleTimer_initial. }
  split; [exact H|]. split.
  - exact (proj1 (proj2
             (stop_saves_and_disconnects
                (serving Scenario.saved ScenarioClients.room) H))).
  - exact (proj1 (proj2 (proj2 (proj2
             (stop_saves_and_disconnects
                (serving Scenario.saved ScenarioClients.room) H))))).
Defined.
End HttpFacts.
